(** * Purchase-order dashboard API: the filter compiler and its query set

    A shallow embedding of the server part of [src/types.ts] (the Express
    application): [buildWhere], the [/api/po/kpis], [/api/po/lines],
    [/api/po/products] and [/api/po/skus] handlers, the JavaScript string
    and number primitives they call, and the meaning of the SQL fragments
    they assemble.

    Conventions.
    - A JavaScript string is a [string]; every [ascii] stands for one code
      unit below 256.
    - A JavaScript number is [NaN] or an integer [Num z].  Arithmetic on
      [Num] is exact; the rounding of integers beyond 2^53 to doubles is not
      modelled, and [Num z] with [z] past the double range stands for an
      infinity (see [Number_isFinite]).
    - A query-string field is an [option string]: [None] is [undefined]. *)

From Stdlib Require Import List String Ascii Bool Arith ZArith QArith Qround Lia.
From Stdlib Require Import Permutation Sorted.
From Stdlib Require Import DecimalString DecimalNat.
Import ListNotations.

Close Scope Q_scope.
Open Scope nat_scope.
Open Scope string_scope.
Open Scope list_scope.

(* ------------------------------------------------------------------ *)
(** ** JavaScript values *)

Inductive number :=
| NaN
| Num (z : Z).

(** What ends up in the parameter array handed to [pool.query]. *)
Inductive param :=
| PStr (s : string)
| PNum (n : number).

(** [v || d] on a query field. *)
Definition or_default (v : option string) (d : string) : string :=
  match v with
  | Some s => if s =? "" then d else s
  | None => d
  end.

(* ------------------------------------------------------------------ *)
(** ** String primitives *)

Module JsString.

(** WhiteSpace and LineTerminator code units below 256: TAB, LF, VT, FF,
    CR, SP and NBSP. *)
Definition is_ws (c : ascii) : bool :=
  let n := nat_of_ascii c in
  (((9 <=? n) && (n <=? 13)) || (n =? 32) || (n =? 160))%nat.

Definition is_digit (c : ascii) : bool :=
  let n := nat_of_ascii c in ((48 <=? n) && (n <=? 57))%nat.

Fixpoint trimStart (s : string) : string :=
  match s with
  | String c s' => if is_ws c then trimStart s' else s
  | EmptyString => EmptyString
  end.

Fixpoint trimEnd (s : string) : string :=
  match s with
  | EmptyString => EmptyString
  | String c s' =>
      let r := trimEnd s' in
      if is_ws c && (r =? "") then EmptyString else String c r
  end.

(** [String.prototype.trim]. *)
Definition trim (s : string) : string := trimEnd (trimStart s).

(** [String.prototype.split] for a non-empty separator: the fields between
    the left-to-right, non-overlapping occurrences of [sep].  [skip] counts
    the code units of a matched separator still to be passed over. *)
Fixpoint split_go (sep : string) (skip : nat) (cur : string) (s : string)
  : list string :=
  match s with
  | EmptyString => [cur]
  | String c s' =>
      match skip with
      | S k => split_go sep k cur s'
      | O =>
          if String.prefix sep s
          then cur :: split_go sep (String.length sep - 1) "" s'
          else split_go sep 0 (cur ++ String c "") s'
      end
  end.

Definition split (sep : string) (s : string) : list string :=
  split_go sep 0 "" s.

(** [Array.prototype.join]. *)
Definition join (sep : string) (l : list string) : string :=
  String.concat sep l.

(** The fill of [padStart]: [fill] repeated and cut to [n] code units. *)
Fixpoint fill_to (fill cur : string) (n : nat) : string :=
  match n with
  | O => ""
  | S n' =>
      match cur with
      | String c r => String c (fill_to fill r n')
      | EmptyString =>
          match fill with
          | String c r => String c (fill_to fill r n')
          | EmptyString => ""
          end
      end
  end.

(** [String.prototype.padStart]. *)
Definition padStart (s : string) (target : nat) (fill : string) : string :=
  fill_to fill fill (target - String.length s) ++ s.

(** [Array.prototype.map] with the index argument. *)
Fixpoint mapi_from {A B} (i : nat) (f : A -> nat -> B) (l : list A) : list B :=
  match l with
  | [] => []
  | x :: r => f x i :: mapi_from (S i) f r
  end.

Definition mapi {A B} (f : A -> nat -> B) (l : list A) : list B :=
  mapi_from 0 f l.

End JsString.

(* ------------------------------------------------------------------ *)
(** ** Number primitives *)

Module JsNumber.
Import JsString.
Local Open Scope Z_scope.

(** Decimal form of an array length, as a template literal prints it. *)
Definition nat_toString (n : nat) : string :=
  NilEmpty.string_of_uint (Nat.to_uint n).

(** [String(n)] / template interpolation of a number (integers print in
    plain decimal below 10^21). *)
Definition toString (n : number) : string :=
  match n with
  | NaN => "NaN"
  | Num z =>
      if z <? 0 then "-" ++ nat_toString (Z.to_nat (- z))
      else nat_toString (Z.to_nat z)
  end.

(** Template interpolation of a destructured array element, which is
    [undefined] when the array is too short. *)
Definition toString_opt (v : option number) : string :=
  match v with
  | Some n => toString n
  | None => "undefined"
  end.

(** Value of a digit in radices up to 36. *)
Definition digit_val (c : ascii) : option Z :=
  let n := Z.of_nat (nat_of_ascii c) in
  if (48 <=? n) && (n <=? 57) then Some (n - 48)
  else if (97 <=? n) && (n <=? 122) then Some (n - 87)
  else if (65 <=? n) && (n <=? 90) then Some (n - 55)
  else None.

(** The longest prefix of radix-[R] digits, as a number; [acc] is [None]
    until a digit has been read. *)
Fixpoint digits_prefix (R : Z) (acc : option Z) (s : string) : option Z :=
  match s with
  | String c s' =>
      match digit_val c with
      | Some d =>
          if d <? R
          then digits_prefix R (Some (R * match acc with Some a => a | None => 0 end + d)) s'
          else acc
      | None => acc
      end
  | EmptyString => acc
  end.

(** A whole string of radix-[R] digits; [None] when it is empty or holds
    anything else. *)
Fixpoint digits_all (R : Z) (acc : option Z) (s : string) : option Z :=
  match s with
  | String c s' =>
      match digit_val c with
      | Some d =>
          if d <? R
          then digits_all R (Some (R * match acc with Some a => a | None => 0 end + d)) s'
          else None
      | None => None
      end
  | EmptyString => acc
  end.

(** A leading sign, taken off. *)
Definition strip_sign (s : string) : Z * string :=
  match s with
  | String c r =>
      if Ascii.eqb c "-" then (-1, r)
      else if Ascii.eqb c "+" then (1, r)
      else (1, s)
  | EmptyString => (1, s)
  end.

(** The radix a prefix letter after [0] announces. *)
Definition radix_of_letter (c : ascii) : option Z :=
  if Ascii.eqb c "x" || Ascii.eqb c "X" then Some 16
  else if Ascii.eqb c "o" || Ascii.eqb c "O" then Some 8
  else if Ascii.eqb c "b" || Ascii.eqb c "B" then Some 2
  else None.

(** A leading [0x], [0o] or [0b], taken off. *)
Definition strip_radix_prefix (s : string) : option (Z * string) :=
  match s with
  | String c1 (String c2 r) =>
      if Ascii.eqb c1 "0"
      then option_map (fun R => (R, r)) (radix_of_letter c2)
      else None
  | _ => None
  end.

(** A leading [0x], taken off. *)
Definition strip_hex_prefix (s : string) : option string :=
  match strip_radix_prefix s with
  | Some (16, r) => Some r
  | _ => None
  end.

(** [parseInt(s, radix)]; [radix = 0] is the one-argument call. *)
Definition parseInt (s : string) (radix : Z) : number :=
  let '(sign, S1) := strip_sign (trimStart s) in
  if negb (radix =? 0) && ((radix <? 2) || (36 <? radix)) then NaN
  else
    let '(R, S2) :=
      if (radix =? 0) || (radix =? 16) then
        match strip_hex_prefix S1 with
        | Some r => (16, r)
        | None => (if radix =? 0 then 10 else radix, S1)
        end
      else (radix, S1) in
    match digits_prefix R None S2 with
    | Some v => Num (sign * v)
    | None => NaN
    end.

(** [Number(s)] on the integer numerals: surrounding white space is
    dropped, the empty string is 0, then a signed decimal integer or an
    unsigned [0x]/[0o]/[0b] integer.  Numerals with a fraction, an exponent
    or [Infinity] are outside the modelled fragment and read as [NaN]
    here. *)
Definition Number_ (s : string) : number :=
  let t := trim s in
  if (t =? "")%string then Num 0
  else
    match strip_radix_prefix t with
    | Some (R, r) =>
        match digits_all R None r with
        | Some v => Num v
        | None => NaN
        end
    | None =>
        let '(sign, r) := strip_sign t in
        match digits_all 10 None r with
        | Some v => Num (sign * v)
        | None => NaN
        end
    end.

(** Integers at or above this magnitude round to an infinity. *)
Definition double_overflow : Z := 2 ^ 1024 - 2 ^ 970.

Definition Number_isFinite (n : number) : bool :=
  match n with
  | NaN => false
  | Num z => Z.abs z <? double_overflow
  end.

(** [n > 0]. *)
Definition gt0 (n : number) : bool :=
  match n with
  | NaN => false
  | Num z => 0 <? z
  end.

(** [Math.max(a, b)] and [Math.min(a, b)]: [NaN] if either is. *)
Definition Math_max (a b : number) : number :=
  match a, b with
  | Num x, Num y => Num (Z.max x y)
  | _, _ => NaN
  end.

Definition Math_min (a b : number) : number :=
  match a, b with
  | Num x, Num y => Num (Z.min x y)
  | _, _ => NaN
  end.

Definition sub (a b : number) : number :=
  match a, b with
  | Num x, Num y => Num (x - y)
  | _, _ => NaN
  end.

Definition mul (a b : number) : number :=
  match a, b with
  | Num x, Num y => Num (x * y)
  | _, _ => NaN
  end.

(** [v + 1] where [v] may be [undefined]. *)
Definition add1 (v : option number) : number :=
  match v with
  | Some (Num z) => Num (z + 1)
  | _ => NaN
  end.

(** [v === 12] where [v] may be [undefined]. *)
Definition is12 (v : option number) : bool :=
  match v with
  | Some (Num z) => z =? 12
  | _ => false
  end.

End JsNumber.

(* ------------------------------------------------------------------ *)
(** ** The request *)

Module Request.

(** [req.query] as the handlers read it: the filter fields shared by every
    endpoint, then the endpoint-specific ones. *)
Record query := mkQuery {
  dateFrom : option string;
  dateTo : option string;
  catL1 : option string;
  catL2 : option string;
  catL3 : option string;
  search : option string;
  skus : option string;
  productTmplIds : option string;
  q : option string;
  tmplId : option string;
  page : option string;
  pageSize : option string;
  sortBy : option string;
  sortDir : option string
}.

Definition empty_query : query :=
  mkQuery None None None None None None None None None None None None None None.

(** Every filter field but [catL2] set. *)
Definition full_query : query :=
  mkQuery (Some "2025-02") (Some "2025-12") (Some "Raw") None (Some "Bolt")
          (Some "m8") (Some "A-1, ,B-2") (Some "7,x,-3,12abc")
          None None None None None None.

(** Only [search] set. *)
Definition search_only : query :=
  mkQuery None None None None None (Some "m8") None None
          None None None None None None.


(** January to March 2025. *)
Definition first_quarter : query :=
  mkQuery (Some "2025-01") (Some "2025-03") None None None None None None
          None None None None None None.

(** Only [catL2] set. *)
Definition steel_only : query :=
  mkQuery None None None (Some "Steel") None None None None
          None None None None None None.

(** [page=abc]. *)
Definition page_abc : query :=
  mkQuery None None None None None None None None
          None None (Some "abc") None None None.

(** [pageSize=abc]. *)
Definition pageSize_abc : query :=
  mkQuery None None None None None None None None
          None None None (Some "abc") None None.

(** [sortBy=constructor]. *)
Definition sortBy_constructor : query :=
  mkQuery None None None None None None None None
          None None None None (Some "constructor") None.

(** Page [p] in pages of ten, default sort. *)
Definition page_of_ten (p : string) : query :=
  mkQuery None None None None None None None None
          None None (Some p) (Some "10") None None.

(** [sortBy=sku&sortDir=asc]. *)
Definition by_sku_asc : query :=
  mkQuery None None None None None None None None
          None None None None (Some "sku") (Some "asc").

(** [page=0&pageSize=1000]. *)
Definition page_out_of_range : query :=
  mkQuery None None None None None None None None
          None None (Some "0") (Some "1000") None None.

(** Only the typeahead text set. *)
Definition typed (text : string) : query :=
  mkQuery None None None None None None None None
          (Some text) None None None None None.


End Request.

Import Request.

(** The guard [if (query.f)]: the field's string when it is truthy. *)
Definition present (v : option string) : option string :=
  match v with
  | Some s => if s =? "" then None else Some s
  | None => None
  end.

(* ------------------------------------------------------------------ *)
(** ** The filter compiler: [buildWhere] *)

Module FilterCompiler.
Import JsString JsNumber.

(** The two arrays [buildWhere] pushes onto. *)
Record builder := mkBuilder {
  params : list param;
  conds : list string
}.

Definition push_param (p : param) (b : builder) : builder :=
  mkBuilder (params b ++ [p]) (conds b).

Definition push_params (ps : list param) (b : builder) : builder :=
  mkBuilder (params b ++ ps) (conds b).

Definition push_cond (c : string) (b : builder) : builder :=
  mkBuilder (params b) (conds b ++ [c]).

(** The template fragment [$${n}]. *)
Definition placeholder (n : nat) : string := "$" ++ nat_toString n.

(** [const conds = ["po.state IN ('purchase','done')"]]. *)
Definition init : builder :=
  mkBuilder [] ["po.state IN ('purchase','done')"].

(** Date from (default: start of 2025). *)
Definition step_dateFrom (query : query) (b : builder) : builder :=
  let rawFrom := or_default (dateFrom query) "2025-01" in
  let b := push_param (PStr (rawFrom ++ "-01")) b in
  push_cond ("po.date_order >= " ++ placeholder (List.length (params b)) ++ "::date") b.

(** [m === 12 ? `${y + 1}-01-01` : `${y}-${String(m + 1).padStart(2, '0')}-01`]
    after [const [y, m] = query.dateTo.split('-').map(Number)]. *)
Definition nextMonth (dateTo : string) : string :=
  let parts := map Number_ (split "-" dateTo) in
  let y := nth_error parts 0 in
  let m := nth_error parts 1 in
  if is12 m then toString (add1 y) ++ "-01-01"
  else toString_opt y ++ "-" ++ padStart (toString (add1 m)) 2 "0" ++ "-01".

(** Date to (inclusive month). *)
Definition step_dateTo (query : query) (b : builder) : builder :=
  match present (dateTo query) with
  | Some s =>
      let b := push_param (PStr (nextMonth s)) b in
      push_cond ("po.date_order < " ++ placeholder (List.length (params b)) ++ "::date") b
  | None => push_cond "po.date_order < '2099-01-01'" b
  end.

(** Category levels (exact match). *)
Definition step_catL1 (query : query) (b : builder) : builder :=
  match present (catL1 query) with
  | Some s =>
      let b := push_param (PStr s) b in
      push_cond ("NULLIF(split_part(pc.complete_name,' / ',1),'') = "
                 ++ placeholder (List.length (params b))) b
  | None => b
  end.

Definition step_catL2 (query : query) (b : builder) : builder :=
  match present (catL2 query) with
  | Some s =>
      let b := push_param (PStr s) b in
      push_cond ("NULLIF(split_part(pc.complete_name,' / ',2),'') = "
                 ++ placeholder (List.length (params b))) b
  | None => b
  end.

Definition step_catL3 (query : query) (b : builder) : builder :=
  match present (catL3 query) with
  | Some s =>
      let b := push_param (PStr s) b in
      push_cond ("NULLIF(split_part(pc.complete_name,' / ',3),'') = "
                 ++ placeholder (List.length (params b))) b
  | None => b
  end.

(** Free-text search: one parameter, referenced on both sides of the OR. *)
Definition step_search (query : query) (b : builder) : builder :=
  match present (search query) with
  | Some s =>
      let b := push_param (PStr ("%" ++ s ++ "%")) b in
      let n := List.length (params b) in
      push_cond ("(COALESCE(pp.default_code,pt.default_code) ILIKE " ++ placeholder n
                 ++ " OR pt.name->>'en_US' ILIKE " ++ placeholder n ++ ")") b
  | None => b
  end.

(** [query.skus.split(',').map((s) => s.trim()).filter(Boolean)]. *)
Definition skuList (skus : string) : list string :=
  filter (fun s => negb (s =? "")) (map trim (split "," skus)).

(** [xs.map((_, i) => `$${params.length + 1 + i}`).join(', ')]. *)
Definition placeholders_for {A} (b : builder) (xs : list A) : string :=
  join ", " (mapi (fun _ i => placeholder (List.length (params b) + 1 + i)) xs).

(** Specific SKUs selected via typeahead (comma-separated). *)
Definition step_skus (query : query) (b : builder) : builder :=
  match present (skus query) with
  | Some s =>
      let skuList := skuList s in
      if (0 <? List.length skuList)%nat then
        let placeholders := placeholders_for b skuList in
        let b := push_params (map PStr skuList) b in
        push_cond ("COALESCE(pp.default_code,pt.default_code) IN (" ++ placeholders ++ ")") b
      else b
  | None => b
  end.

(** [query.productTmplIds.split(',').map((s) => parseInt(s.trim(), 10))
      .filter((n) => Number.isFinite(n) && n > 0)]. *)
Definition tmplIds (ids : string) : list number :=
  filter (fun n => Number_isFinite n && gt0 n)
         (map (fun s => parseInt (trim s) 10) (split "," ids)).

(** Template-level filter (comma-separated integers). *)
Definition step_productTmplIds (query : query) (b : builder) : builder :=
  match present (productTmplIds query) with
  | Some s =>
      let ids := tmplIds s in
      if (0 <? List.length ids)%nat then
        let placeholders := placeholders_for b ids in
        let b := push_params (map PNum ids) b in
        push_cond ("pp.product_tmpl_id IN (" ++ placeholders ++ ")") b
      else b
  | None => b
  end.

(** The arrays as they stand at the [return]. *)
Definition build (query : query) : builder :=
  step_productTmplIds query
    (step_skus query
      (step_search query
        (step_catL3 query
          (step_catL2 query
            (step_catL1 query
              (step_dateTo query
                (step_dateFrom query init))))))).

(** What [buildWhere] returns: [{ where: conds.join(' AND '), params }]. *)
Record where_clause := mkWhere {
  where_ : string;
  where_params : list param
}.

Definition buildWhere (query : query) : where_clause :=
  let b := build query in
  mkWhere (join " AND " (conds b)) (params b).

End FilterCompiler.

Import FilterCompiler.

(* ------------------------------------------------------------------ *)
(** ** The compiled predicate, clause by clause

    Every string [buildWhere] can push onto [conds] is one of eight shapes.
    [cond] names them, [render] prints them back, and [clauses] lists, for
    a query, the parameters and the condition each step contributes. *)

Module Predicate.
Import JsString JsNumber.

Inductive cond :=
| StateIn                         (* po.state IN ('purchase','done') *)
| DateGe (k : nat)                (* po.date_order >= $k::date *)
| DateLt (k : nat)                (* po.date_order < $k::date *)
| DateLtSentinel                  (* po.date_order < '2099-01-01' *)
| CatEq (level : nat) (k : nat)   (* NULLIF(split_part(pc.complete_name,' / ',level),'') = $k *)
| SearchLike (k : nat)            (* (sku ILIKE $k OR name ILIKE $k) *)
| SkuIn (ks : list nat)           (* sku IN ($k1, $k2, ...) *)
| TmplIn (ks : list nat).         (* pp.product_tmpl_id IN ($k1, $k2, ...) *)

Definition render (c : cond) : string :=
  match c with
  | StateIn => "po.state IN ('purchase','done')"
  | DateGe k => "po.date_order >= " ++ placeholder k ++ "::date"
  | DateLt k => "po.date_order < " ++ placeholder k ++ "::date"
  | DateLtSentinel => "po.date_order < '2099-01-01'"
  | CatEq level k =>
      "NULLIF(split_part(pc.complete_name,' / '," ++ nat_toString level ++ "),'') = "
      ++ placeholder k
  | SearchLike k =>
      "(COALESCE(pp.default_code,pt.default_code) ILIKE " ++ placeholder k
      ++ " OR pt.name->>'en_US' ILIKE " ++ placeholder k ++ ")"
  | SkuIn ks =>
      "COALESCE(pp.default_code,pt.default_code) IN ("
      ++ join ", " (map placeholder ks) ++ ")"
  | TmplIn ks =>
      "pp.product_tmpl_id IN (" ++ join ", " (map placeholder ks) ++ ")"
  end.

(** The placeholder indices a condition references, left to right. *)
Definition cond_refs (c : cond) : list nat :=
  match c with
  | StateIn | DateLtSentinel => []
  | DateGe k | DateLt k | CatEq _ k => [k]
  | SearchLike k => [k; k]
  | SkuIn ks | TmplIn ks => ks
  end.

(** One step's contribution: the parameters it pushes and the condition it
    pushes, the latter given the length of [params] before the step. *)
Record clause := mkClause {
  cl_params : list param;
  cl_cond : nat -> cond
}.

Definition opt_clause (v : option string) (f : string -> list clause) : list clause :=
  match present v with
  | Some s => f s
  | None => []
  end.

Definition cl_state : clause := mkClause [] (fun _ => StateIn).

Definition cl_dateFrom (query : query) : clause :=
  mkClause [PStr (or_default (dateFrom query) "2025-01" ++ "-01")]
           (fun base => DateGe (base + 1)).

Definition cl_dateTo (query : query) : clause :=
  match present (dateTo query) with
  | Some s => mkClause [PStr (nextMonth s)] (fun base => DateLt (base + 1))
  | None => mkClause [] (fun _ => DateLtSentinel)
  end.

Definition cl_cat (level : nat) (v : option string) : list clause :=
  opt_clause v (fun s => [mkClause [PStr s] (fun base => CatEq level (base + 1))]).

Definition cl_search (query : query) : list clause :=
  opt_clause (search query)
    (fun s => [mkClause [PStr ("%" ++ s ++ "%")] (fun base => SearchLike (base + 1))]).

Definition cl_skus (query : query) : list clause :=
  opt_clause (skus query)
    (fun s =>
       match skuList s with
       | [] => []
       | l => [mkClause (map PStr l) (fun base => SkuIn (seq (base + 1) (List.length l)))]
       end).

Definition cl_tmpl (query : query) : list clause :=
  opt_clause (productTmplIds query)
    (fun s =>
       match tmplIds s with
       | [] => []
       | l => [mkClause (map PNum l) (fun base => TmplIn (seq (base + 1) (List.length l)))]
       end).

(** [[x]] when the guard [if (query.f)] passes, nothing otherwise. *)
Definition when_present {A} (v : option string) (x : A) : list A :=
  match present v with
  | Some _ => [x]
  | None => []
  end.

(** The single IN condition of a list field: one placeholder per value
    kept, from index [k] on, and no condition when no value is kept. *)
Definition in_cond {A} (mk : list nat -> cond) (k : nat) (values : list A) : list cond :=
  match values with
  | [] => []
  | _ :: _ => [mk (seq k (List.length values))]
  end.

(** The optional filter fields, in the order the steps run. *)
Definition optional_clauses (query : query) : list clause :=
  cl_cat 1 (catL1 query) ++ cl_cat 2 (catL2 query) ++ cl_cat 3 (catL3 query)
  ++ cl_search query ++ cl_skus query ++ cl_tmpl query.

Definition clauses (query : query) : list clause :=
  cl_state :: cl_dateFrom query :: cl_dateTo query :: optional_clauses query.

(** Conditions and parameters of a clause list whose first clause sees
    [base] parameters before it. *)
Fixpoint assemble (base : nat) (cls : list clause) : list cond * list param :=
  match cls with
  | [] => ([], [])
  | c :: r =>
      let '(cs, ps) := assemble (base + List.length (cl_params c)) r in
      (cl_cond c base :: cs, cl_params c ++ ps)
  end.

Definition compiled_conds (query : query) : list cond :=
  fst (assemble 0 (clauses query)).

Definition compiled_params (query : query) : list param :=
  snd (assemble 0 (clauses query)).

(** 1 when the guard [if (query.f)] passes. *)
Definition pushed (v : option string) : nat :=
  match present v with
  | Some _ => 1
  | None => 0
  end.

(** The value of [n] in the search step: the index of the search
    parameter, when the step runs. *)
Definition search_slot (query : query) : option nat :=
  match present (search query) with
  | Some _ =>
      Some (1 + pushed (dateTo query) + pushed (catL1 query)
            + pushed (catL2 query) + pushed (catL3 query) + 1)
  | None => None
  end.

(** The indices referenced by a clause list whose first clause sees [base]
    parameters, and the number of parameters it pushes. *)
Definition refs (base : nat) (cls : list clause) : list nat :=
  List.concat (map cond_refs (fst (assemble base cls))).

Definition pcount (base : nat) (cls : list clause) : nat :=
  List.length (snd (assemble base cls)).

(** A clause that references each of its own parameters once, in order. *)
Definition regular (c : clause) : Prop :=
  forall base, cond_refs (cl_cond c base) = seq (base + 1) (List.length (cl_params c)).

(** The clauses before the search step, after it, and before the SKU
    step. *)
Definition before_search (query : query) : list clause :=
  [cl_state; cl_dateFrom query; cl_dateTo query]
  ++ cl_cat 1 (catL1 query) ++ cl_cat 2 (catL2 query) ++ cl_cat 3 (catL3 query).

Definition after_search (query : query) : list clause :=
  cl_skus query ++ cl_tmpl query.

Definition head_clauses (query : query) : list clause :=
  before_search query ++ cl_search query.

(** A clause applied to the builder, as a step of [buildWhere] does it. *)
Definition apply_clause (b : builder) (c : clause) : builder :=
  mkBuilder (params b ++ cl_params c)
            (conds b ++ [render (cl_cond c (List.length (params b)))]).

End Predicate.

(* ------------------------------------------------------------------ *)
(** ** Positional placeholders of a SQL string

    A placeholder is a [$] followed by a maximal, non-empty run of decimal
    digits.  The scanner's state is [None] outside a placeholder and
    [Some ds] after a [$], with [ds] the digits read since. *)

Module Placeholders.
Import JsString.

Definition emit (st : option string) : list nat :=
  match st with
  | Some ds =>
      if ds =? "" then []
      else match NilEmpty.uint_of_string ds with
           | Some d => [Nat.of_uint d]
           | None => []
           end
  | None => []
  end.

Fixpoint scan (st : option string) (s : string) : list nat :=
  match s with
  | EmptyString => emit st
  | String c s' =>
      if is_digit c then
        match st with
        | Some ds => scan (Some (ds ++ String c "")%string) s'
        | None => scan None s'
        end
      else emit st ++ scan (if Ascii.eqb c "$" then Some "" else None) s'
  end.

(** The placeholder indices of [s], one per occurrence, left to right.
    Quoting is not tracked: no fragment [buildWhere] pushes has a [$]
    inside a literal. *)
Definition placeholders (s : string) : list nat := scan None s.

(** Adjacent repetitions collapsed: the indices in order of first
    reference, when a repeated index only ever repeats next to itself. *)
Fixpoint uniq_adj (l : list nat) : list nat :=
  match l with
  | [] => []
  | x :: r =>
      match r with
      | y :: _ => if Nat.eqb x y then uniq_adj r else x :: uniq_adj r
      | [] => [x]
      end
  end.

Fixpoint no_dollar (s : string) : bool :=
  match s with
  | EmptyString => true
  | String c s' => negb (Ascii.eqb c "$") && no_dollar s'
  end.

Fixpoint all_digits (s : string) : bool :=
  match s with
  | EmptyString => true
  | String c s' => is_digit c && all_digits s'
  end.

(** What may follow a placeholder: the end of the string or a code unit
    that is not a digit. *)
Definition boundary (s : string) : bool :=
  match s with
  | EmptyString => true
  | String c _ => negb (is_digit c)
  end.

(** [scans s l]: in front of any boundary, [s] contributes exactly the
    placeholders [l]. *)
Definition scans (s : string) (l : list nat) : Prop :=
  forall r, boundary r = true -> scan None (s ++ r) = l ++ scan None r.

End Placeholders.

Import Predicate Placeholders.

(* ------------------------------------------------------------------ *)
(** ** Calendar months as the query string carries them *)

Module Calendar.
Import JsString JsNumber.
Local Open Scope Z_scope.

(** A number printed in at least [w] digits. *)
Definition pad (w : nat) (z : Z) : string := padStart (toString (Num z)) w "0".

(** ['YYYY-MM']. *)
Definition iso_month (y m : Z) : string := pad 4 y ++ "-" ++ pad 2 m.

(** ['YYYY-MM-DD']. *)
Definition iso_date (y m d : Z) : string :=
  pad 4 y ++ "-" ++ pad 2 m ++ "-" ++ pad 2 d.

(** The month after month [m] of year [y]; December rolls over. *)
Definition following_month (y m : Z) : Z * Z :=
  if m =? 12 then (y + 1, 1) else (y, m + 1).

(** The date literal [buildWhere] prints for the first day of month [m] of
    year [y]: the year unpadded, the month in two digits. *)
Definition first_day_literal (y m : Z) : string :=
  toString (Num y) ++ "-" ++ pad 2 m ++ "-01".

(** Only ["0"]: the fill of [padStart]. *)
Fixpoint zeros (s : string) : bool :=
  match s with
  | EmptyString => true
  | String c s' => Ascii.eqb c "0" && zeros s'
  end.

Fixpoint no_dash (s : string) : bool :=
  match s with
  | EmptyString => true
  | String c s' => negb (Ascii.eqb c "-") && no_dash s'
  end.

End Calendar.

(* ------------------------------------------------------------------ *)
(** ** The database side

    [line] is one row of [BASE_JOINS]: a purchase order line with its
    order, variant, template, category (LEFT JOIN) and unit (LEFT JOIN).
    A nullable column is an [option]; [numeric] columns are exact
    rationals. *)

Module Sql.
Import JsString JsNumber Calendar.

(** A calendar day; [po.date_order] is a timestamp, and only its day
    matters when it is compared with dates or truncated to a month. *)
Record date := mkDate {
  year : Z;
  month_of : Z;
  day : Z
}.

Definition date_ltb (a b : date) : bool :=
  ((year a <? year b)
   || ((year a =? year b)
       && ((month_of a <? month_of b)
           || ((month_of a =? month_of b) && (day a <? day b)))))%Z.

Definition date_leb (a b : date) : bool := negb (date_ltb b a).

Record line := mkLine {
  po_state : option string;          (* po.state *)
  po_date_order : date;              (* po.date_order *)
  pc_complete_name : option string;  (* pc.complete_name *)
  pp_id : Z;                         (* pp.id *)
  pp_default_code : option string;   (* pp.default_code *)
  pt_default_code : option string;   (* pt.default_code *)
  pt_name_en : option string;        (* pt.name->>'en_US' *)
  pp_product_tmpl_id : Z;            (* pp.product_tmpl_id *)
  uom_pol_id : option Z;             (* uom_pol.id *)
  uom_pol_name_en : option string;   (* uom_pol.name->>'en_US' *)
  product_qty : option Q;            (* pol.product_qty *)
  price_unit : option Q;             (* pol.price_unit *)
  qty_received : option Q;           (* pol.qty_received *)
  qty_invoiced : option Q            (* pol.qty_invoiced *)
}.

(** What the server brings to the model and the source does not fix: its
    text-to-date input conversion ([None] when it raises), [ILIKE] on
    non-null operands, and the collation's order on text. *)
Record engine := mkEngine {
  cast_date : string -> option date;
  ilike : string -> string -> bool;
  text_leb : string -> string -> bool
}.

(** *** Three-valued logic and scalar functions *)

(** A SQL boolean; [None] is NULL. *)
Definition sql_bool := option bool.

Definition sql_and (a b : sql_bool) : sql_bool :=
  match a, b with
  | Some false, _ | _, Some false => Some false
  | Some true, Some true => Some true
  | _, _ => None
  end.

Definition sql_or (a b : sql_bool) : sql_bool :=
  match a, b with
  | Some true, _ | _, Some true => Some true
  | Some false, Some false => Some false
  | _, _ => None
  end.

(** WHERE keeps a row only when the predicate is TRUE. *)
Definition is_true (a : sql_bool) : bool :=
  match a with
  | Some true => true
  | _ => false
  end.

Definition coalesce {A} (a b : option A) : option A :=
  match a with
  | Some _ => a
  | None => b
  end.

(** [NULLIF(a, b)] on text. *)
Definition nullif (a : option string) (b : string) : option string :=
  match a with
  | Some x => if x =? b then None else Some x
  | None => None
  end.

(** [split_part(s, sep, n)]: the [n]-th field, 1-based, or [''] when
    there are fewer. *)
Definition split_part (s sep : string) (n : nat) : string :=
  nth (n - 1) (split sep s) "".

(** [a = b] on text. *)
Definition text_eq (a b : option string) : sql_bool :=
  match a, b with
  | Some x, Some y => Some (x =? y)
  | _, _ => None
  end.

(** [a IN (v1, ..., vn)] for non-null [vi]. *)
Definition text_in (a : option string) (vs : list string) : sql_bool :=
  match a with
  | Some x => Some (existsb (String.eqb x) vs)
  | None => None
  end.

(** [COALESCE(pp.default_code, pt.default_code)]. *)
Definition sku_of (l : line) : option string :=
  coalesce (pp_default_code l) (pt_default_code l).

(** [NULLIF(split_part(pc.complete_name,' / ',n),'')]. *)
Definition category_level (n : nat) (l : line) : option string :=
  nullif (option_map (fun s => split_part s " / " n) (pc_complete_name l)) "".

(** The number of segments of a row's category path; none without a
    category. *)
Definition segments (l : line) : nat :=
  match pc_complete_name l with
  | Some s => List.length (split " / " s)
  | None => 0
  end.

(** *** Conditions with their parameters bound *)

Inductive bound :=
| BStateIn
| BDateGe (d : date)
| BDateLt (d : date)
| BCatEq (level : nat) (v : string)
| BSearch (pattern : string)
| BSkuIn (vs : list string)
| BTmplIn (ids : list Z).

(** [$k]. *)
Definition param_at (ps : list param) (k : nat) : option param :=
  match k with
  | O => None
  | S i => nth_error ps i
  end.

Definition text_param (ps : list param) (k : nat) : option string :=
  match param_at ps k with
  | Some (PStr s) => Some s
  | _ => None
  end.

(** The range of the [integer] type. *)
Definition int4 (z : Z) : Prop := (- 2 ^ 31 <= z < 2 ^ 31)%Z.

(** An [integer] parameter: a number in the 32-bit range. *)
Definition int_param (ps : list param) (k : nat) : option Z :=
  match param_at ps k with
  | Some (PNum (Num z)) =>
      if ((- 2 ^ 31 <=? z) && (z <? 2 ^ 31))%Z then Some z else None
  | _ => None
  end.

Fixpoint all_some {A} (l : list (option A)) : option (list A) :=
  match l with
  | [] => Some []
  | Some x :: r => option_map (cons x) (all_some r)
  | None :: _ => None
  end.

Section Database.
Variable E : engine.

(** Binding the parameters a condition references; [None] when the server
    rejects the statement (a parameter of the wrong type, a date that does
    not parse). *)
Definition bind (ps : list param) (c : Predicate.cond) : option bound :=
  match c with
  | Predicate.StateIn => Some BStateIn
  | Predicate.DateGe k =>
      match text_param ps k with
      | Some s => option_map BDateGe (cast_date E s)
      | None => None
      end
  | Predicate.DateLt k =>
      match text_param ps k with
      | Some s => option_map BDateLt (cast_date E s)
      | None => None
      end
  | Predicate.DateLtSentinel => Some (BDateLt (mkDate 2099 1 1))
  | Predicate.CatEq level k => option_map (BCatEq level) (text_param ps k)
  | Predicate.SearchLike k => option_map BSearch (text_param ps k)
  | Predicate.SkuIn ks => option_map BSkuIn (all_some (map (text_param ps) ks))
  | Predicate.TmplIn ks => option_map BTmplIn (all_some (map (int_param ps) ks))
  end.

(** The value of a bound condition on a row. *)
Definition holds (b : bound) (l : line) : sql_bool :=
  match b with
  | BStateIn => text_in (po_state l) ["purchase"; "done"]
  | BDateGe d => Some (date_leb d (po_date_order l))
  | BDateLt d => Some (date_ltb (po_date_order l) d)
  | BCatEq level v => text_eq (category_level level l) (Some v)
  | BSearch pattern =>
      sql_or (option_map (fun s => ilike E s pattern) (sku_of l))
             (option_map (fun s => ilike E s pattern) (pt_name_en l))
  | BSkuIn vs => text_in (sku_of l) vs
  | BTmplIn ids => Some (existsb (Z.eqb (pp_product_tmpl_id l)) ids)
  end.

(** [c1 AND c2 AND ...]. *)
Definition conjunction (bs : list bound) (l : line) : sql_bool :=
  fold_right (fun b acc => sql_and (holds b l) acc) (Some true) bs.

(** [BASE_JOINS WHERE ${where}] with [params]: the rows kept, or [None]
    when the statement is rejected. *)
Definition where_rows (cs : list Predicate.cond) (ps : list param) (db : list line)
  : option (list line) :=
  match all_some (map (bind ps) cs) with
  | Some bs => Some (filter (fun l => is_true (conjunction bs l)) db)
  | None => None
  end.

(** The rows a request's filter selects.  The statement's WHERE is
    [where_ (buildWhere query)], which is [compiled_conds query] rendered
    and joined with AND, and its parameters are [where_params (buildWhere
    query)], which are [compiled_params query]. *)
Definition selected (query : query) (db : list line) : option (list line) :=
  where_rows (Predicate.compiled_conds query) (Predicate.compiled_params query) db.

End Database.

End Sql.

(* ------------------------------------------------------------------ *)
(** ** Aggregates *)

Module Aggregate.
Import Sql.
Local Open Scope Q_scope.

(** [a * b] on nullable numerics. *)
Definition mulq (a b : option Q) : option Q :=
  match a, b with
  | Some x, Some y => Some (x * y)
  | _, _ => None
  end.

(** [a / b] on nullable numerics whose divisor is not zero. *)
Definition divq (a b : option Q) : option Q :=
  match a, b with
  | Some x, Some y => Some (x / y)
  | _, _ => None
  end.

(** [SUM]: NULL inputs are skipped, and the sum of no input is NULL. *)
Fixpoint SUM (l : list (option Q)) : option Q :=
  match l with
  | [] => None
  | None :: r => SUM r
  | Some x :: r =>
      match SUM r with
      | Some s => Some (x + s)
      | None => Some x
      end
  end.

(** [COUNT(x)]: the inputs that are not NULL. *)
Definition count_nonnull (l : list (option Q)) : Z :=
  Z.of_nat (List.length (filter (fun v => match v with Some _ => true | None => false end) l)).

(** [AVG]. *)
Definition AVG (l : list (option Q)) : option Q :=
  match SUM l with
  | Some s => Some (s / inject_Z (count_nonnull l))
  | None => None
  end.

(** [COALESCE(a, d)]. *)
Definition coalesce0 (a : option Q) (d : Q) : Q :=
  match a with
  | Some x => x
  | None => d
  end.

(** [NULLIF(a, 0)]. *)
Definition nullif0 (a : option Q) : option Q :=
  match a with
  | Some x => if Qeq_bool x 0 then None else Some x
  | None => None
  end.

(** The nearest integer, halves away from zero. *)
Definition round_half_away (x : Q) : Z :=
  if Qle_bool 0 x then Qfloor (x + (1 # 2)) else (- Qfloor (- x + (1 # 2)))%Z.

(** [ROUND(x, 1)] on numeric. *)
Definition round1 (x : Q) : Q := inject_Z (round_half_away (x * 10)) / 10.

Definition round_opt (x : option Q) : option Q := option_map round1 x.

End Aggregate.

(* ------------------------------------------------------------------ *)
(** ** HTTP responses *)

(** [res.json(body)] or [res.status(500).json({ error })]. *)
Inductive response (A : Type) :=
| Json (body : A)
| ServerError.

Arguments Json {A} body.
Arguments ServerError {A}.

(* ------------------------------------------------------------------ *)
(** ** GET /api/po/kpis *)

Module Kpis.
Import Sql Aggregate Calendar.

Record kpis := mkKpis {
  total_lines : Z;
  total_ordered_value : Q;
  total_ordered_qty : Q;
  total_received_value : Q;
  total_invoiced_value : Q;
  pct_received : option Q;
  pct_invoiced : option Q;
  distinct_months : Z
}.

(** [pol.product_qty * pol.price_unit] and its siblings, per row. *)
Definition ordered_value (l : line) : option Q := mulq (product_qty l) (price_unit l).
Definition received_value (l : line) : option Q := mulq (qty_received l) (price_unit l).
Definition invoiced_value (l : line) : option Q := mulq (qty_invoiced l) (price_unit l).

(** [TO_CHAR(date_trunc('month', po.date_order),'YYYY-MM')]. *)
Definition month_label (l : line) : string :=
  iso_month (year (po_date_order l)) (month_of (po_date_order l)).

(** [ROUND(100.0 * COALESCE(SUM(num), 0) / NULLIF(SUM(den), 0), 1)]. *)
Definition pct (num den : list (option Q)) : option Q :=
  round_opt (divq (Some (100 * coalesce0 (SUM num) 0)%Q) (nullif0 (SUM den))).

(** The SELECT list of the KPI statement over the rows its WHERE keeps. *)
Definition select (rows : list line) : kpis :=
  mkKpis
    (Z.of_nat (List.length rows))
    (coalesce0 (SUM (map ordered_value rows)) 0)
    (coalesce0 (SUM (map product_qty rows)) 0)
    (coalesce0 (SUM (map received_value rows)) 0)
    (coalesce0 (SUM (map invoiced_value rows)) 0)
    (pct (map received_value rows) (map ordered_value rows))
    (pct (map invoiced_value rows) (map ordered_value rows))
    (Z.of_nat (List.length (nodup string_dec (map month_label rows)))).

(** The handler: [res.json(rows[0])], or the 500 of the [catch]. *)
Definition handler (E : engine) (db : list line) (query : query) : response kpis :=
  match selected E query db with
  | Some rows => Json (select rows)
  | None => ServerError
  end.

End Kpis.

(* ------------------------------------------------------------------ *)
(** ** GET /api/po/lines *)

Module Lines.
Import JsString JsNumber Sql Aggregate Calendar.

(** *** The handler's locals *)

(** [Math.max(1, parseInt(req.query.page || '1'))]. *)
Definition page (query : query) : number :=
  Math_max (Num 1) (parseInt (or_default (Request.page query) "1") 0).

(** [Math.min(200, Math.max(10, parseInt(req.query.pageSize || '50')))]. *)
Definition pageSize (query : query) : number :=
  Math_min (Num 200)
           (Math_max (Num 10) (parseInt (or_default (Request.pageSize query) "50") 0)).

(** [(page - 1) * pageSize]. *)
Definition offset (query : query) : number :=
  mul (sub (page query) (Num 1)) (pageSize query).

(** What a property read on an object literal can yield here. *)
Inductive jsval :=
| Undefined
| Str (s : string)
| Function (name : string)
| ObjectPrototype.

(** The own properties of the [SORTABLE] literal. *)
Definition SORTABLE : list (string * string) :=
  [ ("month", "month");
    ("sku", "sku");
    ("product_name_en", "product_name_en");
    ("category_l1", "category_l1");
    ("category_l2", "category_l2");
    ("category_l3", "category_l3");
    ("ordered_qty", "ordered_qty_po_uom");
    ("received_qty", "received_qty_po_uom");
    ("invoiced_qty", "invoiced_qty_po_uom");
    ("ordered_value", "ordered_value_thb");
    ("avg_price", "avg_price_unit_thb") ].

(** What an object literal inherits: the properties of [Object.prototype].
    [__proto__] reads back the prototype itself. *)
Definition Object_prototype : list (string * jsval) :=
  [ ("constructor", Function "Object");
    ("__defineGetter__", Function "__defineGetter__");
    ("__defineSetter__", Function "__defineSetter__");
    ("hasOwnProperty", Function "hasOwnProperty");
    ("__lookupGetter__", Function "__lookupGetter__");
    ("__lookupSetter__", Function "__lookupSetter__");
    ("isPrototypeOf", Function "isPrototypeOf");
    ("propertyIsEnumerable", Function "propertyIsEnumerable");
    ("toString", Function "toString");
    ("valueOf", Function "valueOf");
    ("__proto__", ObjectPrototype);
    ("toLocaleString", Function "toLocaleString") ].

Fixpoint assoc {A} (k : string) (l : list (string * A)) : option A :=
  match l with
  | [] => None
  | (k', v) :: r => if k =? k' then Some v else assoc k r
  end.

(** [SORTABLE[key]]: own properties first, then the prototype chain; an
    [undefined] key reads the property named ["undefined"]. *)
Definition SORTABLE_get (key : option string) : jsval :=
  let name := match key with Some s => s | None => "undefined" end in
  match assoc name SORTABLE with
  | Some v => Str v
  | None =>
      match assoc name Object_prototype with
      | Some v => v
      | None => Undefined
      end
  end.

Definition js_truthy (v : jsval) : bool :=
  match v with
  | Undefined => false
  | Str s => negb (s =? "")
  | Function _ | ObjectPrototype => true
  end.

(** [SORTABLE[req.query.sortBy] || 'month']. *)
Definition sortCol (query : query) : jsval :=
  let v := SORTABLE_get (sortBy query) in
  if js_truthy v then v else Str "month".

(** [req.query.sortDir === 'asc' ? 'ASC' : 'DESC']. *)
Definition sortDir (query : query) : string :=
  match Request.sortDir query with
  | Some s => if s =? "asc" then "ASC" else "DESC"
  | None => "DESC"
  end.

(** A value interpolated into a template literal. *)
Definition interpolate (v : jsval) : string :=
  match v with
  | Undefined => "undefined"
  | Str s => s
  | Function name => "function " ++ name ++ "() { [native code] }"
  | ObjectPrototype => "[object Object]"
  end.

(** [sortDir === 'DESC' ? 'ASC' : 'DESC']. *)
Definition tieDir (query : query) : string :=
  if sortDir query =? "DESC" then "ASC" else "DESC".

(** The line [ORDER BY ${sortCol} ${sortDir}, sku ${...}] of [dataSql]. *)
Definition order_by (query : query) : string :=
  "ORDER BY " ++ interpolate (sortCol query) ++ " " ++ sortDir query
  ++ ", sku " ++ tieDir query.

(** The line [LIMIT ${pageSize} OFFSET ${offset}] of [dataSql]. *)
Definition limit_offset (query : query) : string :=
  "LIMIT " ++ toString (pageSize query) ++ " OFFSET " ++ toString (offset query).

(** The ORDER BY lines the allow-list stands for: one of the eleven
    output columns, a direction, and [sku] in the other direction. *)
Definition allowed_order_by : list string :=
  flat_map
    (fun col : string =>
       [ ("ORDER BY " ++ col ++ " ASC, sku DESC")%string;
         ("ORDER BY " ++ col ++ " DESC, sku ASC")%string ])
    (map snd SORTABLE).

(** *** The rollup rows *)

Record rollup := mkRollup {
  month : string;
  variant_id : Z;
  sku : option string;
  product_name_en : option string;
  category_path : option string;
  category_l1 : option string;
  category_l2 : option string;
  category_l3 : option string;
  category_depth : option Z;
  category_leaf : option string;
  ordered_qty_po_uom : option Q;
  po_uom : option string;
  received_qty_po_uom : option Q;
  invoiced_qty_po_uom : option Q;
  ordered_value_thb : option Q;
  avg_price_unit_thb : option Q
}.

(** [string_to_array(pc.complete_name,' / ')]; the empty string gives the
    empty array. *)
Definition path_array (l : line) : option (list string) :=
  match pc_complete_name l with
  | Some s => if s =? "" then Some [] else Some (split " / " s)
  | None => None
  end.

(** [array_length(a, 1)]: NULL for the empty array. *)
Definition array_length (a : option (list string)) : option Z :=
  match a with
  | Some (x :: r) => Some (Z.of_nat (List.length (x :: r)))
  | _ => None
  end.

(** [a[array_length(a, 1)]]. *)
Definition array_last (a : option (list string)) : option string :=
  match a with
  | Some (x :: r) => Some (last r x)
  | _ => None
  end.

(** The GROUP BY key of the data statement: the eleven grouped columns of
    the [po_lines] row of a line. *)
Definition data_key : Type :=
  (string * Z * option string * option string * option string
   * option string * option string * option string
   * option Z * option string * option string)%type.

Definition data_key_of (l : line) : data_key :=
  (Kpis.month_label l, pp_id l, sku_of l, pt_name_en l, pc_complete_name l,
   category_level 1 l, category_level 2 l, category_level 3 l,
   array_length (path_array l), array_last (path_array l),
   uom_pol_name_en l).

(** The GROUP BY key of the count statement:
    [pp.id, uom_pol.id, date_trunc('month', po.date_order)]. *)
Definition count_key : Type := (Z * option Z * (Z * Z))%type.

Definition count_key_of (l : line) : count_key :=
  (pp_id l, uom_pol_id l, (year (po_date_order l), month_of (po_date_order l))).

Definition option_eq_dec {A} (dec : forall a b : A, {a = b} + {a <> b})
  (a b : option A) : {a = b} + {a <> b}.
Proof. decide equality. Defined.

Definition data_key_dec (a b : data_key) : {a = b} + {a <> b}.
Proof.
  repeat decide equality; try apply string_dec; try apply Z.eq_dec.
Defined.

Definition count_key_dec (a b : count_key) : {a = b} + {a <> b}.
Proof.
  repeat decide equality; try apply Z.eq_dec.
Defined.

(** GROUP BY: the rows of each key, keys in order of first appearance. *)
Fixpoint add_to_groups {K} (dec : forall a b : K, {a = b} + {a <> b})
  (k : K) (l : line) (gs : list (K * list line)) : list (K * list line) :=
  match gs with
  | [] => [(k, [l])]
  | (k', ls) :: r =>
      if dec k k' then (k', ls ++ [l]) :: r
      else (k', ls) :: add_to_groups dec k l r
  end.

Definition group_by {K} (dec : forall a b : K, {a = b} + {a <> b})
  (key : line -> K) (rows : list line) : list (K * list line) :=
  fold_left (fun gs l => add_to_groups dec (key l) l gs) rows [].

(** One output row of the data statement. *)
Definition rollup_of (g : data_key * list line) : rollup :=
  let '(m, v, s, n, p, l1, l2, l3, d, lf, u, ls) := g in
  mkRollup m v s n p l1 l2 l3 d lf
    (SUM (map product_qty ls))
    u
    (SUM (map qty_received ls))
    (SUM (map qty_invoiced ls))
    (SUM (map Kpis.ordered_value ls))
    (AVG (map price_unit ls)).

(** The grouped rows of the data statement, before ORDER BY. *)
Definition rollups (rows : list line) : list rollup :=
  map rollup_of (group_by data_key_dec data_key_of rows).

(** [SELECT COUNT( * ) FROM (... GROUP BY ...) AS g]. *)
Definition count_groups (rows : list line) : Z :=
  Z.of_nat (List.length (group_by count_key_dec count_key_of rows)).

(** *** ORDER BY *)

Inductive column :=
| ColMonth | ColSku | ColProductName
| ColCategoryL1 | ColCategoryL2 | ColCategoryL3
| ColOrderedQty | ColReceivedQty | ColInvoicedQty
| ColOrderedValue | ColAvgPrice.

(** The output columns ORDER BY can name here; anything else is rejected
    by the server. *)
Definition column_of_name (s : string) : option column :=
  assoc s
    [ ("month", ColMonth); ("sku", ColSku); ("product_name_en", ColProductName);
      ("category_l1", ColCategoryL1); ("category_l2", ColCategoryL2);
      ("category_l3", ColCategoryL3);
      ("ordered_qty_po_uom", ColOrderedQty);
      ("received_qty_po_uom", ColReceivedQty);
      ("invoiced_qty_po_uom", ColInvoicedQty);
      ("ordered_value_thb", ColOrderedValue);
      ("avg_price_unit_thb", ColAvgPrice) ].

Inductive value :=
| Text (s : option string)
| Numeric (x : option Q).

Definition column_value (c : column) (r : rollup) : value :=
  match c with
  | ColMonth => Text (Some (month r))
  | ColSku => Text (sku r)
  | ColProductName => Text (product_name_en r)
  | ColCategoryL1 => Text (category_l1 r)
  | ColCategoryL2 => Text (category_l2 r)
  | ColCategoryL3 => Text (category_l3 r)
  | ColOrderedQty => Numeric (ordered_qty_po_uom r)
  | ColReceivedQty => Numeric (received_qty_po_uom r)
  | ColInvoicedQty => Numeric (invoiced_qty_po_uom r)
  | ColOrderedValue => Numeric (ordered_value_thb r)
  | ColAvgPrice => Numeric (avg_price_unit_thb r)
  end.

Section Ordering.
Variable E : engine.

(** Ascending order, NULLs last. *)
Definition opt_leb {A} (leb : A -> A -> bool) (a b : option A) : bool :=
  match a, b with
  | _, None => true
  | None, Some _ => false
  | Some x, Some y => leb x y
  end.

Definition value_leb (a b : value) : bool :=
  match a, b with
  | Text x, Text y => opt_leb (text_leb E) x y
  | Numeric x, Numeric y => opt_leb Qle_bool x y
  | _, _ => false
  end.

(** [a] sorts no later than [b] in direction [dir] (descending puts NULLs
    first). *)
Definition dir_leb (dir : string) (a b : value) : bool :=
  if dir =? "ASC" then value_leb a b else value_leb b a.

Definition tied (a b : value) : bool := value_leb a b && value_leb b a.

(** [ORDER BY col dir, sku tie]: [a] may come before [b]. *)
Definition before (col : column) (dir tie : string) (a b : rollup) : bool :=
  let va := column_value col a in
  let vb := column_value col b in
  if tied va vb then dir_leb tie (Text (sku a)) (Text (sku b))
  else dir_leb dir va vb.

(** What ORDER BY promises of its output: the same rows, each no later
    than all that follow.  Rows that tie may come in any order. *)
Definition ordered (col : column) (dir tie : string) (rows out : list rollup) : Prop :=
  Permutation rows out /\ StronglySorted (fun a b => before col dir tie a b = true) out.

(** One execution of ORDER BY: insertion into place, which keeps rows
    that tie in their order of arrival. *)
Fixpoint insert_row (leb : rollup -> rollup -> bool) (x : rollup) (l : list rollup)
  : list rollup :=
  match l with
  | [] => [x]
  | y :: r => if leb x y then x :: l else y :: insert_row leb x r
  end.

Definition sort_rows (col : column) (dir tie : string) (rows : list rollup)
  : list rollup :=
  fold_right (insert_row (before col dir tie)) [] rows.

(** An engine whose collation is a total preorder on text. *)
Definition text_ordered : Prop :=
  (forall a b, text_leb E a b = true \/ text_leb E b a = true)
  /\ (forall a b c, text_leb E a b = true -> text_leb E b c = true ->
                    text_leb E a c = true).

End Ordering.

(** Rows in direction [dir] on [col], and rows that tie on [col] in
    direction [tie] on the SKU. *)
Definition sorted_on (E : engine) (col : column) (dir tie : string)
  (l : list rollup) : Prop :=
  StronglySorted
    (fun a b =>
       dir_leb E dir (column_value col a) (column_value col b) = true
       /\ (tied E (column_value col a) (column_value col b) = true ->
           dir_leb E tie (Text (sku a)) (Text (sku b)) = true))
    l.

(** A decision procedure for [StronglySorted] on a boolean order. *)
Fixpoint sortedb {A} (leb : A -> A -> bool) (l : list A) : bool :=
  match l with
  | [] => true
  | x :: r => forallb (leb x) r && sortedb leb r
  end.

(** *** The data statement and the response *)

(** [LIMIT] and [OFFSET] take a non-negative 64-bit integer; the server
    rejects anything else, [NaN] included. *)
Definition row_count (n : number) : option nat :=
  match n with
  | Num z => if ((0 <=? z) && (z <? 2 ^ 63))%Z then Some (Z.to_nat z) else None
  | NaN => None
  end.

(** What the data statement asks for, when the server accepts it. *)
Record plan := mkPlan {
  plan_col : column;
  plan_dir : string;
  plan_tie : string;
  plan_limit : nat;
  plan_offset : nat
}.

Definition plan_of (query : query) : option plan :=
  match column_of_name (interpolate (sortCol query)),
        row_count (pageSize query), row_count (offset query) with
  | Some c, Some lim, Some off =>
      Some (mkPlan c (sortDir query) (tieDir query) lim off)
  | _, _, _ => None
  end.

(** [LIMIT lim OFFSET off]. *)
Definition window {A} (lim off : nat) (l : list A) : list A :=
  firstn lim (skipn off l).

Record body := mkBody {
  total : number;
  res_page : number;
  res_pageSize : number;
  data : list rollup
}.

(** The handler.  Both statements run on the rows the filter selects; the
    data statement's output is any admissible ordering of the rollup rows,
    cut to the window; a rejected statement is the 500 of the [catch]. *)
Definition handler (E : engine) (db : list line) (query : query)
  (r : response body) : Prop :=
  match selected E query db, plan_of query with
  | Some rows, Some p =>
      exists out,
        ordered E (plan_col p) (plan_dir p) (plan_tie p) (rollups rows) out
        /\ r = Json (mkBody (Num (count_groups rows)) (page query) (pageSize query)
                            (window (plan_limit p) (plan_offset p) out))
  | _, _ => r = ServerError
  end.

(** One run of the handler: the response when ORDER BY is executed by
    [sort_rows]. *)
Definition respond (E : engine) (db : list line) (query : query) : response body :=
  match selected E query db, plan_of query with
  | Some rows, Some p =>
      Json (mkBody (Num (count_groups rows)) (page query) (pageSize query)
                   (window (plan_limit p) (plan_offset p)
                           (sort_rows E (plan_col p) (plan_dir p) (plan_tie p)
                                      (rollups rows))))
  | _, _ => ServerError
  end.

End Lines.

(* ------------------------------------------------------------------ *)
(** ** The statements as text *)

Module Statements.
Import JsString JsNumber.

Definition BASE_JOINS : string :=
"
  FROM purchase_order_line pol
  JOIN purchase_order po     ON po.id = pol.order_id
  JOIN product_product pp    ON pp.id = pol.product_id
  JOIN product_template pt   ON pt.id = pp.product_tmpl_id
  LEFT JOIN product_category pc  ON pc.id = pt.categ_id
  LEFT JOIN uom_uom uom_pol      ON uom_pol.id = pol.product_uom
".

(** [countSql] of the lines handler. *)
Definition countSql (where_ : string) : string :=
"
      SELECT COUNT(*) AS total
      FROM (
        SELECT pp.id, uom_pol.id AS uom_id, date_trunc('month', po.date_order)
        " ++ BASE_JOINS ++ "
        WHERE " ++ where_ ++ "
        GROUP BY pp.id, uom_pol.id, date_trunc('month', po.date_order)
      ) AS g
    ".

(** [dataSql] of the lines handler, up to its ORDER BY line. *)
Definition dataSql_select (where_ : string) : string :=
"
      WITH po_lines AS (
        SELECT
          TO_CHAR(date_trunc('month', po.date_order),'YYYY-MM')                AS month,
          pp.id                                                                  AS variant_id,
          COALESCE(pp.default_code, pt.default_code)                            AS sku,
          pt.name->>'en_US'                                                      AS product_name_en,
          pc.complete_name                                                       AS category_path,
          NULLIF(split_part(pc.complete_name,' / ',1),'')                       AS category_l1,
          NULLIF(split_part(pc.complete_name,' / ',2),'')                       AS category_l2,
          NULLIF(split_part(pc.complete_name,' / ',3),'')                       AS category_l3,
          array_length(string_to_array(pc.complete_name,' / '),1)               AS category_depth,
          (string_to_array(pc.complete_name,' / '))[
            array_length(string_to_array(pc.complete_name,' / '),1)
          ]                                                                      AS category_leaf,
          pol.product_qty                                                        AS ordered_qty_po_uom,
          uom_pol.name->>'en_US'                                                 AS po_uom,
          pol.qty_received                                                       AS received_qty_po_uom,
          pol.qty_invoiced                                                       AS invoiced_qty_po_uom,
          (pol.product_qty * pol.price_unit)                                     AS ordered_value_thb,
          pol.price_unit                                                         AS price_unit_thb
        " ++ BASE_JOINS ++ "
        WHERE " ++ where_ ++ "
      )
      SELECT
        month, variant_id, sku, product_name_en,
        category_path, category_l1, category_l2, category_l3, category_depth, category_leaf,
        SUM(ordered_qty_po_uom)   AS ordered_qty_po_uom,
        po_uom,
        SUM(received_qty_po_uom)  AS received_qty_po_uom,
        SUM(invoiced_qty_po_uom)  AS invoiced_qty_po_uom,
        SUM(ordered_value_thb)    AS ordered_value_thb,
        AVG(price_unit_thb)       AS avg_price_unit_thb
      FROM po_lines
      GROUP BY
        month, variant_id, sku, product_name_en,
        category_path, category_l1, category_l2, category_l3, category_depth, category_leaf, po_uom
      ".

(** [dataSql] of the lines handler. *)
Definition dataSql (query : query) : string :=
  dataSql_select (where_ (buildWhere query))
  ++ Lines.order_by query ++ "
      " ++ Lines.limit_offset query ++ "
    ".

(** The statement of the products typeahead. *)
Definition productsSql (where_ : string) (likeIdx : nat) : string :=
"
      SELECT DISTINCT
        pt.id                           AS tmpl_id,
        TRIM(pt.name->>'en_US')         AS product_name,
        pt.default_code                 AS template_sku
      " ++ BASE_JOINS ++ "
      WHERE " ++ where_ ++ "
        AND (
          TRIM(pt.name->>'en_US') ILIKE " ++ placeholder likeIdx ++ "
          OR pt.default_code ILIKE " ++ placeholder likeIdx ++ "
        )
      ORDER BY product_name
      LIMIT 20
    ".

(** The statement of the SKU typeahead. *)
Definition skusSql (where_ tmplCond : string) (likeIdx : nat) : string :=
"
      SELECT DISTINCT
        COALESCE(pp.default_code, pt.default_code)  AS sku,
        TRIM(pt.name->>'en_US')                      AS product_name
      " ++ BASE_JOINS ++ "
      WHERE " ++ where_ ++ "
        " ++ tmplCond ++ "
        AND (
          COALESCE(pp.default_code, pt.default_code) ILIKE " ++ placeholder likeIdx ++ "
          OR TRIM(pt.name->>'en_US') ILIKE " ++ placeholder likeIdx ++ "
        )
      ORDER BY sku
      LIMIT 20
    ".

End Statements.

(* ------------------------------------------------------------------ *)
(** ** GET /api/po/products and GET /api/po/skus

    The typeahead handlers run against the connection pool itself:
    [pool_query sql params] is what [await pool.query(sql, params)] yields,
    the rows or the message of the error it throws.  An outcome is what the
    handler sent together with the statements it executed. *)

Module Typeahead.
Import JsString JsNumber Statements.

Section Pool.
Variable row : Type.
Variable pool_query : string -> list param -> string + list row.

(** [res.json(rows)], or [res.status(500).json({ error: err.message })]. *)
Inductive reply :=
| Rows (rows : list row)
| Failed (message : string).

Record outcome := mkOutcome {
  sent : reply;
  executed : list (string * list param)
}.

(** [const { rows } = await pool.query(sql, params); res.json(rows)] inside
    the [try]. *)
Definition query_and_reply (sql : string) (params : list param) : outcome :=
  match pool_query sql params with
  | inr rows => mkOutcome (Rows rows) [(sql, params)]
  | inl message => mkOutcome (Failed message) [(sql, params)]
  end.

Definition products (query : query) : outcome :=
  let q := trim (or_default (Request.q query) "") in
  if (String.length q <? 1)%nat then mkOutcome (Rows []) []
  else
    let w := buildWhere query in
    let likeIdx := List.length (where_params w) + 1 in
    let params := where_params w ++ [PStr ("%" ++ q ++ "%")] in
    query_and_reply (productsSql (where_ w) likeIdx) params.

(** The optional scope to one template's variants: the parameters and
    [tmplCond] after the [if (req.query.tmplId)] block. *)
Definition tmpl_scope (query : query) (params : list param) : list param * string :=
  match present (tmplId query) with
  | Some s =>
      let id := parseInt s 10 in
      if Number_isFinite id && gt0 id then
        let params := params ++ [PNum id] in
        (params, ("AND pp.product_tmpl_id = " ++ placeholder (List.length params))%string)
      else (params, "")
  | None => (params, "")
  end.

Definition skus (query : query) : outcome :=
  let q := trim (or_default (Request.q query) "") in
  if (String.length q <? 1)%nat then mkOutcome (Rows []) []
  else
    let w := buildWhere query in
    let '(params, tmplCond) := tmpl_scope query (where_params w) in
    let likeIdx := List.length params + 1 in
    let params := params ++ [PStr ("%" ++ q ++ "%")] in
    query_and_reply (skusSql (where_ w) tmplCond likeIdx) params.

End Pool.

Arguments Rows {row} rows.
Arguments Failed {row} message.

End Typeahead.

(* ------------------------------------------------------------------ *)
(** ** A sample engine and sample data

    Used to run the model on concrete inputs: ISO dates, byte order on
    text, and LIKE patterns with [%] and [_] folded over ASCII letters. *)

Module Sample.
Import JsString JsNumber Sql.

Definition cast_iso (s : string) : option date :=
  match map Number_ (split "-" s) with
  | [Num y; Num m; Num d] =>
      if ((1 <=? m) && (m <=? 12) && (1 <=? d) && (d <=? 31))%Z
      then Some (mkDate y m d) else None
  | _ => None
  end.

Definition lower (c : ascii) : ascii :=
  let n := nat_of_ascii c in
  if ((65 <=? n) && (n <=? 90))%nat then ascii_of_nat (n + 32) else c.

Fixpoint like (pattern s : string) : bool :=
  match pattern with
  | EmptyString => s =? ""
  | String "%" p =>
      (fix any (t : string) : bool :=
         like p t || match t with
                     | String _ t' => any t'
                     | EmptyString => false
                     end) s
  | String "_" p =>
      match s with
      | String _ s' => like p s'
      | EmptyString => false
      end
  | String c p =>
      match s with
      | String d s' => Ascii.eqb (lower c) (lower d) && like p s'
      | EmptyString => false
      end
  end.

Definition engine : Sql.engine :=
  mkEngine cast_iso (fun s pattern => like pattern s) String.leb.


(** The same for a variant with a code of its own. *)
Definition part (v : Z) (code : string) : line :=
  mkLine (Some "purchase") (mkDate 2025 1 15) (Some "Raw / Steel")
         v (Some code) (Some "BOLT") (Some "Bolt") 1 (Some 1%Z) (Some "Units")
         (Some 1%Q) (Some 1%Q) (Some 1%Q) (Some 0%Q).

Definition two_parts : list line := [part 1 "A-1"; part 2 "B-2"].

(** A line filed under a top-level category only. *)
Definition uncut : line :=
  mkLine (Some "purchase") (mkDate 2025 2 3) (Some "Raw")
         20 (Some "ORE") None (Some "Ore") 2 (Some 1%Z) (Some "kg")
         (Some 5%Q) (Some 2%Q) (Some 5%Q) (Some 5%Q).

(** An order line of [qty] units at [price], nothing received yet. *)
Definition order (d : date) (qty price : Z) : line :=
  mkLine (Some "purchase") d (Some "Raw / Steel")
         1 (Some "A-1") (Some "BOLT") (Some "Bolt") 1 (Some 1%Z) (Some "Units")
         (Some (inject_Z qty)) (Some (inject_Z price)) (Some 0%Q) (Some 0%Q).





(** The only page of the two parts. *)
Definition parts_page1 : Lines.body :=
  Lines.mkBody (Num 2) (Num 1) (Num 10) (Lines.rollups two_parts).


(** The same under [sortBy=sku&sortDir=asc], in pages of fifty. *)
Definition parts_by_sku : Lines.body :=
  Lines.mkBody (Num 2) (Num 1) (Num 50) (Lines.rollups two_parts).

End Sample.

(* ------------------------------------------------------------------ *)
(** ** What GROUP BY and SUM keep *)

Module Grouping.
Import Sql Aggregate.

(** Groups with distinct keys, each one non-empty and holding rows of its
    key only. *)
Definition well_grouped {K : Type} (key : line -> K) (gs : list (K * list line)) : Prop :=
  NoDup (map fst gs)
  /\ Forall (fun g => snd g <> [] /\ Forall (fun l => key l = fst g) (snd g)) gs.

(** The sum of nullable numerics, NULL counting as zero. *)
Definition sumq (l : list (option Q)) : Q :=
  fold_right Qplus 0%Q (map (fun v => coalesce0 v 0%Q) l).

End Grouping.

(* ------------------------------------------------------------------ *)
(** ** GET /api/po/by-category *)

Module ByCategory.
Import JsString JsNumber Sql Aggregate Statements.

(** [req.query.catL2 ? 3 : req.query.catL1 ? 2 : 1]. *)
Definition level (query : query) : nat :=
  match present (catL2 query) with
  | Some _ => 3
  | None =>
      match present (catL1 query) with
      | Some _ => 2
      | None => 1
      end
  end.

Definition catExpr (level : nat) : string :=
  "COALESCE(NULLIF(split_part(pc.complete_name,' / '," ++ nat_toString level
  ++ "),''),'Uncategorized')".

(** The statement of the handler. *)
Definition sql (query : query) : string :=
"
      SELECT
        " ++ catExpr (level query) ++ "                            AS category,
        SUM(pol.product_qty * pol.price_unit) AS total_value,
        COUNT(*)                              AS line_count
      " ++ BASE_JOINS ++ "
      WHERE " ++ where_ (buildWhere query) ++ "
      GROUP BY 1
      ORDER BY total_value DESC
    ".

Record category_row := mkRow {
  category : option string;
  total_value : option Q;
  line_count : Z
}.

(** The value of [catExpr] on a row. *)
Definition category_of (level : nat) (l : line) : option string :=
  coalesce (category_level level l) (Some "Uncategorized").

(** One output row: the group's key, [SUM(pol.product_qty *
    pol.price_unit)] and [COUNT( * )]. *)
Definition row_of (g : option string * list line) : category_row :=
  mkRow (fst g)
        (SUM (map Kpis.ordered_value (snd g)))
        (Z.of_nat (List.length (snd g))).

(** The grouped rows, before ORDER BY. *)
Definition groups (level : nat) (rows : list line) : list category_row :=
  map row_of
      (Lines.group_by (Lines.option_eq_dec string_dec) (category_of level) rows).

(** [ORDER BY total_value DESC]: [a] may come before [b]; NULLs come
    first. *)
Definition value_desc (a b : category_row) : bool :=
  Lines.opt_leb Qle_bool (total_value b) (total_value a).

(** The handler: any admissible ordering of the grouped rows, or the 500
    of the [catch] when the statement is rejected. *)
Definition handler (E : engine) (db : list line) (query : query)
  (r : response (list category_row)) : Prop :=
  match selected E query db with
  | Some rows =>
      exists out,
        Permutation (groups (level query) rows) out
        /\ StronglySorted (fun a b => value_desc a b = true) out
        /\ r = Json out
  | None => r = ServerError
  end.

(** The line counts of a response, added up, and its values, NULL
    counting as zero. *)
Definition lines_of (out : list category_row) : Z :=
  fold_right Z.add 0%Z (map line_count out).

Definition value_of (out : list category_row) : Q :=
  fold_right Qplus 0%Q (map (fun r => coalesce0 (total_value r) 0%Q) out).

End ByCategory.

(* ------------------------------------------------------------------ *)
(** ** GET /api/po/monthly *)

Module Monthly.
Import JsString JsNumber Sql Aggregate Statements.

(** The statement of the handler. *)
Definition sql (query : query) : string :=
"
      SELECT
        TO_CHAR(date_trunc('month', po.date_order),'YYYY-MM')                     AS month,
        COALESCE(NULLIF(split_part(pc.complete_name,' / ',1),''), 'Uncategorized') AS category_l1,
        SUM(pol.product_qty * pol.price_unit)                                      AS ordered_value_thb,
        COUNT(*)                                                                    AS line_count
      " ++ BASE_JOINS ++ "
      WHERE " ++ where_ (buildWhere query) ++ "
      GROUP BY 1, 2
      ORDER BY 1, 2
    ".

Record monthly_row := mkRow {
  month : string;
  category_l1 : option string;
  ordered_value_thb : option Q;
  line_count : Z
}.

(** The GROUP BY key: the month label and the top-level category. *)
Definition key : Type := (string * option string)%type.

Definition key_of (l : line) : key :=
  (Kpis.month_label l, ByCategory.category_of 1 l).

Definition key_dec (a b : key) : {a = b} + {a <> b}.
Proof. decide equality; [apply (Lines.option_eq_dec string_dec)|apply string_dec]. Defined.

Definition row_of (g : key * list line) : monthly_row :=
  mkRow (fst (fst g)) (snd (fst g))
        (SUM (map Kpis.ordered_value (snd g)))
        (Z.of_nat (List.length (snd g))).

(** The grouped rows, before ORDER BY. *)
Definition groups (rows : list line) : list monthly_row :=
  map row_of (Lines.group_by key_dec key_of rows).

(** [ORDER BY 1, 2]: ascending on the month, then on the category, in the
    collation's order (NULLs last). *)
Definition key_leb (E : engine) (a b : monthly_row) : bool :=
  if text_leb E (month a) (month b) && text_leb E (month b) (month a)
  then Lines.opt_leb (text_leb E) (category_l1 a) (category_l1 b)
  else text_leb E (month a) (month b).

Definition handler (E : engine) (db : list line) (query : query)
  (r : response (list monthly_row)) : Prop :=
  match selected E query db with
  | Some rows =>
      exists out,
        Permutation (groups rows) out
        /\ StronglySorted (fun a b => key_leb E a b = true) out
        /\ r = Json out
  | None => r = ServerError
  end.

Definition lines_of (out : list monthly_row) : Z :=
  fold_right Z.add 0%Z (map line_count out).

Definition value_of (out : list monthly_row) : Q :=
  fold_right Qplus 0%Q (map (fun r => coalesce0 (ordered_value_thb r) 0%Q) out).

(** The distinct month labels of a response. *)
Definition months_of (out : list monthly_row) : list string :=
  nodup string_dec (map month out).

End Monthly.

(* ------------------------------------------------------------------ *)
(** ** GET /api/po/filters

    The handler runs two fixed statements without parameters and shapes
    their rows in JavaScript.  The model starts from the rows: the month
    labels of the first statement and the [(l1, l2, l3)] rows of the
    second, NULL as [None]. *)

Module FilterOptions.
Import JsString.

Record cat_row := mkCat {
  l1 : option string;
  l2 : option string;
  l3 : option string
}.

(** [xs.filter(Boolean)] on nullable strings: NULL and [''] go. *)
Definition truthy_values (xs : list (option string)) : list string :=
  flat_map (fun v => match present v with Some s => [s] | None => [] end) xs.

(** [[...new Set(xs)]]: the values in order of first occurrence. *)
Fixpoint set_of (xs : list string) : list string :=
  match xs with
  | [] => []
  | x :: r => x :: remove string_dec x (set_of r)
  end.

(** [xs.sort()] on strings: ascending by code units. *)
Fixpoint insert (x : string) (l : list string) : list string :=
  match l with
  | [] => [x]
  | y :: r => if String.leb x y then x :: l else y :: insert x r
  end.

Definition sort (xs : list string) : list string := fold_right insert [] xs.

(** [[...new Set(catsRes.rows.map((r) => r.l1).filter(Boolean))].sort()]. *)
Definition l1s (rows : list cat_row) : list string :=
  sort (set_of (truthy_values (map l1 rows))).

(** The own properties of an object built by assignment, in insertion
    order. *)
Definition object (A : Type) : Type := list (string * A).

(** [hierarchy]: [{ l1: { l2: [l3, ...] } }]. *)
Definition inner : Type := object (list string).
Definition hierarchy : Type := object inner.

(** A name every object literal inherits from [Object.prototype]; reading
    it on an object without an own property of that name yields a function
    or the prototype itself, which are truthy. *)
Definition inherited (k : string) : bool :=
  match Lines.assoc k Lines.Object_prototype with
  | Some _ => true
  | None => false
  end.

(** [o[k] = v] for a name that is an own property or not inherited. *)
Fixpoint set_prop {A} (k : string) (v : A) (o : object A) : object A :=
  match o with
  | [] => [(k, v)]
  | (k', v') :: r =>
      if k =? k' then (k', v) :: r else (k', v') :: set_prop k v r
  end.

(** The body of [if (row.l2) { ... }] on the object [o = hierarchy[row.l1]];
    [None] is the TypeError of calling [push] on an inherited function or
    on the prototype. *)
Definition inner_step (o : inner) (row : cat_row) : option inner :=
  match present (l2 row) with
  | None => Some o
  | Some b =>
      match Lines.assoc b o with
      | Some arr =>
          match present (l3 row) with
          | Some c => Some (set_prop b (arr ++ [c]) o)
          | None => Some o
          end
      | None =>
          if inherited b then
            match present (l3 row) with
            | Some _ => None
            | None => Some o
            end
          else
            match present (l3 row) with
            | Some c => Some (set_prop b [c] o)
            | None => Some (set_prop b [] o)
            end
      end
  end.

(** Where the loop stands: the object built so far, a TypeError thrown,
    or a built-in object reached.  [hierarchy[row.l1]] for an inherited
    name is a built-in function or [Object.prototype]; with a truthy
    [row.l2] the loop goes on to read, and possibly assign, a property of
    that built-in, which is shared by the whole process.  The model stops
    there. *)
Inductive progress :=
| Built (h : hierarchy)
| Threw
| Foreign.

(** One iteration of [for (const row of catsRes.rows)]. *)
Definition step (acc : progress) (row : cat_row) : progress :=
  match acc with
  | Built h =>
      match present (l1 row) with
      | None => Built h
      | Some a =>
          match Lines.assoc a h with
          | Some o =>
              match inner_step o row with
              | Some o' => Built (set_prop a o' h)
              | None => Threw
              end
          | None =>
              if inherited a then
                match present (l2 row) with
                | Some _ => Foreign
                | None => Built h
                end
              else
                match inner_step [] row with
                | Some o' => Built (set_prop a o' h)
                | None => Threw
                end
          end
      end
  | Threw => Threw
  | Foreign => Foreign
  end.

Definition run (rows : list cat_row) : progress :=
  fold_left step rows (Built []).

Record options := mkOptions {
  months : list string;
  opt_l1s : list string;
  opt_hierarchy : hierarchy
}.

(** What the handler does with the rows of its two statements:
    [res.json({ months, l1s, hierarchy })], the 500 of the [catch], or a
    run that reached a built-in object. *)
Inductive reply :=
| Sent (o : options)
| ServerError500
| Unmodelled.

Definition handler (month_rows : list string) (rows : list cat_row) : reply :=
  match run rows with
  | Built h => Sent (mkOptions month_rows (l1s rows) h)
  | Threw => ServerError500
  | Foreign => Unmodelled
  end.

(** [hierarchy[a]] is an own property. *)
Definition own {A} (k : string) (o : object A) : bool :=
  match Lines.assoc k o with
  | Some _ => true
  | None => false
  end.

(** [hierarchy[a][b]] is an own property of an own property. *)
Definition own2 (h : hierarchy) (a b : string) : bool :=
  match Lines.assoc a h with
  | Some o => own b o
  | None => false
  end.

(** [hierarchy[a][b]] when both are own properties, the empty list
    otherwise. *)
Definition children (h : hierarchy) (a b : string) : list string :=
  match Lines.assoc a h with
  | Some o =>
      match Lines.assoc b o with
      | Some l => l
      | None => []
      end
  | None => []
  end.

(** The rows under category [a], under [a / b], and the third-level names
    of the latter in row order. *)
Definition under1 (a : string) (row : cat_row) : bool :=
  match present (l1 row) with
  | Some x => x =? a
  | None => false
  end.

Definition under2 (a b : string) (row : cat_row) : bool :=
  under1 a row
  && match present (l2 row) with
     | Some y => y =? b
     | None => false
     end.

Definition l3s_of (rows : list cat_row) (a b : string) : list string :=
  truthy_values (map l3 (filter (under2 a b) rows)).

(** What the loop keeps true of the object [o = hierarchy[a]] after the
    rows [rows]: its own properties are the second-level names under [a]
    that are not inherited names, each with the third-level names of its
    rows in row order. *)
Definition inner_faithful (rows : list cat_row) (a : string) (o : inner) : Prop :=
  forall b,
    match Lines.assoc b o with
    | Some l =>
        inherited b = false /\ existsb (under2 a b) rows = true
        /\ l = l3s_of rows a b
    | None =>
        (inherited b = true \/ existsb (under2 a b) rows = false)
        /\ l3s_of rows a b = []
    end.

(** The same of [hierarchy] itself. *)
Definition faithful (rows : list cat_row) (h : hierarchy) : Prop :=
  forall a,
    match Lines.assoc a h with
    | Some o =>
        inherited a = false /\ existsb (under1 a) rows = true
        /\ inner_faithful rows a o
    | None =>
        (inherited a = true \/ existsb (under1 a) rows = false)
        /\ forall b, l3s_of rows a b = []
    end.

End FilterOptions.

(* ------------------------------------------------------------------ *)
(** ** Sessions and the guard in front of [/api/po]

    One browser session against the server: the login and logout routes
    and [requireAuth].  The session's state is its [authenticated] flag,
    unset in a fresh session and lost when the session is destroyed or
    expires. *)

Module Auth.

(** A field of [req.body] as the body parsers leave it: missing, a string,
    or some other value (the array of a repeated form field, a value of a
    JSON body that is not a string). *)
Inductive field :=
| Missing
| Text (s : string)
| Other.

(** The variables of [process.env] the routes read; [None] is unset. *)
Record env := mkEnv {
  NODE_ENV : option string;
  DASHBOARD_USER : option string;
  DASHBOARD_PASS : option string
}.

(** [req.body.f === process.env.X]. *)
Definition strict_eq (f : field) (v : option string) : bool :=
  match f, v with
  | Missing, None => true
  | Text s, Some t => s =? t
  | _, _ => false
  end.

(** The test of the login route. *)
Definition credentials_match (e : env) (username password : field) : bool :=
  strict_eq username (DASHBOARD_USER e) && strict_eq password (DASHBOARD_PASS e).

Inductive request :=
| Login (username password : field)   (* POST /api/auth/login *)
| Logout                              (* POST /api/auth/logout *)
| Expire                              (* the session cookie runs out *)
| Guarded (originalUrl : string).     (* a request to a guarded route *)

Inductive outcome :=
| Redirect (location : string)
| Unauthorised                        (* 401 { error: 'Unauthorised' } *)
| Next                                (* the route behind the guard runs *)
| Nothing.                            (* no request was made *)

Definition production (e : env) : bool :=
  match NODE_ENV e with
  | Some s => s =? "production"
  | None => false
  end.

(** [requireAuth]. *)
Definition requireAuth (e : env) (authenticated : bool) (originalUrl : string)
  : outcome :=
  if negb (production e) then Next
  else if authenticated then Next
  else if String.prefix "/api/" originalUrl then Unauthorised
  else Redirect "/login".

(** One request: the session's flag after it and what the client gets. *)
Definition handle (e : env) (authenticated : bool) (r : request) : bool * outcome :=
  match r with
  | Login username password =>
      if credentials_match e username password
      then (true, Redirect "/")
      else (authenticated, Redirect "/login?error=1")
  | Logout => (false, Redirect "/login")
  | Expire => (false, Nothing)
  | Guarded originalUrl => (authenticated, requireAuth e authenticated originalUrl)
  end.

(** The flag after a sequence of requests in a fresh session. *)
Definition session_after (e : env) (trace : list request) : bool :=
  fold_left (fun a r => fst (handle e a r)) trace false.

(** A request that ends what a login started. *)
Definition ends_session (r : request) : bool :=
  match r with
  | Logout | Expire => true
  | _ => false
  end.

(** A login with matching credentials. *)
Definition opens_session (e : env) (r : request) : bool :=
  match r with
  | Login username password => credentials_match e username password
  | _ => false
  end.

(** The trace holds a matching login with nothing after it that ends the
    session. *)
Definition logged_in (e : env) (trace : list request) : Prop :=
  exists before r after,
    trace = before ++ r :: after
    /\ opens_session e r = true
    /\ forallb (fun r => negb (ends_session r)) after = true.

End Auth.

(* ------------------------------------------------------------------ *)
(** ** The browser side: [toQS] and the state of [App]

    [toQS] fills a [URLSearchParams]; [fetch] sends its serialisation and
    Express parses it back, so that each field of [req.query] is the value
    of the entry of that name ([received]).  None of the names used has a
    bracket, and no name is entered twice. *)

Module Client.
Import JsString JsNumber.

Record Filters := mkFilters {
  dateFrom : string;
  dateTo : string;
  catL1 : string;
  catL2 : string;
  catL3 : string;
  search : string;
  skus : list string
}.

Definition DEFAULT_FILTERS : Filters :=
  mkFilters "2025-01" "" "" "" "" "" [].

(** The entries of a [URLSearchParams], in order. *)
Definition URLSearchParams : Type := list (string * string).

(** [p.set(name, value)]: the first entry of that name takes the value and
    the others go; without one, the entry is appended. *)
Fixpoint set (name value : string) (p : URLSearchParams) : URLSearchParams :=
  match p with
  | [] => [(name, value)]
  | (n, v) :: r =>
      if name =? n
      then (n, value) :: filter (fun e => negb (name =? fst e)) r
      else (n, v) :: set name value r
  end.

(** A value of the [extra] record: a string or a number. *)
Inductive extra_value :=
| EStr (s : string)
| ENum (n : number).

(** [String(v)]. *)
Definition String_ (v : extra_value) : string :=
  match v with
  | EStr s => s
  | ENum n => toString n
  end.

(** [Object.entries(scalar)] after [const { skus, ...scalar } = filters]. *)
Definition scalar (filters : Filters) : list (string * string) :=
  [ ("dateFrom", dateFrom filters); ("dateTo", dateTo filters);
    ("catL1", catL1 filters); ("catL2", catL2 filters); ("catL3", catL3 filters);
    ("search", search filters) ].

(** [toQS], up to the final [p.toString()]. *)
Definition toQS (filters : Filters) (extra : list (string * extra_value))
  : URLSearchParams :=
  let p :=
    fold_left (fun p kv => if snd kv =? "" then p else set (fst kv) (snd kv) p)
              (scalar filters) [] in
  let p :=
    if (0 <? List.length (skus filters))%nat
    then set "skus" (join "," (skus filters)) p
    else p in
  fold_left (fun p kv =>
               match snd kv with
               | EStr "" => p
               | v => set (fst kv) (String_ v) p
               end)
            extra p.

(** [req.query] for a request whose query string is the serialisation of
    [p]. *)
Definition received (p : URLSearchParams) : query :=
  mkQuery (Lines.assoc "dateFrom" p) (Lines.assoc "dateTo" p)
          (Lines.assoc "catL1" p) (Lines.assoc "catL2" p) (Lines.assoc "catL3" p)
          (Lines.assoc "search" p) (Lines.assoc "skus" p)
          (Lines.assoc "productTmplIds" p)
          (Lines.assoc "q" p) (Lines.assoc "tmplId" p)
          (Lines.assoc "page" p) (Lines.assoc "pageSize" p)
          (Lines.assoc "sortBy" p) (Lines.assoc "sortDir" p).

(** The names [toQS] enters for the filters. *)
Definition filter_names : list string :=
  ["dateFrom"; "dateTo"; "catL1"; "catL2"; "catL3"; "search"; "skus"].

(** A SKU that survives the trip through the comma-separated [skus]
    field: not empty, without a comma, and without white space at either
    end. *)
Fixpoint no_comma (s : string) : bool :=
  match s with
  | EmptyString => true
  | String c s' => negb (Ascii.eqb "," c) && no_comma s'
  end.

Definition clean_sku (s : string) : bool :=
  negb (s =? "") && no_comma s && (trim s =? s).

(** *** The sort and page state of [App] *)

Inductive SortKey :=
| K_month | K_sku | K_product_name_en | K_category_l1 | K_category_l2
| K_ordered_qty | K_received_qty | K_ordered_value | K_avg_price.

Inductive SortDir :=
| Asc
| Desc.

Definition SortKey_text (k : SortKey) : string :=
  match k with
  | K_month => "month"
  | K_sku => "sku"
  | K_product_name_en => "product_name_en"
  | K_category_l1 => "category_l1"
  | K_category_l2 => "category_l2"
  | K_ordered_qty => "ordered_qty"
  | K_received_qty => "received_qty"
  | K_ordered_value => "ordered_value"
  | K_avg_price => "avg_price"
  end.

Definition SortDir_text (d : SortDir) : string :=
  match d with
  | Asc => "asc"
  | Desc => "desc"
  end.

Definition SortKey_eqb (a b : SortKey) : bool :=
  SortKey_text a =? SortKey_text b.

(** The state [fetchAll] depends on. *)
Record App := mkApp {
  filters : Filters;
  page : number;
  sortBy : SortKey;
  sortDir : SortDir
}.

(** [const [pageSize] = useState(50)]. *)
Definition pageSize : number := Num 50.

Definition initial : App := mkApp DEFAULT_FILTERS (Num 1) K_month Desc.

(** The two query strings of [fetchAll]. *)
Definition qs (s : App) : URLSearchParams := toQS (filters s) [].

Definition tableQs (s : App) : URLSearchParams :=
  toQS (filters s)
       [ ("page", ENum (page s)); ("pageSize", ENum pageSize);
         ("sortBy", EStr (SortKey_text (sortBy s)));
         ("sortDir", EStr (SortDir_text (sortDir s))) ].

Definition handleFiltersChange (f : Filters) (s : App) : App :=
  mkApp f (Num 1) (sortBy s) (sortDir s).

Definition handleSort (col : SortKey) (s : App) : App :=
  if SortKey_eqb col (sortBy s)
  then mkApp (filters s) (Num 1) (sortBy s)
             (match sortDir s with Asc => Desc | Desc => Asc end)
  else mkApp (filters s) (Num 1) col Desc.

(** [onPageChange={setPage}]. *)
Definition setPage (p : number) (s : App) : App :=
  mkApp (filters s) p (sortBy s) (sortDir s).

(** The [onDrillDown] handed to the category chart. *)
Definition onDrillDown (cat : string) (level : nat) (s : App) : App :=
  let f := filters s in
  if (level =? 1)%nat then
    handleFiltersChange
      (mkFilters (dateFrom f) (dateTo f) cat "" "" (search f) (skus f)) s
  else if (level =? 2)%nat then
    handleFiltersChange
      (mkFilters (dateFrom f) (dateTo f) (catL1 f) cat "" (search f) (skus f)) s
  else
    handleFiltersChange
      (mkFilters (dateFrom f) (dateTo f) (catL1 f) (catL2 f) cat (search f) (skus f)) s.

(** *** [CategoryChart] *)

(** [activeL2 ? 3 : activeL1 ? 2 : 1]. *)
Definition level (activeL1 activeL2 : string) : nat :=
  if negb (activeL2 =? "") then 3
  else if negb (activeL1 =? "") then 2
  else 1.

(** [level === 1 ? 1 : level === 2 ? 2 : 3]. *)
Definition nextLevel (level : nat) : nat :=
  if (level =? 1)%nat then 1 else if (level =? 2)%nat then 2 else 3.

(** The level the chart shows in state [s]. *)
Definition shown_level (s : App) : nat :=
  level (catL1 (filters s)) (catL2 (filters s)).

(** A click on the bar of category [fullName]. *)
Definition bar_click (fullName : string) (s : App) : App :=
  if (shown_level s <? 3)%nat
  then onDrillDown fullName (nextLevel (shown_level s)) s
  else s.

(** *** The pager of [DataTable] *)






(** *** The ticks of [PriceTrendChart] *)

(** [xs.filter((_, i) => i % step === 0)]. *)
Fixpoint every_nth {A} (step i : nat) (xs : list A) : list A :=
  match xs with
  | [] => []
  | x :: r =>
      if (i mod step =? 0)%nat then x :: every_nth step (S i) r
      else every_nth step (S i) r
  end.

(** [Math.ceil(n / max)] on array lengths. *)
Definition ceil_div (n max : nat) : nat := (n + max - 1) / max.

(** [xTicks(data, max)] for a positive [max], on the dates of the rows. *)
Definition xTicks {A} (data : list A) (max : nat) : list A :=
  if (List.length data <=? max)%nat then data
  else every_nth (ceil_div (List.length data) max) 0 data.

End Client.

(* ------------------------------------------------------------------ *)
(** ** What the text of the predicate depends on *)

Module Shape.

(** Which guards of [buildWhere] pass, and how many values its two list
    fields keep. *)
Record shape := mkShape {
  has_dateTo : bool;
  has_catL1 : bool;
  has_catL2 : bool;
  has_catL3 : bool;
  has_search : bool;
  sku_count : nat;
  tmpl_count : nat
}.

(** The guard [if (query.f)] passes. *)
Definition is_present (v : option string) : bool :=
  match present v with
  | Some _ => true
  | None => false
  end.

Definition shape_of (query : query) : shape :=
  mkShape (is_present (dateTo query))
          (is_present (catL1 query)) (is_present (catL2 query))
          (is_present (catL3 query)) (is_present (search query))
          (match present (skus query) with
           | Some s => List.length (skuList s)
           | None => 0
           end)
          (match present (productTmplIds query) with
           | Some s => List.length (tmplIds s)
           | None => 0
           end).

(** Two clauses that push as many parameters and the same condition. *)
Definition alike (a b : Predicate.clause) : Prop :=
  List.length (Predicate.cl_params a) = List.length (Predicate.cl_params b)
  /\ forall base, Predicate.cl_cond a base = Predicate.cl_cond b base.

End Shape.

(* ------------------------------------------------------------------ *)
(** ** GET /api/po/price-by-quarter *)

Module PriceByQuarter.
Import JsString JsNumber Sql Aggregate Statements.

(** The statement of the handler. *)
Definition sql (query : query) : string :=
"
      SELECT
        EXTRACT(YEAR    FROM po.date_order)::int  AS year,
        EXTRACT(QUARTER FROM po.date_order)::int  AS quarter,
        ROUND(
          (SUM(pol.product_qty * pol.price_unit) /
           NULLIF(SUM(pol.product_qty), 0))::numeric, 4
        ) AS price
      " ++ BASE_JOINS ++ "
      WHERE " ++ where_ (buildWhere query) ++ "
        AND pol.product_qty > 0
      GROUP BY 1, 2
      ORDER BY 1, 2
    ".

Record quarter_row := mkRow {
  year_no : Z;
  quarter : Z;
  price : option Q
}.

(** [pol.product_qty > 0]. *)
Definition positive_qty (l : line) : sql_bool :=
  option_map (fun x => negb (Qle_bool x 0)) (product_qty l).

(** The rows the added condition keeps. *)
Definition kept (rows : list line) : list line :=
  filter (fun l => is_true (positive_qty l)) rows.

(** [EXTRACT(QUARTER FROM d)]. *)
Definition quarter_of (d : date) : Z := ((month_of d - 1) / 3 + 1)%Z.

(** The GROUP BY key: year and quarter. *)
Definition key : Type := (Z * Z)%type.

Definition key_of (l : line) : key :=
  (year (po_date_order l), quarter_of (po_date_order l)).

Definition key_dec (a b : key) : {a = b} + {a <> b}.
Proof. decide equality; apply Z.eq_dec. Defined.

(** [ROUND(x, 4)] on numeric. *)
Definition round4 (x : Q) : Q :=
  (inject_Z (round_half_away (x * 10000)) / 10000)%Q.

(** [ROUND((SUM(qty * price) / NULLIF(SUM(qty), 0))::numeric, 4)]. *)
Definition price_of (ls : list line) : option Q :=
  option_map round4
    (divq (SUM (map Kpis.ordered_value ls)) (nullif0 (SUM (map product_qty ls)))).

Definition row_of (g : key * list line) : quarter_row :=
  mkRow (fst (fst g)) (snd (fst g)) (price_of (snd g)).

(** The grouped rows, before ORDER BY. *)
Definition groups (rows : list line) : list quarter_row :=
  map row_of (Lines.group_by key_dec key_of (kept rows)).

(** [ORDER BY 1, 2]: ascending on the year, then on the quarter. *)
Definition key_leb (a b : quarter_row) : bool :=
  ((year_no a <? year_no b)
   || ((year_no a =? year_no b) && (quarter a <=? quarter b)))%Z.

Definition handler (E : engine) (db : list line) (query : query)
  (r : response (list quarter_row)) : Prop :=
  match selected E query db with
  | Some rows =>
      exists out,
        Permutation (groups rows) out
        /\ StronglySorted (fun a b => key_leb a b = true) out
        /\ r = Json out
  | None => r = ServerError
  end.

(** Strictly earlier in (year, quarter). *)
Definition key_ltb (a b : quarter_row) : bool :=
  ((year_no a <? year_no b)
   || ((year_no a =? year_no b) && (quarter a <? quarter b)))%Z.

(** A line with a positive quantity and a unit price between [lo] and
    [hi]. *)
Definition priced (lo hi : Q) (l : line) : Prop :=
  exists q x, product_qty l = Some q /\ (0 < q)%Q
              /\ price_unit l = Some x /\ (lo <= x <= hi)%Q.

End PriceByQuarter.

(* ------------------------------------------------------------------ *)
(** ** More sample requests *)

Module Samples.

(** The typeahead text [ bo ] scoped to template [7px]. *)
Definition scoped_to_seven : query :=
  mkQuery None None None None None None None None
          (Some " bo ") (Some "7px") None None None None.

(** [catL1=Raw]. *)
Definition raw_only : query :=
  mkQuery None None (Some "Raw") None None None None None
          None None None None None None.

(** One line filed under [Raw] itself and two under [Raw / Steel]. *)
Definition three_lines : list Sql.line :=
  [Sample.uncut; Sample.part 1 "A-1"; Sample.part 2 "B-2"].

(** Category rows: two types of steel, a top-level category of its own,
    and a row without category. *)
Definition steel_rows : list FilterOptions.cat_row :=
  [ FilterOptions.mkCat (Some "Raw") (Some "Steel") (Some "Rod");
    FilterOptions.mkCat (Some "Raw") (Some "Steel") (Some "Bar");
    FilterOptions.mkCat (Some "Office") None None;
    FilterOptions.mkCat None None None ].

(** A second-level category named like a member of [Object.prototype]. *)
Definition constructor_row : FilterOptions.cat_row :=
  FilterOptions.mkCat (Some "Tools") (Some "constructor") (Some "Kit").

(** A production environment with credentials set. *)
Definition production_env : Auth.env :=
  Auth.mkEnv (Some "production") (Some "admin") (Some "secret").

(** A session that asks before logging in, then logs in. *)
Definition login_trace : list Auth.request :=
  [ Auth.Guarded "/api/po/kpis";
    Auth.Login (Auth.Text "admin") (Auth.Text "secret");
    Auth.Login (Auth.Text "admin") (Auth.Text "guess") ].

(** The browser's state after picking two SKUs under [Raw], on page 3
    of the table sorted by ordered value, ascending. *)
Definition browsing : Client.App :=
  Client.mkApp (Client.mkFilters "2025-01" "" "Raw" "" "" "" ["A-1"; "B-2"])
               (Num 3) Client.K_ordered_value Client.Asc.

(** Orders of December 2024 to April 2025. *)
Definition five_months : list Sql.line :=
  [ Sample.order (Sql.mkDate 2024 12 31) 1 1;
    Sample.order (Sql.mkDate 2025 1 1) 10 5;
    Sample.order (Sql.mkDate 2025 2 10) 20 5;
    Sample.order (Sql.mkDate 2025 3 31) 2 3;
    Sample.order (Sql.mkDate 2025 4 1) 4 4 ].

(** The three of them in the first quarter of 2025. *)
Definition first_quarter_lines : list Sql.line :=
  [ Sample.order (Sql.mkDate 2025 1 1) 10 5;
    Sample.order (Sql.mkDate 2025 2 10) 20 5;
    Sample.order (Sql.mkDate 2025 3 31) 2 3 ].

(** Two requests of the same shape with different values. *)
Definition honest : query :=
  mkQuery None None (Some "Raw") None None (Some "m8") (Some "A-1,B-2") None
          None None None None None None.

Definition hostile : query :=
  mkQuery None None (Some "x' OR '1'='1") None None (Some "'; DROP TABLE purchase_order; --")
          (Some "$1,$2") None
          None None None None None None.

(** The price rows of the five months: one per quarter. *)
Definition five_months_prices : list PriceByQuarter.quarter_row :=
  PriceByQuarter.groups (skipn 1 five_months).

End Samples.

(* ================================================================== *)
(** * Properties *)

Import JsString JsNumber Calendar Sql Aggregate.

(** ** The model on concrete inputs *)

Example split_dash : JsString.split "-" "2025-03" = ["2025"; "03"].
Proof. reflexivity. Qed.

Example split_empty : JsString.split "," "" = [""].
Proof. reflexivity. Qed.

Example split_path : JsString.split " / " "Raw / Steel / " = ["Raw"; "Steel"; ""].
Proof. reflexivity. Qed.

Example trim_ex : JsString.trim "  a b  " = "a b".
Proof. reflexivity. Qed.

Example parseInt_hex : JsNumber.parseInt " 0x1fz" 0 = Num 31.
Proof. reflexivity. Qed.

Example parseInt_dec : JsNumber.parseInt "-12abc" 10 = Num (-12).
Proof. reflexivity. Qed.

Example parseInt_nan : JsNumber.parseInt "abc" 0 = NaN.
Proof. reflexivity. Qed.

Example Number_03 : JsNumber.Number_ "03" = Num 3.
Proof. reflexivity. Qed.

Example toString_neg : JsNumber.toString (Num (-40)) = "-40".
Proof. reflexivity. Qed.

Example toString_zero : JsNumber.toString (Num 0) = "0".
Proof. reflexivity. Qed.

Example padStart_ex : JsString.padStart (JsNumber.toString (Num 4)) 2 "0" = "04".
Proof. reflexivity. Qed.

Example buildWhere_default :
  buildWhere empty_query =
  mkWhere "po.state IN ('purchase','done') AND po.date_order >= $1::date AND po.date_order < '2099-01-01'"
          [PStr "2025-01-01"].
Proof. reflexivity. Qed.

Example buildWhere_full :
  buildWhere full_query =
  mkWhere
    ("po.state IN ('purchase','done') AND po.date_order >= $1::date AND po.date_order < $2::date"
     ++ " AND NULLIF(split_part(pc.complete_name,' / ',1),'') = $3"
     ++ " AND NULLIF(split_part(pc.complete_name,' / ',3),'') = $4"
     ++ " AND (COALESCE(pp.default_code,pt.default_code) ILIKE $5 OR pt.name->>'en_US' ILIKE $5)"
     ++ " AND COALESCE(pp.default_code,pt.default_code) IN ($6, $7)"
     ++ " AND pp.product_tmpl_id IN ($8, $9)")
    [PStr "2025-02-01"; PStr "2026-01-01"; PStr "Raw"; PStr "Bolt"; PStr "%m8%";
     PStr "A-1"; PStr "B-2"; PNum (Num 7); PNum (Num 12)].
Proof. reflexivity. Qed.

Example placeholders_full :
  placeholders (where_ (buildWhere full_query)) = [1; 2; 3; 4; 5; 5; 6; 7; 8; 9].
Proof. reflexivity. Qed.

Example placeholders_text :
  placeholders "a = $12 AND b IN ($3,$4) AND c = '$' AND d = $x5" = [12; 3; 4].
Proof. reflexivity. Qed.

Example compiled_full :
  map render (compiled_conds full_query) = conds (build full_query)
  /\ compiled_params full_query = params (build full_query).
Proof. split; reflexivity. Qed.

Example round1_up : Aggregate.round1 (1235 # 100) = ((124 # 1) / (10 # 1))%Q.
Proof. reflexivity. Qed.

Example round1_neg : Qeq (Aggregate.round1 (- (1235 # 100))) (- (124 # 10)) .
Proof. reflexivity. Qed.

Example like_ex : Sample.like "%m8%" "Bolt M8x20" = true.
Proof. reflexivity. Qed.

Example cast_iso_ex : Sample.cast_iso "2025-03-01" = Some (Sql.mkDate 2025 3 1).
Proof. reflexivity. Qed.

Example respond_by_sku :
  Lines.respond Sample.engine Sample.two_parts by_sku_asc = Json Sample.parts_by_sku.
Proof. vm_compute. reflexivity. Qed.

Example respond_page_abc :
  Lines.respond Sample.engine Sample.two_parts page_abc = ServerError.
Proof. reflexivity. Qed.

Example kpis_two_months :
  match Kpis.handler Sample.engine
          [Sample.order (Sql.mkDate 2025 1 10) 10 5; Sample.order (Sql.mkDate 2025 2 10) 20 5]
          first_quarter with
  | Json k =>
      Qeq_bool (Kpis.total_ordered_value k) 150 = true
      /\ Kpis.distinct_months k = 2%Z
      /\ Kpis.pct_received k = Some (Aggregate.round1 0)
  | ServerError => False
  end.
Proof. vm_compute. repeat split. Qed.

Example kpis_no_rows :
  Kpis.pct_received (Kpis.select []) = None.
Proof. reflexivity. Qed.

Example products_typed :
  Typeahead.executed unit
    (Typeahead.products unit (fun _ _ => inr [tt]) (typed " bo "))
  = [(Statements.productsSql (where_ (buildWhere (typed " bo "))) 2,
      [PStr "2025-01-01"; PStr "%bo%"])].
Proof. reflexivity. Qed.

(** *** The builder runs the clause list *)

Section BuilderClauses.

Lemma apply_clauses_app (b : builder) (l1 l2 : list clause) :
  fold_left apply_clause (l1 ++ l2) b
  = fold_left apply_clause l2 (fold_left apply_clause l1 b).
Proof. apply fold_left_app. Qed.

Lemma mapi_from_seq {A B} (f : nat -> B) (xs : list A) (i : nat) :
  mapi_from i (fun _ j => f j) xs = map f (seq i (List.length xs)).
Proof.
  revert i. induction xs as [|x xs IH]; intro i; simpl; [reflexivity|].
  now rewrite IH.
Qed.

Lemma map_add_seq (b s n : nat) :
  map (fun j => b + j) (seq s n) = seq (b + s) n.
Proof.
  revert s. induction n as [|n IH]; intro s; simpl; [reflexivity|].
  f_equal. rewrite IH. f_equal. lia.
Qed.

Lemma placeholders_for_seq {A} (b : builder) (xs : list A) :
  placeholders_for b xs
  = join ", " (map placeholder (seq (List.length (params b) + 1) (List.length xs))).
Proof.
  unfold placeholders_for, mapi.
  rewrite (mapi_from_seq (fun j => placeholder (List.length (params b) + 1 + j))).
  rewrite <- (map_map (fun j => List.length (params b) + 1 + j) placeholder).
  rewrite map_add_seq. do 3 f_equal. lia.
Qed.

Ltac step_present f :=
  unfold opt_clause; destruct (present f) as [s|]; [|reflexivity].

Lemma step_dateFrom_clause (query : query) (b : builder) :
  step_dateFrom query b = apply_clause b (cl_dateFrom query).
Proof.
  unfold step_dateFrom, apply_clause, push_cond; simpl.
  now rewrite length_app.
Qed.

Lemma step_dateTo_clause (query : query) (b : builder) :
  step_dateTo query b = apply_clause b (cl_dateTo query).
Proof.
  unfold step_dateTo, cl_dateTo, apply_clause, push_cond.
  destruct (present (dateTo query)) as [s|]; simpl.
  - now rewrite length_app.
  - now rewrite app_nil_r; destruct b.
Qed.

Lemma step_catL1_clause (query : query) (b : builder) :
  step_catL1 query b = fold_left apply_clause (cl_cat 1 (catL1 query)) b.
Proof.
  unfold step_catL1, cl_cat. step_present (catL1 query).
  unfold apply_clause, push_cond; simpl. now rewrite length_app.
Qed.

Lemma step_catL2_clause (query : query) (b : builder) :
  step_catL2 query b = fold_left apply_clause (cl_cat 2 (catL2 query)) b.
Proof.
  unfold step_catL2, cl_cat. step_present (catL2 query).
  unfold apply_clause, push_cond; simpl. now rewrite length_app.
Qed.

Lemma step_catL3_clause (query : query) (b : builder) :
  step_catL3 query b = fold_left apply_clause (cl_cat 3 (catL3 query)) b.
Proof.
  unfold step_catL3, cl_cat. step_present (catL3 query).
  unfold apply_clause, push_cond; simpl. now rewrite length_app.
Qed.

Lemma step_search_clause (query : query) (b : builder) :
  step_search query b = fold_left apply_clause (cl_search query) b.
Proof.
  unfold step_search, cl_search. step_present (search query).
  unfold apply_clause, push_cond; simpl. now rewrite length_app.
Qed.

Lemma step_skus_clause (query : query) (b : builder) :
  step_skus query b = fold_left apply_clause (cl_skus query) b.
Proof.
  unfold step_skus, cl_skus. step_present (skus query).
  rewrite placeholders_for_seq.
  destruct (skuList s) as [|x l] eqn:E; [reflexivity|].
  unfold apply_clause, push_cond, push_params; simpl.
  reflexivity.
Qed.

Lemma step_productTmplIds_clause (query : query) (b : builder) :
  step_productTmplIds query b = fold_left apply_clause (cl_tmpl query) b.
Proof.
  unfold step_productTmplIds, cl_tmpl. step_present (productTmplIds query).
  rewrite placeholders_for_seq.
  destruct (tmplIds s) as [|x l] eqn:E; [reflexivity|].
  unfold apply_clause, push_cond, push_params; simpl.
  reflexivity.
Qed.

Lemma build_clauses (query : query) :
  build query = fold_left apply_clause (clauses query) (mkBuilder [] []).
Proof.
  unfold build, clauses, optional_clauses.
  rewrite step_productTmplIds_clause, step_skus_clause, step_search_clause,
    step_catL3_clause, step_catL2_clause, step_catL1_clause,
    step_dateTo_clause, step_dateFrom_clause.
  simpl fold_left. rewrite !apply_clauses_app. reflexivity.
Qed.

Lemma fold_assemble (cls : list clause) (b : builder) :
  fold_left apply_clause cls b
  = mkBuilder (params b ++ snd (assemble (List.length (params b)) cls))
              (conds b ++ map render (fst (assemble (List.length (params b)) cls))).
Proof.
  revert b. induction cls as [|c r IH]; intro b; simpl.
  - rewrite !app_nil_r. now destruct b.
  - rewrite IH. unfold apply_clause at 1 2 3 4; simpl.
    rewrite length_app.
    destruct (assemble (List.length (params b) + List.length (cl_params c)) r) as [cs ps].
    simpl. now rewrite <- !app_assoc.
Qed.

(** [buildWhere] pushes exactly the rendered conditions and the parameters
    of the query's clause list. *)
Lemma build_compiled (query : query) :
  conds (build query) = map render (compiled_conds query)
  /\ params (build query) = compiled_params query.
Proof.
  rewrite build_clauses, fold_assemble. simpl. split; reflexivity.
Qed.

End BuilderClauses.

(** What [buildWhere] returns is the rendering of the query's clause list:
    its conditions joined with AND, and its parameters. *)
Theorem buildWhere_renders_clauses (query : query) :
  buildWhere query
  = mkWhere (join " AND " (map render (compiled_conds query)))
            (compiled_params query).
Proof.
  unfold buildWhere. destruct (build_compiled query) as [Hc Hp].
  now rewrite Hc, Hp.
Qed.

(** *** Scanning rendered conditions *)

Section Scanning.

Lemma string_app_assoc (a b c : string) : ((a ++ b) ++ c = a ++ (b ++ c))%string.
Proof. induction a as [|x a IH]; simpl; [reflexivity|now rewrite IH]. Qed.

Lemma string_app_nil_r (a : string) : (a ++ "" = a)%string.
Proof. induction a as [|x a IH]; simpl; [reflexivity|now rewrite IH]. Qed.

Lemma scan_no_dollar (s r : string) :
  no_dollar s = true -> scan None (s ++ r) = scan None r.
Proof.
  induction s as [|c s IH]; simpl; [reflexivity|].
  intro H. apply andb_true_iff in H as [Hc Hs].
  destruct (is_digit c); [now apply IH|].
  destruct (Ascii.eqb c "$"); [discriminate|]. now apply IH.
Qed.

Lemma scan_digits (ds s r : string) :
  all_digits s = true ->
  scan (Some ds) (s ++ r) = scan (Some (ds ++ s)%string) r.
Proof.
  revert ds. induction s as [|c s IH]; intros ds; simpl.
  - now rewrite string_app_nil_r.
  - intro H. apply andb_true_iff in H as [Hc Hs]. rewrite Hc.
    rewrite IH by assumption. now rewrite string_app_assoc.
Qed.

Lemma scan_boundary (st : option string) (r : string) :
  boundary r = true -> scan st r = emit st ++ scan None r.
Proof.
  destruct r as [|c r]; simpl.
  - now rewrite app_nil_r.
  - intro H. apply negb_true_iff in H. now rewrite H.
Qed.

Lemma uint_digits (d : Decimal.uint) : all_digits (NilEmpty.string_of_uint d) = true.
Proof. induction d; simpl; auto. Qed.

Lemma to_uint_nonempty (n : nat) : nat_toString n <> "".
Proof.
  unfold nat_toString. intro H.
  assert (E : Nat.to_uint n = Decimal.Nil).
  { destruct (Nat.to_uint n); simpl in H; try discriminate; reflexivity. }
  apply (f_equal Nat.of_uint) in E. rewrite DecimalNat.Unsigned.of_to in E.
  simpl in E. subst n. discriminate.
Qed.

Lemma emit_toString (n : nat) : emit (Some (nat_toString n)) = [n].
Proof.
  unfold emit. destruct (String.eqb_spec (nat_toString n) "") as [E|_].
  - now apply to_uint_nonempty in E.
  - unfold nat_toString. rewrite NilEmpty.usu.
    now rewrite DecimalNat.Unsigned.of_to.
Qed.

(** A placeholder followed by a boundary is read back as its index. *)
Lemma scan_placeholder (n : nat) (r : string) :
  boundary r = true ->
  scan None (placeholder n ++ r) = n :: scan None r.
Proof.
  intro H. unfold placeholder. simpl.
  rewrite scan_digits by apply uint_digits. simpl.
  rewrite scan_boundary by assumption. now rewrite emit_toString.
Qed.

Lemma scans_nil : scans "" [].
Proof. intros r _. reflexivity. Qed.

Lemma scans_plain (s : string) : no_dollar s = true -> scans s [].
Proof. intros H r _. now apply scan_no_dollar. Qed.

Lemma scans_placeholder (n : nat) : scans (placeholder n) [n].
Proof. intros r H. now apply scan_placeholder. Qed.

Lemma scans_app (s1 s2 : string) (l1 l2 : list nat) :
  scans s1 l1 -> scans s2 l2 ->
  (forall r, boundary r = true -> boundary (s2 ++ r) = true) ->
  scans (s1 ++ s2)%string (l1 ++ l2).
Proof.
  intros H1 H2 Hb r Hr. rewrite string_app_assoc.
  rewrite H1 by now apply Hb. rewrite H2 by assumption.
  now rewrite app_assoc.
Qed.

Lemma boundary_cons (c : ascii) (s r : string) :
  is_digit c = false -> boundary (String c s ++ r) = true.
Proof. intro H. simpl. now rewrite H. Qed.

(** A plain text, not starting with a digit, after [s1]. *)
Lemma scans_then_plain (s1 : string) (l1 : list nat) (c : ascii) (s2 : string) :
  scans s1 l1 -> is_digit c = false -> no_dollar (String c s2) = true ->
  scans (s1 ++ String c s2)%string l1.
Proof.
  intros H1 Hc Hp. rewrite <- (app_nil_r l1).
  apply scans_app; [assumption|now apply scans_plain|].
  intros r _. now apply boundary_cons.
Qed.

Lemma scans_placeholder_list (ks : list nat) :
  scans (join ", " (map placeholder ks)) ks.
Proof.
  induction ks as [|k ks IH]; [apply scans_nil|].
  destruct ks as [|k' ks].
  - apply scans_placeholder.
  - change (join ", " (map placeholder (k :: k' :: ks)))
      with (placeholder k ++ ", " ++ join ", " (map placeholder (k' :: ks)))%string.
    change (k :: k' :: ks) with ([k] ++ [] ++ (k' :: ks)).
    apply scans_app; [apply scans_placeholder| |intros r _; reflexivity].
    apply scans_app; [now apply scans_plain|exact IH|].
    intros r _. destruct ks; reflexivity.
Qed.

Lemma scans_in_list (pre : string) (ks : list nat) :
  no_dollar pre = true ->
  scans (pre ++ join ", " (map placeholder ks) ++ ")")%string ks.
Proof.
  intro Hp. change ks with ([] ++ ks).
  assert (Hl : scans (join ", " (map placeholder ks) ++ ")")%string ks).
  { apply scans_then_plain; [apply scans_placeholder_list|reflexivity|reflexivity]. }
  intros r Hr. rewrite string_app_assoc. rewrite scan_no_dollar by assumption.
  now apply Hl.
Qed.

Lemma nat_toString_no_dollar (n : nat) : no_dollar (nat_toString n) = true.
Proof.
  unfold nat_toString. induction (Nat.to_uint n); simpl; auto.
Qed.

(** Each rendered condition contributes the indices it references. *)
Lemma scans_render (c : cond) : scans (render c) (cond_refs c).
Proof.
  destruct c as [|k|k| |level k|k|ks|ks]; unfold render, cond_refs.
  - now apply scans_plain.
  - rewrite <- string_app_assoc.
    apply scans_then_plain; [|reflexivity|reflexivity].
    intros r Hr. rewrite string_app_assoc. rewrite scan_no_dollar by reflexivity.
    now apply scan_placeholder.
  - rewrite <- string_app_assoc.
    apply scans_then_plain; [|reflexivity|reflexivity].
    intros r Hr. rewrite string_app_assoc. rewrite scan_no_dollar by reflexivity.
    now apply scan_placeholder.
  - now apply scans_plain.
  - intros r Hr. rewrite !string_app_assoc.
    rewrite scan_no_dollar by reflexivity.
    rewrite scan_no_dollar by apply nat_toString_no_dollar.
    rewrite scan_no_dollar by reflexivity.
    now apply scan_placeholder.
  - intros r Hr. rewrite !string_app_assoc.
    rewrite scan_no_dollar by reflexivity.
    rewrite scan_placeholder by reflexivity.
    rewrite scan_no_dollar by reflexivity.
    rewrite scan_placeholder by reflexivity.
    now rewrite scan_no_dollar by reflexivity.
  - now apply scans_in_list.
  - now apply scans_in_list.
Qed.

Lemma render_boundary (c : cond) (r : string) : boundary (render c ++ r) = true.
Proof. destruct c; reflexivity. Qed.

(** The predicate string references, in order, what its conditions
    reference. *)
Lemma placeholders_join (cs : list cond) :
  placeholders (join " AND " (map render cs)) = List.concat (map cond_refs cs).
Proof.
  unfold placeholders.
  induction cs as [|c cs IH]; [reflexivity|].
  destruct cs as [|c' cs].
  - simpl. rewrite <- (string_app_nil_r (render c)).
    rewrite (scans_render c "") by reflexivity. reflexivity.
  - change (join " AND " (map render (c :: c' :: cs)))
      with (render c ++ " AND " ++ join " AND " (map render (c' :: cs)))%string.
    rewrite (scans_render c) by reflexivity.
    rewrite scan_no_dollar by reflexivity.
    rewrite IH. reflexivity.
Qed.

End Scanning.

(** *** Placeholders against parameters *)

Section PlaceholderOrder.

Lemma assemble_app (base : nat) (l1 l2 : list clause) :
  assemble base (l1 ++ l2)
  = (fst (assemble base l1) ++ fst (assemble (base + pcount base l1) l2),
     snd (assemble base l1) ++ snd (assemble (base + pcount base l1) l2)).
Proof.
  revert base. induction l1 as [|c l1 IH]; intro base; unfold pcount; simpl.
  - rewrite Nat.add_0_r. now destruct (assemble base l2).
  - rewrite IH. unfold pcount.
    destruct (assemble (base + List.length (cl_params c)) l1) as [cs ps]. simpl.
    rewrite length_app, Nat.add_assoc. now rewrite <- app_assoc.
Qed.

Lemma pcount_shift (base base' : nat) (cls : list clause) :
  pcount base cls = pcount base' cls.
Proof.
  unfold pcount. revert base base'.
  induction cls as [|c r IH]; intros base base'; simpl; [reflexivity|].
  specialize (IH (base + List.length (cl_params c)) (base' + List.length (cl_params c))).
  destruct (assemble (base + List.length (cl_params c)) r),
           (assemble (base' + List.length (cl_params c)) r).
  simpl in *. rewrite !length_app. now rewrite IH.
Qed.

Lemma refs_app (base : nat) (l1 l2 : list clause) :
  refs base (l1 ++ l2) = refs base l1 ++ refs (base + pcount base l1) l2.
Proof.
  unfold refs. rewrite assemble_app. simpl. now rewrite map_app, concat_app.
Qed.

Lemma pcount_app (base : nat) (l1 l2 : list clause) :
  pcount base (l1 ++ l2) = pcount base l1 + pcount base l2.
Proof.
  unfold pcount at 1. rewrite assemble_app. simpl. rewrite length_app.
  fold (pcount base l1). f_equal. apply (pcount_shift _ base).
Qed.

Lemma refs_regular (base : nat) (cls : list clause) :
  Forall regular cls -> refs base cls = seq (base + 1) (pcount base cls).
Proof.
  revert base. induction cls as [|c r IH]; intros base H; [reflexivity|].
  inversion H as [|? ? Hc Hr]; subst.
  change (c :: r) with ([c] ++ r). rewrite refs_app, pcount_app, seq_app.
  rewrite (IH _ Hr).
  assert (E1 : pcount base [c] = List.length (cl_params c)).
  { unfold pcount; simpl. now rewrite app_nil_r. }
  assert (E2 : refs base [c] = seq (base + 1) (List.length (cl_params c))).
  { unfold refs; simpl. rewrite app_nil_r. apply Hc. }
  rewrite E1, E2. f_equal. f_equal; [lia|apply pcount_shift].
Qed.

Lemma regular_state : regular cl_state.
Proof. intro base. reflexivity. Qed.

Lemma regular_dateFrom (query : query) : regular (cl_dateFrom query).
Proof. intro base. reflexivity. Qed.

Lemma regular_dateTo (query : query) : regular (cl_dateTo query).
Proof. intro base. unfold cl_dateTo. now destruct (present (dateTo query)). Qed.

Lemma regular_cat (level : nat) (v : option string) : Forall regular (cl_cat level v).
Proof.
  unfold cl_cat, opt_clause. destruct (present v); constructor; [|constructor].
  intro base. reflexivity.
Qed.

Lemma regular_skus (query : query) : Forall regular (cl_skus query).
Proof.
  unfold cl_skus, opt_clause. destruct (present (skus query)) as [s|]; [|constructor].
  destruct (skuList s) as [|x l]; constructor; [|constructor].
  intro base. simpl. now rewrite length_map.
Qed.

Lemma regular_tmpl (query : query) : Forall regular (cl_tmpl query).
Proof.
  unfold cl_tmpl, opt_clause.
  destruct (present (productTmplIds query)) as [s|]; [|constructor].
  destruct (tmplIds s) as [|x l]; constructor; [|constructor].
  intro base. simpl. now rewrite length_map.
Qed.

Lemma clauses_split (query : query) :
  clauses query = before_search query ++ cl_search query ++ after_search query.
Proof.
  unfold clauses, optional_clauses, before_search, after_search.
  simpl. now rewrite <- !app_assoc.
Qed.

Lemma regular_before (query : query) : Forall regular (before_search query).
Proof.
  unfold before_search.
  apply Forall_app; split.
  - repeat constructor;
      auto using regular_state, regular_dateFrom, regular_dateTo.
  - apply Forall_app; split; [apply regular_cat|].
    apply Forall_app; split; apply regular_cat.
Qed.

Lemma regular_after (query : query) : Forall regular (after_search query).
Proof.
  unfold after_search. apply Forall_app; split;
    auto using regular_skus, regular_tmpl.
Qed.

Lemma pcount_before (query : query) :
  pcount 0 (before_search query)
  = 1 + pushed (dateTo query) + pushed (catL1 query)
    + pushed (catL2 query) + pushed (catL3 query).
Proof.
  unfold before_search, pcount, pushed, cl_dateTo, cl_cat, opt_clause.
  destruct (present (dateTo query)), (present (catL1 query)),
    (present (catL2 query)), (present (catL3 query)); reflexivity.
Qed.

(** The shape of the referenced indices. *)
Lemma refs_clauses (query : query) :
  refs 0 (clauses query)
  = match search_slot query with
    | None => seq 1 (pcount 0 (clauses query))
    | Some k => seq 1 k ++ k :: seq (k + 1) (pcount 0 (clauses query) - k)
    end.
Proof.
  rewrite clauses_split. unfold search_slot.
  rewrite <- pcount_before.
  rewrite !refs_app, !pcount_app.
  rewrite (refs_regular _ _ (regular_before query)).
  rewrite (refs_regular _ _ (regular_after query)).
  set (a := pcount 0 (before_search query)).
  set (m := pcount 0 (after_search query)).
  rewrite (pcount_shift _ 0 (cl_search query)).
  rewrite (pcount_shift _ 0 (after_search query)). fold m.
  unfold cl_search, opt_clause.
  destruct (present (search query)) as [s|].
  - change (pcount 0 [_]) with 1.
    unfold refs; simpl List.concat.
    rewrite seq_app. simpl seq at 2. rewrite <- app_assoc. simpl.
    clearbody a m.
    replace (a + S m - (a + 1)) with m by lia.
    replace (S a) with (a + 1) by lia. reflexivity.
  - change (pcount 0 []) with 0. unfold refs; simpl List.concat. simpl app.
    clearbody a m. simpl. rewrite seq_app, Nat.add_0_r.
    now replace (1 + a) with (a + 1) by lia.
Qed.

End PlaceholderOrder.

Section PlaceholderTheorems.

Lemma where_refs (query : query) :
  placeholders (where_ (buildWhere query)) = refs 0 (clauses query).
Proof.
  unfold buildWhere. simpl where_.
  destruct (build_compiled query) as [Hc _]. rewrite Hc.
  apply placeholders_join.
Qed.

Lemma where_pcount (query : query) :
  List.length (where_params (buildWhere query)) = pcount 0 (clauses query).
Proof.
  unfold buildWhere. simpl where_params.
  destruct (build_compiled query) as [_ Hp]. now rewrite Hp.
Qed.

Lemma uniq_adj_cons (x y : nat) (l : list nat) :
  x <> y -> uniq_adj (x :: y :: l) = x :: uniq_adj (y :: l).
Proof.
  intro H. change (uniq_adj (x :: y :: l))
    with (if Nat.eqb x y then uniq_adj (y :: l) else x :: uniq_adj (y :: l)).
  apply Nat.eqb_neq in H. now rewrite H.
Qed.

Lemma uniq_adj_seq (s n : nat) : uniq_adj (seq s n) = seq s n.
Proof.
  revert s. induction n as [|n IH]; intro s; [reflexivity|].
  destruct n as [|n]; [reflexivity|].
  change (seq s (S (S n))) with (s :: S s :: seq (S (S s)) n).
  rewrite uniq_adj_cons by lia. f_equal. apply (IH (S s)).
Qed.

Lemma uniq_adj_dup (x : nat) (l : list nat) :
  uniq_adj (x :: x :: l) = uniq_adj (x :: l).
Proof.
  change (uniq_adj (x :: x :: l))
    with (if Nat.eqb x x then uniq_adj (x :: l) else x :: uniq_adj (x :: l)).
  now rewrite Nat.eqb_refl.
Qed.

Lemma uniq_adj_app_dup (l1 l2 : list nat) (x : nat) :
  uniq_adj (l1 ++ x :: x :: l2) = uniq_adj (l1 ++ x :: l2).
Proof.
  induction l1 as [|a l1 IH]; [apply uniq_adj_dup|].
  destruct l1 as [|b l1].
  - simpl app. destruct (Nat.eq_dec a x) as [->|Hne].
    + now rewrite !uniq_adj_dup.
    + rewrite !(uniq_adj_cons a x) by assumption. now rewrite uniq_adj_dup.
  - simpl app in *. destruct (Nat.eq_dec a b) as [->|Hne].
    + now rewrite !uniq_adj_dup.
    + rewrite !(uniq_adj_cons a b) by assumption. now rewrite IH.
Qed.

Lemma seq_dup_collapse (k n : nat) :
  1 <= k <= n ->
  uniq_adj (seq 1 k ++ k :: seq (k + 1) (n - k)) = seq 1 n.
Proof.
  intros [H1 H2].
  replace (seq 1 k) with (seq 1 (k - 1) ++ [k]).
  2:{ replace k with ((k - 1) + 1) at 3 by lia. rewrite seq_app. simpl.
      do 2 f_equal. lia. }
  rewrite <- app_assoc. simpl app at 2.
  rewrite uniq_adj_app_dup.
  replace (k :: seq (k + 1) (n - k)) with (seq k (S (n - k)))
    by (simpl; do 2 f_equal; lia).
  replace k with (1 + (k - 1)) at 2 by lia.
  rewrite <- seq_app. rewrite uniq_adj_seq. f_equal. lia.
Qed.

Lemma search_slot_bounds (query : query) (k : nat) :
  search_slot query = Some k -> 1 <= k <= pcount 0 (clauses query).
Proof.
  unfold search_slot. rewrite <- pcount_before.
  rewrite clauses_split, !pcount_app.
  unfold cl_search, opt_clause.
  destruct (present (search query)); [|discriminate].
  intros [= <-]. change (pcount 0 [_]) with 1. lia.
Qed.

End PlaceholderTheorems.

(** *** The upper date bound *)

Section UpperBound.
Import Calendar.

Lemma split_go_step (sep : string) (c : ascii) (s cur : string) :
  split_go sep 0 cur (String c s)
  = if String.prefix sep (String c s)
    then cur :: split_go sep (String.length sep - 1) "" s
    else split_go sep 0 (cur ++ String c "") s.
Proof. reflexivity. Qed.

Lemma prefix_char (a c : ascii) (s : string) :
  String.prefix (String a "") (String c s) = Ascii.eqb a c.
Proof.
  unfold String.prefix. destruct (ascii_dec a c) as [->|Hne].
  - rewrite Ascii.eqb_refl. now destruct s.
  - symmetry. now apply Ascii.eqb_neq.
Qed.

Lemma no_dash_cons (c : ascii) (s : string) :
  no_dash (String c s) = true -> Ascii.eqb "-" c = false /\ no_dash s = true.
Proof.
  intro H. change (no_dash (String c s))
    with (negb (Ascii.eqb c "-") && no_dash s) in H.
  apply andb_true_iff in H as [Hc Hs].
  apply negb_true_iff in Hc. rewrite Ascii.eqb_sym. now split.
Qed.

Lemma split_last (s cur : string) :
  no_dash s = true -> split_go "-" 0 cur s = [(cur ++ s)%string].
Proof.
  revert cur. induction s as [|c s IH]; intros cur H.
  - simpl. now rewrite string_app_nil_r.
  - apply no_dash_cons in H as [Hc Hs].
    rewrite split_go_step, prefix_char, Hc.
    rewrite IH by assumption. now rewrite string_app_assoc.
Qed.

Lemma split_field (s cur rest : string) :
  no_dash s = true ->
  split_go "-" 0 cur (s ++ String "-" rest) = (cur ++ s)%string :: split_go "-" 0 "" rest.
Proof.
  revert cur. induction s as [|c s IH]; intros cur H.
  - simpl append. rewrite split_go_step, prefix_char, Ascii.eqb_refl.
    now rewrite string_app_nil_r.
  - apply no_dash_cons in H as [Hc Hs].
    change (String c s ++ String "-" rest)%string
      with (String c (s ++ String "-" rest)).
    rewrite split_go_step, prefix_char, Hc.
    rewrite IH by assumption. now rewrite string_app_assoc.
Qed.

(** Decimal numerals read back. *)

Lemma digits_all_cons (c : ascii) (s : string) (acc : option Z) (v : Z) :
  digit_val c = Some v -> (v <? 10)%Z = true ->
  digits_all 10 acc (String c s)
  = digits_all 10 (Some (10 * match acc with Some a => a | None => 0 end + v)%Z) s.
Proof. intros Hv Hlt. simpl. now rewrite Hv, Hlt. Qed.

Ltac digit_case IH c k :=
  cbn [NilEmpty.string_of_uint Nat.of_uint_acc];
  rewrite <- IH;
  rewrite (digits_all_cons c _ _ k) by reflexivity;
  do 2 f_equal; rewrite Nat.tail_mul_spec; lia.

Lemma digits_all_uint (d : Decimal.uint) (acc : nat) :
  digits_all 10 (Some (Z.of_nat acc)) (NilEmpty.string_of_uint d)
  = Some (Z.of_nat (Nat.of_uint_acc d acc)).
Proof.
  revert acc.
  induction d as [|d IH|d IH|d IH|d IH|d IH|d IH|d IH|d IH|d IH|d IH];
    intro acc.
  - reflexivity.
  - digit_case IH "0"%char 0%Z.
  - digit_case IH "1"%char 1%Z.
  - digit_case IH "2"%char 2%Z.
  - digit_case IH "3"%char 3%Z.
  - digit_case IH "4"%char 4%Z.
  - digit_case IH "5"%char 5%Z.
  - digit_case IH "6"%char 6%Z.
  - digit_case IH "7"%char 7%Z.
  - digit_case IH "8"%char 8%Z.
  - digit_case IH "9"%char 9%Z.
Qed.

Lemma digits_all_start (s : string) :
  s <> "" -> digits_all 10 None s = digits_all 10 (Some 0%Z) s.
Proof. destruct s; [congruence|reflexivity]. Qed.

Lemma digits_all_nat (n : nat) :
  digits_all 10 (Some 0%Z) (nat_toString n) = Some (Z.of_nat n).
Proof.
  unfold nat_toString. change (Some 0%Z) with (Some (Z.of_nat 0)).
  rewrite (digits_all_uint (Nat.to_uint n) 0).
  fold (Nat.of_uint (Nat.to_uint n)). now rewrite DecimalNat.Unsigned.of_to.
Qed.

Lemma fill_zeros (cur : string) (n : nat) :
  zeros cur = true -> zeros (fill_to "0" cur n) = true.
Proof.
  revert cur. induction n as [|n IH]; intros cur H; [reflexivity|].
  destruct cur as [|c r]; simpl.
  - now apply IH.
  - simpl in H. apply andb_true_iff in H as [Hc Hr]. rewrite Hc. now apply IH.
Qed.

Lemma digits_all_zeros (z s : string) :
  zeros z = true -> digits_all 10 (Some 0%Z) (z ++ s) = digits_all 10 (Some 0%Z) s.
Proof.
  induction z as [|c z IH]; intro H; [reflexivity|].
  simpl in H. apply andb_true_iff in H as [Hc Hz].
  apply Ascii.eqb_eq in Hc. subst c.
  change (String "0" z ++ s)%string with (String "0" (z ++ s)).
  rewrite (digits_all_cons "0" _ _ 0%Z) by reflexivity. now apply IH.
Qed.

Lemma zeros_digits (z : string) : zeros z = true -> all_digits z = true.
Proof.
  induction z as [|c z IH]; intro H; [reflexivity|].
  simpl in H. apply andb_true_iff in H as [Hc Hz].
  apply Ascii.eqb_eq in Hc. subst c. simpl. now apply IH.
Qed.

Lemma all_digits_app (a b : string) :
  all_digits a = true -> all_digits b = true -> all_digits (a ++ b) = true.
Proof.
  induction a as [|c a IH]; intros Ha Hb; [assumption|].
  simpl in *. apply andb_true_iff in Ha as [Hc Ha]. rewrite Hc. now apply IH.
Qed.

(** A digit is no white space, sign, dash or prefix letter. *)
Lemma digit_plain (c : ascii) :
  is_digit c = true ->
  is_ws c = false /\ Ascii.eqb c "-" = false /\ Ascii.eqb c "+" = false
  /\ radix_of_letter c = None.
Proof.
  destruct c as [[] [] [] [] [] [] [] []]; intro H;
    try discriminate H; repeat split; reflexivity.
Qed.

Lemma trimEnd_digits (s : string) : all_digits s = true -> trimEnd s = s.
Proof.
  induction s as [|c s IH]; intro H; [reflexivity|].
  simpl in H. apply andb_true_iff in H as [Hc Hs].
  simpl. destruct (digit_plain c Hc) as [Hw _]. rewrite Hw. simpl.
  now rewrite IH.
Qed.

Lemma trim_digits (s : string) : all_digits s = true -> trim s = s.
Proof.
  intro H. unfold trim.
  assert (E : trimStart s = s).
  { destruct s as [|c s]; [reflexivity|]. simpl in *.
    apply andb_true_iff in H as [Hc _].
    destruct (digit_plain c Hc) as [Hw _]. now rewrite Hw. }
  rewrite E. now apply trimEnd_digits.
Qed.

Lemma no_dash_digits (s : string) : all_digits s = true -> no_dash s = true.
Proof.
  induction s as [|c s IH]; intro H; [reflexivity|].
  simpl in H. apply andb_true_iff in H as [Hc Hs].
  destruct (digit_plain c Hc) as (_ & Hd & _).
  change (no_dash (String c s)) with (negb (Ascii.eqb c "-") && no_dash s).
  rewrite Hd. now apply IH.
Qed.

(** [Number] on a non-empty string of decimal digits. *)
Lemma Number_digits (s : string) (v : Z) :
  s <> "" -> all_digits s = true ->
  digits_all 10 (Some 0%Z) s = Some v -> Number_ s = Num v.
Proof.
  intros Hne Hd Hv. unfold Number_. rewrite trim_digits by assumption.
  destruct (String.eqb_spec s "") as [->|_]; [congruence|].
  destruct s as [|c1 s]; [congruence|].
  simpl in Hd. apply andb_true_iff in Hd as [Hc1 Hs].
  destruct (digit_plain c1 Hc1) as (_ & Hm & Hp & _).
  assert (Hr : strip_radix_prefix (String c1 s) = None).
  { destruct s as [|c2 s]; [reflexivity|]. simpl in Hs.
    apply andb_true_iff in Hs as [Hc2 _].
    destruct (digit_plain c2 Hc2) as (_ & _ & _ & Hl).
    unfold strip_radix_prefix. rewrite Hl. now destruct (Ascii.eqb c1 "0"). }
  rewrite Hr. unfold strip_sign. rewrite Hm, Hp.
  rewrite digits_all_start by discriminate. rewrite Hv.
  now rewrite Z.mul_1_l.
Qed.

Lemma toString_nonneg (z : Z) :
  (0 <= z)%Z -> toString (Num z) = nat_toString (Z.to_nat z).
Proof.
  intro H. unfold toString. destruct (Z.ltb_spec z 0); [lia|reflexivity].
Qed.

Lemma pad_shape (w : nat) (z : Z) :
  (0 <= z)%Z ->
  exists fill, zeros fill = true
               /\ pad w z = (fill ++ nat_toString (Z.to_nat z))%string.
Proof.
  intro H. unfold pad, padStart. rewrite toString_nonneg by assumption.
  eexists. split; [|reflexivity]. now apply fill_zeros.
Qed.

Lemma pad_facts (w : nat) (z : Z) :
  (0 <= z)%Z -> no_dash (pad w z) = true /\ Number_ (pad w z) = Num z.
Proof.
  intro H. destruct (pad_shape w z H) as (fill & Hf & ->).
  assert (Hd : all_digits (fill ++ nat_toString (Z.to_nat z)) = true).
  { apply all_digits_app; [now apply zeros_digits|apply uint_digits]. }
  split; [now apply no_dash_digits|].
  apply Number_digits; [|assumption|].
  - pose proof (to_uint_nonempty (Z.to_nat z)) as Hn.
    destruct fill; [assumption|discriminate].
  - rewrite digits_all_zeros by assumption. rewrite digits_all_nat.
    f_equal. lia.
Qed.

(** A numeral of fewer than [k] digits is below 10^k. *)
Lemma of_uint_acc_bound (d : Decimal.uint) (acc : nat) :
  (Z.of_nat (Nat.of_uint_acc d acc)
   < (Z.of_nat acc + 1) * 10 ^ Z.of_nat (String.length (NilEmpty.string_of_uint d)))%Z.
Proof.
  revert acc.
  induction d as [|d IH|d IH|d IH|d IH|d IH|d IH|d IH|d IH|d IH|d IH];
    intro acc; [simpl; lia|..];
    cbn [NilEmpty.string_of_uint Nat.of_uint_acc];
    match goal with
    | |- context [Nat.of_uint_acc d ?a] => pose proof (IH a) as B
    end;
    rewrite Nat.tail_mul_spec in B;
    match goal with
    | |- context [String.length (String ?c ?s)] =>
        change (String.length (String c s)) with (S (String.length s))
    end;
    rewrite Nat2Z.inj_succ, Z.pow_succ_r by lia;
    set (p := (10 ^ Z.of_nat (String.length (NilEmpty.string_of_uint d)))%Z) in *;
    assert (0 < p)%Z by (apply Z.pow_pos_nonneg; lia);
    rewrite Nat.tail_mul_spec; nia.
Qed.

Lemma nat_toString_length (n : nat) :
  1000 <= n -> 4 <= String.length (nat_toString n).
Proof.
  intro H. unfold nat_toString.
  pose proof (of_uint_acc_bound (Nat.to_uint n) 0) as B.
  fold (Nat.of_uint (Nat.to_uint n)) in B.
  rewrite DecimalNat.Unsigned.of_to in B.
  destruct (le_lt_dec 4 (String.length (NilEmpty.string_of_uint (Nat.to_uint n))))
    as [L|L]; [assumption|exfalso].
  assert (P : (10 ^ Z.of_nat (String.length (NilEmpty.string_of_uint (Nat.to_uint n)))
               <= 10 ^ 3)%Z) by (apply Z.pow_le_mono_r; lia).
  change (10 ^ 3)%Z with 1000%Z in P. lia.
Qed.

Lemma year_plain_fact (y : Z) :
  (1000 <= y)%Z -> pad 4 y = toString (Num y).
Proof.
  intro H. unfold pad, padStart. rewrite toString_nonneg by lia.
  pose proof (nat_toString_length (Z.to_nat y) ltac:(lia)) as L.
  replace (4 - String.length (nat_toString (Z.to_nat y))) with 0 by lia.
  reflexivity.
Qed.

Lemma year_facts (y : Z) :
  (0 <= y <= 9999)%Z -> no_dash (pad 4 y) = true /\ Number_ (pad 4 y) = Num y.
Proof. intro H. apply pad_facts. lia. Qed.

Lemma month_facts (m : Z) :
  (1 <= m <= 12)%Z -> no_dash (pad 2 m) = true /\ Number_ (pad 2 m) = Num m.
Proof. intro H. apply pad_facts. lia. Qed.

Lemma split_iso_month (y m : Z) :
  (0 <= y <= 9999)%Z -> (1 <= m <= 12)%Z ->
  map Number_ (split "-" (iso_month y m)) = [Num y; Num m].
Proof.
  intros Hy Hm. destruct (year_facts y Hy) as [Y1 Y2].
  destruct (month_facts m Hm) as [M1 M2].
  unfold split, iso_month.
  change ("-" ++ pad 2 m)%string with (String "-" (pad 2 m)).
  rewrite split_field by assumption. rewrite split_last by assumption.
  simpl. now rewrite Y2, M2.
Qed.

(** [nextMonth] on a well-formed month. *)
Lemma nextMonth_following (y m : Z) :
  (0 <= y <= 9999)%Z -> (1 <= m <= 12)%Z ->
  nextMonth (iso_month y m)
  = first_day_literal (fst (following_month y m)) (snd (following_month y m)).
Proof.
  intros Hy Hm. unfold nextMonth. rewrite split_iso_month by assumption.
  simpl nth_error. unfold is12, following_month, first_day_literal.
  destruct (m =? 12)%Z eqn:E; simpl fst; simpl snd.
  - reflexivity.
  - reflexivity.
Qed.

Lemma first_day_iso (y m : Z) :
  (1000 <= y)%Z -> first_day_literal y m = iso_date y m 1.
Proof.
  intro H. unfold first_day_literal, iso_date.
  now rewrite year_plain_fact by assumption.
Qed.

Lemma compiled_conds_head (query : query) :
  exists rest,
    compiled_conds query
    = StateIn :: DateGe 1 :: cl_cond (cl_dateTo query) 1 :: rest.
Proof.
  unfold compiled_conds, clauses. simpl.
  destruct (assemble _ (optional_clauses query)) as [cs ps]. simpl.
  now exists cs.
Qed.

Lemma compiled_params_head (query : query) :
  exists rest,
    compiled_params query
    = PStr (or_default (dateFrom query) "2025-01" ++ "-01")
      :: cl_params (cl_dateTo query) ++ rest.
Proof.
  unfold compiled_params, clauses. simpl.
  destruct (assemble _ (optional_clauses query)) as [cs ps]. simpl.
  now exists ps.
Qed.

Lemma present_some (v : option string) (s : string) :
  v = Some s -> s <> "" -> present v = Some s.
Proof.
  intros -> H. unfold present. now destruct (String.eqb_spec s "").
Qed.

Lemma iso_month_nonempty (y m : Z) : iso_month y m <> "".
Proof.
  unfold iso_month. destruct (pad 4 y); discriminate.
Qed.

End UpperBound.



(** *** What the compiled predicate means *)

Section Meaning.
Variable E : engine.

Lemma all_some_in {A B} (f : A -> option B) (l : list A) (bs : list B) (a : A) :
  all_some (map f l) = Some bs -> In a l -> exists b, f a = Some b /\ In b bs.
Proof.
  revert bs. induction l as [|x l IH]; intros bs H Hin; [contradiction|].
  simpl in H. destruct (f x) as [bx|] eqn:Ex; [|discriminate].
  destruct (all_some (map f l)) as [bl|] eqn:El; [|discriminate].
  simpl in H. injection H as <-.
  destruct Hin as [<-|Hin].
  - exists bx. split; [assumption|now left].
  - destruct (IH bl eq_refl Hin) as (b & Hb & Hbl).
    exists b. split; [assumption|now right].
Qed.

Lemma all_some_forall {A B} (f : A -> option B) (l : list A) (bs : list B) (b : B) :
  all_some (map f l) = Some bs -> In b bs -> exists a, In a l /\ f a = Some b.
Proof.
  revert bs. induction l as [|x l IH]; intros bs H Hin.
  - injection H as <-. contradiction.
  - simpl in H. destruct (f x) as [bx|] eqn:Ex; [|discriminate].
    destruct (all_some (map f l)) as [bl|] eqn:El; [|discriminate].
    simpl in H. injection H as <-.
    destruct Hin as [<-|Hin].
    + exists x. split; [now left|assumption].
    + destruct (IH bl eq_refl Hin) as (a & Ha & Hfa).
      exists a. split; [now right|assumption].
Qed.

(** AND over the conditions: the predicate is TRUE exactly when every
    condition is. *)
Lemma conj_true (bs : list bound) (l : line) :
  is_true (conjunction E bs l) = true <-> forall b, In b bs -> holds E b l = Some true.
Proof.
  induction bs as [|b bs IH]; simpl.
  - split; [intros _ b []|reflexivity].
  - split.
    + intros H b' [<-|Hin].
      * destruct (holds E b l) as [[]|], (conjunction E bs l) as [[]|];
          simpl in H; try discriminate; reflexivity.
      * apply IH; [|assumption].
        destruct (holds E b l) as [[]|], (conjunction E bs l) as [[]|];
          simpl in H; try discriminate; reflexivity.
    + intro H. rewrite (H b (or_introl eq_refl)).
      assert (T : is_true (conjunction E bs l) = true)
        by (apply IH; intros b' Hb; apply H; now right).
      destruct (conjunction E bs l) as [[]|]; simpl in T; try discriminate; reflexivity.
Qed.

(** A selected row makes every compiled condition TRUE. *)
Lemma selected_holds (query : query) (db rows : list line) (l : line) (c : cond) :
  selected E query db = Some rows -> In l rows -> In c (compiled_conds query) ->
  exists b, bind E (compiled_params query) c = Some b /\ holds E b l = Some true.
Proof.
  unfold selected, where_rows. intros H Hl Hc.
  destruct (all_some (map (bind E (compiled_params query)) (compiled_conds query)))
    as [bs|] eqn:Ebs; [|discriminate].
  injection H as <-. apply filter_In in Hl as [_ Ht].
  destruct (all_some_in _ _ _ c Ebs Hc) as (b & Hb & Hin).
  exists b. split; [assumption|]. now apply (conj_true bs l).
Qed.

Lemma selected_iff (query : query) (db rows : list line) (l : line) :
  selected E query db = Some rows ->
  (In l rows <->
   In l db /\ forall c, In c (compiled_conds query) ->
              exists b, bind E (compiled_params query) c = Some b
                        /\ holds E b l = Some true).
Proof.
  intro H. split.
  - intro Hl. split.
    + unfold selected, where_rows in H.
      destruct (all_some _) as [bs|]; [|discriminate].
      injection H as <-. now apply filter_In in Hl as [? _].
    + intros c Hc. now apply (selected_holds query db rows).
  - intros [Hdb Hall]. unfold selected, where_rows in H.
    destruct (all_some (map (bind E (compiled_params query)) (compiled_conds query)))
      as [bs|] eqn:Ebs; [|discriminate].
    injection H as <-. apply filter_In. split; [assumption|].
    apply conj_true. intros b Hb.
    destruct (all_some_forall _ _ _ b Ebs Hb) as (c & Hc & Hbind).
    destruct (Hall c Hc) as (b' & Hb' & Hh). congruence.
Qed.

End Meaning.

(** *** Where a clause lands *)

Section ClausePosition.

Lemma compiled_split (query : query) (l1 l2 : list clause) (c : clause) :
  clauses query = l1 ++ c :: l2 ->
  In (cl_cond c (pcount 0 l1)) (compiled_conds query)
  /\ exists p1 p2, compiled_params query = p1 ++ cl_params c ++ p2
                   /\ List.length p1 = pcount 0 l1.
Proof.
  intro H. unfold compiled_conds, compiled_params. rewrite H.
  rewrite assemble_app. simpl fst. simpl snd.
  cbn [assemble].
  destruct (assemble (pcount 0 l1 + List.length (cl_params c)) l2) as [cs ps].
  simpl. split.
  - apply in_or_app. right. now left.
  - exists (snd (assemble 0 l1)), ps. split; reflexivity.
Qed.

Lemma text_param_at (p1 p2 : list param) (s : string) :
  text_param (p1 ++ PStr s :: p2) (List.length p1 + 1) = Some s.
Proof.
  unfold text_param, param_at. rewrite Nat.add_1_r.
  rewrite nth_error_app2 by lia. now rewrite Nat.sub_diag.
Qed.

(** The category condition of a level whose field is set, with its
    parameter. *)
Lemma cat_clause (query : query) (level : nat) (v : string) :
  (level = 1 /\ present (catL1 query) = Some v)
  \/ (level = 2 /\ present (catL2 query) = Some v)
  \/ (level = 3 /\ present (catL3 query) = Some v) ->
  exists k, In (CatEq level k) (compiled_conds query)
            /\ text_param (compiled_params query) k = Some v.
Proof.
  intros [[-> H]|[[-> H]|[-> H]]].
  - destruct (compiled_split query
                [cl_state; cl_dateFrom query; cl_dateTo query]
                (cl_cat 2 (catL2 query) ++ cl_cat 3 (catL3 query)
                 ++ cl_search query ++ cl_skus query ++ cl_tmpl query)
                (mkClause [PStr v] (fun base => CatEq 1 (base + 1))))
      as (Hin & p1 & p2 & Hp & Hlen).
    { unfold clauses, optional_clauses, cl_cat at 1, opt_clause. now rewrite H. }
    eexists. split; [exact Hin|]. rewrite Hp, <- Hlen. apply text_param_at.
  - destruct (compiled_split query
                ([cl_state; cl_dateFrom query; cl_dateTo query]
                 ++ cl_cat 1 (catL1 query))
                (cl_cat 3 (catL3 query)
                 ++ cl_search query ++ cl_skus query ++ cl_tmpl query)
                (mkClause [PStr v] (fun base => CatEq 2 (base + 1))))
      as (Hin & p1 & p2 & Hp & Hlen).
    { unfold clauses, optional_clauses, cl_cat at 2, opt_clause. rewrite H.
      now rewrite <- !app_assoc. }
    eexists. split; [exact Hin|]. rewrite Hp, <- Hlen. apply text_param_at.
  - destruct (compiled_split query
                ([cl_state; cl_dateFrom query; cl_dateTo query]
                 ++ cl_cat 1 (catL1 query) ++ cl_cat 2 (catL2 query))
                (cl_search query ++ cl_skus query ++ cl_tmpl query)
                (mkClause [PStr v] (fun base => CatEq 3 (base + 1))))
      as (Hin & p1 & p2 & Hp & Hlen).
    { unfold clauses, optional_clauses, cl_cat at 3, opt_clause. rewrite H.
      now rewrite <- !app_assoc. }
    eexists. split; [exact Hin|]. rewrite Hp, <- Hlen. apply text_param_at.
Qed.

(** A path with fewer than [level] segments has no segment at [level]:
    the comparison operand is NULL. *)
Lemma short_path_null (l : line) (level : nat) :
  segments l < level -> category_level level l = None.
Proof.
  unfold segments, category_level. intro H.
  destruct (pc_complete_name l) as [s|]; [|reflexivity].
  simpl. unfold split_part. rewrite nth_overflow by lia. reflexivity.
Qed.

End ClausePosition.

(** C2: when a category filter is set at level N, [buildWhere] pushes the
    condition [NULLIF(split_part(pc.complete_name,' / ',N),'') = $k] with
    the field as parameter k; a row whose category path has fewer than N
    segments (or no category at all) has NULL, not the empty string, for
    its level-N segment, the comparison is NULL, and the row is never among
    the rows the compiled predicate selects. *)
Theorem short_paths_never_match
  (E : engine) (query : query) (db rows : list line) (l : line)
  (level : nat) (v : string) :
  (level = 1 /\ present (catL1 query) = Some v)
  \/ (level = 2 /\ present (catL2 query) = Some v)
  \/ (level = 3 /\ present (catL3 query) = Some v) ->
  segments l < level ->
  selected E query db = Some rows ->
  (exists k,
      In ("NULLIF(split_part(pc.complete_name,' / '," ++ nat_toString level
          ++ "),'') = " ++ placeholder k)%string
         (conds (build query))
      /\ param_at (where_params (buildWhere query)) k = Some (PStr v))
  /\ category_level level l = None
  /\ text_eq (category_level level l) (Some v) = None
  /\ ~ In l rows.
Proof.
  intros Hset Hshort Hsel.
  pose proof (short_path_null l level Hshort) as Hnull.
  destruct (cat_clause query level v Hset) as (k & Hc & Hk).
  destruct (build_compiled query) as [Ec Ep].
  split.
  { exists k. split.
    - rewrite Ec. apply (in_map render _ _ Hc).
    - unfold buildWhere. simpl where_params. rewrite Ep.
      unfold text_param in Hk.
      destruct (param_at (compiled_params query) k) as [[s|n]|];
        try discriminate. now injection Hk as ->. }
  split; [assumption|]. split; [now rewrite Hnull|].
  intro Hin.
  destruct (selected_holds E query db rows l _ Hsel Hin Hc) as (b & Hb & Hh).
  simpl in Hb. rewrite Hk in Hb. injection Hb as <-.
  simpl in Hh. rewrite Hnull in Hh. discriminate.
Qed.

Section SearchParameter.

Lemma param_at_app (p1 p2 : list param) (p : param) :
  param_at (p1 ++ p :: p2) (List.length p1 + 1) = Some p.
Proof.
  unfold param_at. rewrite Nat.add_1_r.
  rewrite nth_error_app2 by lia. now rewrite Nat.sub_diag.
Qed.

(** The search parameter sits at the search slot. *)
Lemma search_param (query : query) (s : string) :
  present (search query) = Some s ->
  exists k, search_slot query = Some k
            /\ param_at (compiled_params query) k = Some (PStr ("%" ++ s ++ "%")).
Proof.
  intro H.
  destruct (compiled_split query (before_search query) (after_search query)
              (mkClause [PStr ("%" ++ s ++ "%")] (fun base => SearchLike (base + 1))))
    as (_ & p1 & p2 & Hp & Hlen).
  { rewrite clauses_split. unfold cl_search, opt_clause. now rewrite H. }
  exists (List.length p1 + 1). split.
  - unfold search_slot. rewrite H, Hlen, pcount_before. reflexivity.
  - rewrite Hp. apply param_at_app.
Qed.

End SearchParameter.

(** C1, as stated, fails: with only [search] set, [buildWhere] returns two
    parameters while its predicate string references [$1], [$2] and [$2]
    again, so placeholder 2 does not appear exactly once and the
    occurrences outnumber the parameters. *)
Lemma buildWhere_search_placeholder_twice :
  let w := buildWhere search_only in
  where_params w = [PStr "2025-01-01"; PStr "%m8%"]
  /\ placeholders (where_ w) = [1; 2; 2]
  /\ ~ NoDup (placeholders (where_ w))
  /\ List.length (placeholders (where_ w)) <> List.length (where_params w).
Proof.
  cbv zeta. split; [reflexivity|]. split; [reflexivity|]. split.
  - change (placeholders (where_ (buildWhere search_only))) with [1; 2; 2].
    intro H. inversion H as [|? ? _ H2]. inversion H2 as [|? ? Hin _].
    apply Hin. now left.
  - vm_compute. discriminate.
Qed.

(** C1, amended: the placeholders of the predicate string, read left to
    right, are 1, 2, ..., n for n the length of the parameter list, each
    once, except that the search parameter's index, when the search step
    runs, occurs twice in a row (both sides of its OR); with adjacent
    repetitions collapsed, placeholder k is the k-th reference and binds
    the k-th parameter. *)
Theorem buildWhere_placeholders (query : query) :
  let w := buildWhere query in
  let n := List.length (where_params w) in
  placeholders (where_ w)
  = match search_slot query with
    | None => seq 1 n
    | Some k => seq 1 k ++ k :: seq (k + 1) (n - k)
    end
  /\ uniq_adj (placeholders (where_ w)) = seq 1 n
  /\ match search_slot query with
     | None => present (search query) = None
     | Some k =>
         1 <= k <= n
         /\ exists s, present (search query) = Some s
                      /\ param_at (where_params w) k = Some (PStr ("%" ++ s ++ "%"))
     end.
Proof.
  cbv zeta. rewrite where_refs, where_pcount, refs_clauses.
  pose proof (search_slot_bounds query) as Hb.
  pose proof (search_param query) as Hs.
  destruct (search_slot query) as [k|] eqn:Ek.
  - specialize (Hb k eq_refl). repeat split; try lia.
    + now apply seq_dup_collapse.
    + destruct (present (search query)) as [s|] eqn:Es.
      2:{ unfold search_slot in Ek. rewrite Es in Ek. discriminate. }
      exists s. split; [reflexivity|].
      destruct (Hs s eq_refl) as (k' & Hk' & Hp).
      assert (k' = k) as -> by congruence.
      unfold buildWhere. simpl where_params.
      destruct (build_compiled query) as [_ Ep]. now rewrite Ep.
  - repeat split; [apply uniq_adj_seq|].
    unfold search_slot in Ek. now destruct (present (search query)).
Qed.

(** *** The conjuncts of the predicate *)

Section Conjuncts.

Lemma conds_app (base : nat) (l1 l2 : list clause) :
  fst (assemble base (l1 ++ l2))
  = fst (assemble base l1) ++ fst (assemble (base + pcount base l1) l2).
Proof. now rewrite assemble_app. Qed.

Lemma params_app (base : nat) (l1 l2 : list clause) :
  snd (assemble base (l1 ++ l2))
  = snd (assemble base l1) ++ snd (assemble (base + pcount base l1) l2).
Proof. now rewrite assemble_app. Qed.

Lemma conds_cat (base level : nat) (v : option string) :
  fst (assemble base (cl_cat level v)) = when_present v (CatEq level (base + 1)).
Proof. unfold cl_cat, opt_clause, when_present. now destruct (present v). Qed.

Lemma conds_search (base : nat) (query : query) :
  fst (assemble base (cl_search query))
  = when_present (search query) (SearchLike (base + 1)).
Proof.
  unfold cl_search, opt_clause, when_present. now destruct (present (search query)).
Qed.

Lemma conds_skus (base : nat) (query : query) :
  fst (assemble base (cl_skus query))
  = match present (skus query) with
    | Some s => in_cond SkuIn (base + 1) (skuList s)
    | None => []
    end.
Proof.
  unfold cl_skus, opt_clause. destruct (present (skus query)) as [s|]; [|reflexivity].
  now destruct (skuList s).
Qed.

Lemma conds_tmpl (base : nat) (query : query) :
  fst (assemble base (cl_tmpl query))
  = match present (productTmplIds query) with
    | Some s => in_cond TmplIn (base + 1) (tmplIds s)
    | None => []
    end.
Proof.
  unfold cl_tmpl, opt_clause.
  destruct (present (productTmplIds query)) as [s|]; [|reflexivity].
  now destruct (tmplIds s).
Qed.

Lemma params_skus (base : nat) (query : query) :
  snd (assemble base (cl_skus query))
  = match present (skus query) with
    | Some s => map PStr (skuList s)
    | None => []
    end.
Proof.
  unfold cl_skus, opt_clause. destruct (present (skus query)) as [s|]; [|reflexivity].
  destruct (skuList s); [reflexivity|]. simpl. now rewrite app_nil_r.
Qed.

Lemma params_tmpl (base : nat) (query : query) :
  snd (assemble base (cl_tmpl query))
  = match present (productTmplIds query) with
    | Some s => map PNum (tmplIds s)
    | None => []
    end.
Proof.
  unfold cl_tmpl, opt_clause.
  destruct (present (productTmplIds query)) as [s|]; [|reflexivity].
  destruct (tmplIds s); [reflexivity|]. simpl. now rewrite app_nil_r.
Qed.

(** Binding a run of placeholders over the run of parameters they stand
    for. *)
Lemma bind_run {A} (get : list param -> nat -> option A) (inj : A -> param)
  (P : A -> Prop)
  (Hget : forall p1 p2 a,
      P a -> get (p1 ++ inj a :: p2) (List.length p1 + 1) = Some a)
  (vs : list A) (p1 p2 : list param) :
  Forall P vs ->
  all_some (map (get (p1 ++ map inj vs ++ p2))
                (seq (List.length p1 + 1) (List.length vs)))
  = Some vs.
Proof.
  revert p1. induction vs as [|v vs IH]; intros p1 HP; [reflexivity|].
  inversion HP as [|? ? Hv Hvs]; subst.
  simpl. rewrite Hget by assumption.
  replace (p1 ++ inj v :: map inj vs ++ p2)
    with ((p1 ++ [inj v]) ++ map inj vs ++ p2) by now rewrite <- app_assoc.
  replace (S (List.length p1 + 1)) with (List.length (p1 ++ [inj v]) + 1)
    by (rewrite length_app; simpl; lia).
  now rewrite IH.
Qed.

Lemma int_param_at (p1 p2 : list param) (z : Z) :
  int4 z ->
  int_param (p1 ++ PNum (Num z) :: p2) (List.length p1 + 1) = Some z.
Proof.
  intros [Hlo Hhi]. unfold int_param, param_at. rewrite Nat.add_1_r.
  rewrite nth_error_app2 by lia. rewrite Nat.sub_diag. cbn [nth_error].
  assert (A : (- 2 ^ 31 <=? z)%Z = true) by now apply Z.leb_le.
  assert (B : (z <? 2 ^ 31)%Z = true) by now apply Z.ltb_lt.
  now rewrite A, B.
Qed.

(** [x IN (v1, ..., vn)] is TRUE exactly when [x] is one of the values. *)
Lemma text_in_true (a : option string) (vs : list string) :
  text_in a vs = Some true <-> exists v, In v vs /\ a = Some v.
Proof.
  unfold text_in. destruct a as [x|].
  - split.
    + intros [= H]. apply existsb_exists in H as (v & Hin & Heq).
      apply String.eqb_eq in Heq. subst. now exists v.
    + intros (v & Hin & [= ->]). f_equal. apply existsb_exists.
      exists v. split; [assumption|apply String.eqb_refl].
  - split; [discriminate|]. now intros (v & _ & H).
Qed.

Lemma tmpl_in_true (x : Z) (ids : list Z) :
  existsb (Z.eqb x) ids = true <-> In x ids.
Proof.
  rewrite existsb_exists. split.
  - intros (v & Hin & Heq). apply Z.eqb_eq in Heq. now subst.
  - intro H. exists x. split; [assumption|apply Z.eqb_refl].
Qed.

Lemma clauses_head (query : query) :
  clauses query = head_clauses query ++ cl_skus query ++ cl_tmpl query.
Proof.
  unfold clauses, optional_clauses, head_clauses, before_search. simpl.
  now rewrite <- !app_assoc.
Qed.

Lemma compiled_params_tail (query : query) :
  compiled_params query
  = snd (assemble 0 (head_clauses query))
    ++ match present (skus query) with
       | Some s => map PStr (skuList s)
       | None => []
       end
    ++ match present (productTmplIds query) with
       | Some s => map PNum (tmplIds s)
       | None => []
       end.
Proof.
  unfold compiled_params. rewrite clauses_head.
  rewrite !params_app. now rewrite params_skus, params_tmpl.
Qed.

Lemma compiled_conds_shape (query : query) :
  let a := pcount 0 (head_clauses query) in
  let b := a + pcount a (cl_skus query) in
  exists k1 k2 k3 k4,
    compiled_conds query
    = [StateIn; DateGe 1;
       match present (dateTo query) with
       | Some _ => DateLt 2
       | None => DateLtSentinel
       end]
      ++ when_present (catL1 query) (CatEq 1 k1)
      ++ when_present (catL2 query) (CatEq 2 k2)
      ++ when_present (catL3 query) (CatEq 3 k3)
      ++ when_present (search query) (SearchLike k4)
      ++ match present (skus query) with
         | Some s => in_cond SkuIn (a + 1) (skuList s)
         | None => []
         end
      ++ match present (productTmplIds query) with
         | Some s => in_cond TmplIn (b + 1) (tmplIds s)
         | None => []
         end.
Proof.
  cbv zeta. unfold compiled_conds. rewrite clauses_head.
  rewrite !conds_app. rewrite conds_skus, conds_tmpl. simpl "+".
  unfold head_clauses at 1. unfold before_search at 1.
  rewrite <- !app_assoc. rewrite !conds_app. rewrite !conds_cat, conds_search.
  do 4 eexists. rewrite <- !app_assoc.
  f_equal. unfold cl_dateTo. now destruct (present (dateTo query)).
Qed.

End Conjuncts.

Section ConjunctBinding.

Lemma bind_skus (E : engine) (query : query) (s : string) :
  present (skus query) = Some s ->
  bind E (compiled_params query)
       (SkuIn (seq (pcount 0 (head_clauses query) + 1) (List.length (skuList s))))
  = Some (BSkuIn (skuList s)).
Proof.
  intro H. rewrite compiled_params_tail, H. simpl bind.
  unfold pcount.
  rewrite (bind_run text_param PStr (fun _ => True)).
  - reflexivity.
  - intros p1 p2 a _. apply text_param_at.
  - now apply Forall_forall.
Qed.

Lemma bind_tmpl (E : engine) (query : query) (s : string) (zs : list Z) :
  present (productTmplIds query) = Some s ->
  tmplIds s = map Num zs -> Forall int4 zs ->
  bind E (compiled_params query)
       (TmplIn (seq (pcount 0 (head_clauses query)
                     + pcount (pcount 0 (head_clauses query)) (cl_skus query) + 1)
                    (List.length zs)))
  = Some (BTmplIn zs).
Proof.
  intros H Hz Hr. rewrite compiled_params_tail, H, Hz. simpl bind.
  rewrite app_assoc. rewrite map_map.
  replace (pcount 0 (head_clauses query)
           + pcount (pcount 0 (head_clauses query)) (cl_skus query))
    with (List.length
            (snd (assemble 0 (head_clauses query))
             ++ match present (skus query) with
                | Some s0 => map PStr (skuList s0)
                | None => []
                end)).
  2:{ rewrite length_app. unfold pcount. now rewrite params_skus. }
  rewrite <- (app_nil_r (map (fun x => PNum (Num x)) zs)).
  rewrite (bind_run int_param (fun z => PNum (Num z)) int4).
  - reflexivity.
  - intros p1 p2 a Ha. now apply int_param_at.
  - assumption.
Qed.

End ConjunctBinding.

(** C9, as stated, fails for [dateTo]: with every filter field absent the
    predicate still has a conjunct for the upper date bound. *)
Lemma absent_dateTo_contributes :
  ~ (forall query : query,
        present (dateTo query) = None ->
        List.length (conds (build query))
        = 2 + pushed (catL1 query) + pushed (catL2 query) + pushed (catL3 query)
          + pushed (search query)
          + List.length (cl_skus query) + List.length (cl_tmpl query)).
Proof.
  intro H. specialize (H empty_query eq_refl). vm_compute in H. discriminate.
Qed.

(** C9, amended: the predicate string is the conjuncts joined with AND;
    the order-state restriction, the lower date bound and an upper date
    bound (the sentinel when [dateTo] is absent or empty) are always its
    first three conjuncts; each of [catL1], [catL2], [catL3] and [search]
    adds one conjunct when set and none when absent or empty; [skus] and
    [productTmplIds] each add a single IN conjunct over the values kept,
    and none when absent, empty or left without a value.  A row is selected
    exactly when every conjunct is TRUE, and an IN conjunct is TRUE exactly
    when the row's value is one of the listed values. *)
Theorem buildWhere_conjuncts (query : query) :
  let w := buildWhere query in
  where_ w = join " AND " (map render (compiled_conds query))
  /\ where_params w = compiled_params query
  /\ (exists k1 k2 k3 k4 k5 k6,
        compiled_conds query
        = [StateIn; DateGe 1;
           match present (dateTo query) with
           | Some _ => DateLt 2
           | None => DateLtSentinel
           end]
          ++ when_present (catL1 query) (CatEq 1 k1)
          ++ when_present (catL2 query) (CatEq 2 k2)
          ++ when_present (catL3 query) (CatEq 3 k3)
          ++ when_present (search query) (SearchLike k4)
          ++ match present (skus query) with
             | Some s => in_cond SkuIn k5 (skuList s)
             | None => []
             end
          ++ match present (productTmplIds query) with
             | Some s => in_cond TmplIn k6 (tmplIds s)
             | None => []
             end
        /\ (forall E s,
               present (skus query) = Some s ->
               bind E (compiled_params query)
                    (SkuIn (seq k5 (List.length (skuList s))))
               = Some (BSkuIn (skuList s)))
        /\ (forall E s zs,
               present (productTmplIds query) = Some s ->
               tmplIds s = map Num zs -> Forall int4 zs ->
               bind E (compiled_params query) (TmplIn (seq k6 (List.length zs)))
               = Some (BTmplIn zs)))
  /\ (forall E db rows l,
         selected E query db = Some rows ->
         (In l rows <->
          In l db
          /\ forall c, In c (compiled_conds query) ->
                       exists b, bind E (compiled_params query) c = Some b
                                 /\ holds E b l = Some true))
  /\ (forall E vs l,
         holds E (BSkuIn vs) l = Some true
         <-> exists v, In v vs /\ sku_of l = Some v)
  /\ (forall E ids l,
         holds E (BTmplIn ids) l = Some true <-> In (pp_product_tmpl_id l) ids).
Proof.
  cbv zeta. destruct (build_compiled query) as [Hc Hp].
  split; [unfold buildWhere; simpl; now rewrite Hc|].
  split; [unfold buildWhere; simpl; now rewrite Hp|].
  split.
  - destruct (compiled_conds_shape query) as (k1 & k2 & k3 & k4 & Hs).
    exists k1, k2, k3, k4. do 2 eexists. split; [exact Hs|]. split.
    + intros E s H. exact (bind_skus E query s H).
    + intros E s zs H Hz Hr. exact (bind_tmpl E query s zs H Hz Hr).
  - split; [intros E db rows l H; now apply selected_iff|]. split.
    + intros E vs l. apply text_in_true.
    + intros E ids l. simpl. split.
      * intros [= H]. now apply tmpl_in_true.
      * intro H. f_equal. now apply tmpl_in_true.
Qed.

Section KpiPercentages.


End KpiPercentages.


(** *** Page bounds and the sort column *)

Section LinesLocals.

Lemma handler_rejected (E : engine) (db : list line) (query : query)
  (r : response Lines.body) :
  Lines.plan_of query = None ->
  (Lines.handler E db query r <-> r = ServerError).
Proof.
  intro H. unfold Lines.handler. rewrite H.
  now destruct (selected E query db).
Qed.

End LinesLocals.

(** C4 at [page=abc] and at [pageSize=abc]: [parseInt] yields NaN, which
    [Math.max] and [Math.min] pass on, so the effective page (page size)
    is NaN rather than 1 (50), the data statement ends in
    [OFFSET NaN] ([LIMIT NaN OFFSET NaN]), and the request is answered
    with the 500 of the [catch]. *)
Lemma lines_page_not_clamped :
  Lines.page page_abc = NaN
  /\ Lines.limit_offset page_abc = "LIMIT 50 OFFSET NaN"
  /\ Lines.pageSize pageSize_abc = NaN
  /\ Lines.limit_offset pageSize_abc = "LIMIT NaN OFFSET NaN"
  /\ (forall E db r, Lines.handler E db page_abc r <-> r = ServerError)
  /\ (forall E db r, Lines.handler E db pageSize_abc r <-> r = ServerError).
Proof.
  repeat split; try reflexivity;
    try (now apply handler_rejected); try (now apply (handler_rejected E db)).
Qed.

(** C10 at [sortBy=constructor]: the property read finds
    [Object.prototype.constructor], a function, so the ORDER BY line of the
    data statement carries the function's source text and is none of the
    lines the allow-list stands for. *)
Lemma order_by_constructor :
  Lines.order_by sortBy_constructor
  = "ORDER BY function Object() { [native code] } DESC, sku ASC"
  /\ ~ In (Lines.order_by sortBy_constructor) Lines.allowed_order_by.
Proof.
  split; [reflexivity|].
  vm_compute. intuition discriminate.
Qed.

(** C7 at [sortBy=constructor]: the value is outside the allow-list, yet
    the sort column is not [month]: it is the inherited function, the data
    statement is rejected, and the request is answered with the 500 of the
    [catch] instead of rows sorted by month. *)
Lemma sortCol_constructor :
  Lines.assoc "constructor" Lines.SORTABLE = None
  /\ Lines.sortCol sortBy_constructor = Lines.Function "Object"
  /\ Lines.sortCol sortBy_constructor <> Lines.Str "month"
  /\ Lines.plan_of sortBy_constructor = None
  /\ (forall E db r, Lines.handler E db sortBy_constructor r <-> r = ServerError).
Proof.
  repeat split; try reflexivity; try discriminate;
    try (now apply handler_rejected); try (now apply (handler_rejected E db)).
Qed.

(** *** Windows of an ordered result *)

Section Windows.
Context {A : Type}.



Variable R : A -> A -> Prop.

Lemma StronglySorted_skipn (n : nat) (l : list A) :
  StronglySorted R l -> StronglySorted R (skipn n l).
Proof.
  revert l. induction n as [|n IH]; intros l H; [assumption|].
  destruct l as [|x l]; [constructor|].
  apply IH. now apply StronglySorted_inv in H.
Qed.

Lemma StronglySorted_firstn (n : nat) (l : list A) :
  StronglySorted R l -> StronglySorted R (firstn n l).
Proof.
  revert l. induction n as [|n IH]; intros l H; [constructor|].
  destruct l as [|x l]; [constructor|].
  apply StronglySorted_inv in H as [Hl Hx]. simpl. constructor.
  - now apply IH.
  - apply Forall_forall. intros y Hy.
    rewrite Forall_forall in Hx. apply Hx.
    rewrite <- (firstn_skipn n l). apply in_or_app. now left.
Qed.


End Windows.

(** *** Requests with the same filter *)

Section SameFilter.




(** What a successful response is made of. *)
Lemma handler_json (E : engine) (db : list line) (query : query) (b : Lines.body) :
  Lines.handler E db query (Json b) ->
  exists rows p out,
    selected E query db = Some rows /\ Lines.plan_of query = Some p
    /\ Lines.ordered E (Lines.plan_col p) (Lines.plan_dir p) (Lines.plan_tie p)
                     (Lines.rollups rows) out
    /\ Lines.total b = Num (Lines.count_groups rows)
    /\ Lines.data b = Lines.window (Lines.plan_limit p) (Lines.plan_offset p) out.
Proof.
  unfold Lines.handler.
  destruct (selected E query db) as [rows|]; [|discriminate].
  destruct (Lines.plan_of query) as [p|]; [|discriminate].
  intros (out & Ho & [= ->]). now exists rows, p, out.
Qed.

End SameFilter.

Section Pages.
Variable E : engine.
Variable db : list line.



End Pages.


Section Checking.
Context {A : Type}.
Variable leb : A -> A -> bool.

Lemma sortedb_sound (l : list A) :
  Lines.sortedb leb l = true -> StronglySorted (fun a b => leb a b = true) l.
Proof.
  induction l as [|x l IH]; intro H; [constructor|].
  simpl in H. apply andb_true_iff in H as [Hx Hl].
  constructor; [now apply IH|].
  apply Forall_forall. now apply forallb_forall.
Qed.

End Checking.

Section ElevenBolts.




End ElevenBolts.


Section TwoParts.

Lemma parts_selected :
  selected Sample.engine (page_of_ten "1") Sample.two_parts = Some Sample.two_parts.
Proof. vm_compute. reflexivity. Qed.

Lemma parts_page1_ok :
  Lines.handler Sample.engine Sample.two_parts (page_of_ten "1") (Json Sample.parts_page1).
Proof.
  unfold Lines.handler. rewrite parts_selected.
  change (Lines.plan_of (page_of_ten "1"))
    with (Some (Lines.mkPlan Lines.ColMonth "DESC" "ASC" 10 0)).
  exists (Lines.rollups Sample.two_parts). split; [split|].
  - apply Permutation_refl.
  - apply sortedb_sound. vm_compute. reflexivity.
  - vm_compute. reflexivity.
Qed.


End TwoParts.



Lemma short_paths_never_match_uncut :
  (exists k,
      In ("NULLIF(split_part(pc.complete_name,' / '," ++ nat_toString 2
          ++ "),'') = " ++ placeholder k)%string
         (conds (build steel_only))
      /\ param_at (where_params (buildWhere steel_only)) k = Some (PStr "Steel"))
  /\ category_level 2 Sample.uncut = None
  /\ text_eq (category_level 2 Sample.uncut) (Some "Steel") = None
  /\ ~ In Sample.uncut (Sample.part 1 "A-1" :: nil).
Proof.
  apply (short_paths_never_match Sample.engine steel_only
           [Sample.uncut; Sample.part 1 "A-1"] [Sample.part 1 "A-1"]
           Sample.uncut 2 "Steel").
  - right. left. split; reflexivity.
  - vm_compute. lia.
  - vm_compute. reflexivity.
Defined.

(** C8: when [q], trimmed, is shorter than one code unit (or absent), both
    typeahead handlers answer with the empty list and execute no
    statement, whatever the pool would have returned. *)
Theorem typeahead_short_query
  (row : Type) (pool_query : string -> list param -> string + list row)
  (query : query) :
  String.length (trim (or_default (q query) "")) < 1 ->
  Typeahead.products row pool_query query = Typeahead.mkOutcome row (Typeahead.Rows []) []
  /\ Typeahead.skus row pool_query query = Typeahead.mkOutcome row (Typeahead.Rows []) [].
Proof.
  intro H. apply Nat.ltb_lt in H.
  unfold Typeahead.products, Typeahead.skus. now rewrite H.
Qed.

Lemma typeahead_blank_query :
  Typeahead.products unit (fun _ _ => inr [tt]) (typed "   ")
  = Typeahead.mkOutcome unit (Typeahead.Rows []) []
  /\ Typeahead.skus unit (fun _ _ => inr [tt]) (typed "   ")
     = Typeahead.mkOutcome unit (Typeahead.Rows []) [].
Proof.
  apply (typeahead_short_query unit (fun _ _ => inr [tt]) (typed "   ")).
  vm_compute. lia.
Defined.

(** *** The lines handler on well-formed requests *)

Section WellFormed.

Lemma StronglySorted_weaken {A} (R S : A -> A -> Prop) (l : list A) :
  (forall a b, R a b -> S a b) -> StronglySorted R l -> StronglySorted S l.
Proof.
  intros HRS H. induction H as [|a l Hl IH Ha]; constructor; [assumption|].
  rewrite Forall_forall in *. intros b Hb. now apply HRS, Ha.
Qed.

Lemma before_spec (E : engine) (col : Lines.column) (dir tie : string)
  (a b : Lines.rollup) :
  Lines.before E col dir tie a b = true ->
  Lines.dir_leb E dir (Lines.column_value col a) (Lines.column_value col b) = true
  /\ (Lines.tied E (Lines.column_value col a) (Lines.column_value col b) = true ->
      Lines.dir_leb E tie (Lines.Text (Lines.sku a)) (Lines.Text (Lines.sku b)) = true).
Proof.
  unfold Lines.before, Lines.tied, Lines.dir_leb.
  destruct (Lines.value_leb E (Lines.column_value col a) (Lines.column_value col b)),
           (Lines.value_leb E (Lines.column_value col b) (Lines.column_value col a));
    simpl; intro H; split; try assumption; try discriminate;
    try (now destruct (dir =? "ASC")); auto.
Qed.

Lemma assoc_in {A} (k : string) (l : list (string * A)) (v : A) :
  Lines.assoc k l = Some v -> In (k, v) l.
Proof.
  induction l as [|[k' v'] l IH]; simpl; [discriminate|].
  destruct (String.eqb_spec k k') as [->|_].
  - intros [= ->]. now left.
  - intro H. right. now apply IH.
Qed.

Lemma sortable_columns (k c : string) :
  Lines.assoc k Lines.SORTABLE = Some c ->
  c <> "" /\ In c (map snd Lines.SORTABLE)
  /\ exists col, Lines.column_of_name c = Some col.
Proof.
  intro H. apply assoc_in in H. simpl in H.
  repeat (destruct H as [[= <- <-]|H];
          [split; [discriminate|]; split; [simpl; tauto|eexists; reflexivity]|]).
  contradiction.
Qed.

Lemma directions (query : query) :
  (Lines.sortDir query = "ASC" /\ Lines.tieDir query = "DESC")
  \/ (Lines.sortDir query = "DESC" /\ Lines.tieDir query = "ASC").
Proof.
  unfold Lines.tieDir, Lines.sortDir.
  destruct (Request.sortDir query) as [s|]; [|now right].
  destruct (s =? "asc"); [now left|now right].
Qed.

Lemma sortCol_own (query : query) (k c : string) :
  sortBy query = Some k -> Lines.assoc k Lines.SORTABLE = Some c ->
  Lines.sortCol query = Lines.Str c.
Proof.
  intros Hk Hc. unfold Lines.sortCol, Lines.SORTABLE_get. rewrite Hk, Hc.
  destruct (sortable_columns k c Hc) as (Hne & _).
  simpl. destruct (String.eqb_spec c ""); [contradiction|reflexivity].
Qed.

Lemma sortCol_fallback (query : query) :
  (forall k, sortBy query = Some k ->
             Lines.assoc k Lines.SORTABLE = None
             /\ Lines.assoc k Lines.Object_prototype = None) ->
  Lines.sortCol query = Lines.Str "month".
Proof.
  intro H. unfold Lines.sortCol, Lines.SORTABLE_get.
  destruct (sortBy query) as [k|].
  - destruct (H k eq_refl) as [H1 H2]. now rewrite H1, H2.
  - reflexivity.
Qed.

End WellFormed.

Section SortedData.

Lemma handler_sorted (E : engine) (db : list line) (query : query) (b : Lines.body) :
  Lines.handler E db query (Json b) ->
  exists col,
    Lines.column_of_name (Lines.interpolate (Lines.sortCol query)) = Some col
    /\ Lines.sorted_on E col (Lines.sortDir query) (Lines.tieDir query) (Lines.data b).
Proof.
  intro H. destruct (handler_json E db query b H)
    as (rows & p & out & _ & Hp & [_ Hs] & _ & Hd).
  unfold Lines.plan_of in Hp.
  destruct (Lines.column_of_name (Lines.interpolate (Lines.sortCol query)))
    as [col|]; [|discriminate].
  destruct (Lines.row_count (Lines.pageSize query)) as [lim|]; [|discriminate].
  destruct (Lines.row_count (Lines.offset query)) as [off|]; [|discriminate].
  injection Hp as <-. simpl in *.
  exists col. split; [reflexivity|]. rewrite Hd. unfold Lines.window, Lines.sorted_on.
  apply StronglySorted_firstn, StronglySorted_skipn.
  eapply StronglySorted_weaken; [|exact Hs].
  intros x y. apply before_spec.
Qed.

End SortedData.

(** The sorted part of C7: for a [sortBy] that is an own key of the
    allow-list, the rows of a successful response are sorted on that key's
    column in the requested direction (ascending only for [asc]), NULLs
    last when ascending, and rows that tie on the column are sorted on the
    SKU in the opposite direction. *)
Theorem lines_sorted_by_allowed_column
  (E : engine) (db : list line) (query : query) (k c : string) (b : Lines.body) :
  sortBy query = Some k -> Lines.assoc k Lines.SORTABLE = Some c ->
  Lines.handler E db query (Json b) ->
  exists col,
    Lines.column_of_name c = Some col
    /\ Lines.sorted_on E col (Lines.sortDir query) (Lines.tieDir query) (Lines.data b)
    /\ ((Lines.sortDir query = "ASC" /\ Lines.tieDir query = "DESC")
        \/ (Lines.sortDir query = "DESC" /\ Lines.tieDir query = "ASC")).
Proof.
  intros Hk Hc H. destruct (handler_sorted E db query b H) as (col & Hcol & Hs).
  rewrite (sortCol_own query k c Hk Hc) in Hcol.
  exists col. repeat split; try assumption. apply directions.
Qed.

(** The fallback of C7 where it holds: a [sortBy] that is absent, or names
    neither an own key of the allow-list nor a property every object
    inherits, sorts by month. *)
Theorem lines_sorted_by_month_otherwise
  (E : engine) (db : list line) (query : query) (b : Lines.body) :
  (forall k, sortBy query = Some k ->
             Lines.assoc k Lines.SORTABLE = None
             /\ Lines.assoc k Lines.Object_prototype = None) ->
  Lines.handler E db query (Json b) ->
  Lines.sortCol query = Lines.Str "month"
  /\ Lines.sorted_on E Lines.ColMonth (Lines.sortDir query) (Lines.tieDir query) (Lines.data b).
Proof.
  intros Hk H. pose proof (sortCol_fallback query Hk) as Hm.
  split; [assumption|].
  destruct (handler_sorted E db query b H) as (col & Hcol & Hs).
  rewrite Hm in Hcol. injection Hcol as <-. assumption.
Qed.

(** The ORDER BY line of C10 where it holds: unless [sortBy] names a
    property every object inherits, the line is one of the twenty-two the
    allow-list stands for, whatever [sortBy] and [sortDir] are. *)
Theorem order_by_allowed (query : query) :
  (forall k, sortBy query = Some k -> Lines.assoc k Lines.Object_prototype = None) ->
  In (Lines.order_by query) Lines.allowed_order_by.
Proof.
  intro Hk.
  assert (Hc : exists c, Lines.sortCol query = Lines.Str c
                         /\ In c (map snd Lines.SORTABLE)).
  { destruct (sortBy query) as [k|] eqn:Ek.
    - destruct (Lines.assoc k Lines.SORTABLE) as [c|] eqn:Ec.
      + exists c. split; [now apply (sortCol_own query k c)|].
        now apply (sortable_columns k c).
      + exists "month". split; [|simpl; tauto].
        apply sortCol_fallback. intros k' Hk'. rewrite Ek in Hk'.
        injection Hk' as <-. split; [assumption|now apply Hk].
    - exists "month". split; [|simpl; tauto].
      apply sortCol_fallback. intros k' Hk'. rewrite Ek in Hk'. discriminate. }
  destruct Hc as (c & Hs & Hin). unfold Lines.order_by. rewrite Hs.
  unfold Lines.allowed_order_by. apply in_flat_map. exists c.
  split; [assumption|].
  destruct (directions query) as [[-> ->]|[-> ->]]; simpl; tauto.
Qed.

(** The bounds of C4 where they hold: when [page] ([pageSize]) is absent,
    empty or starts, after white space and a sign, with a digit, the
    effective page is an integer of at least 1, 1 by default, and the
    effective page size an integer from 10 to 200, 50 by default. *)
Theorem lines_numeric_bounds (query : query) :
  (forall z, parseInt (or_default (Request.page query) "1") 0 = Num z ->
             Lines.page query = Num (Z.max 1 z) /\ (1 <= Z.max 1 z)%Z)
  /\ (forall z, parseInt (or_default (Request.pageSize query) "50") 0 = Num z ->
                Lines.pageSize query = Num (Z.min 200 (Z.max 10 z))
                /\ (10 <= Z.min 200 (Z.max 10 z) <= 200)%Z)
  /\ (present (Request.page query) = None -> Lines.page query = Num 1)
  /\ (present (Request.pageSize query) = None -> Lines.pageSize query = Num 50).
Proof.
  unfold Lines.page, Lines.pageSize. repeat split.
  - now rewrite H.
  - lia.
  - now rewrite H.
  - lia.
  - lia.
  - intro H. unfold present, or_default in *.
    destruct (Request.page query) as [s|]; [|reflexivity].
    destruct (s =? ""); [reflexivity|discriminate].
  - intro H. unfold present, or_default in *.
    destruct (Request.pageSize query) as [s|]; [|reflexivity].
    destruct (s =? ""); [reflexivity|discriminate].
Qed.

Section SampleResponses.

Lemma parts_by_sku_ok :
  Lines.handler Sample.engine Sample.two_parts by_sku_asc (Json Sample.parts_by_sku).
Proof.
  unfold Lines.handler.
  change (selected Sample.engine by_sku_asc Sample.two_parts)
    with (selected Sample.engine (page_of_ten "1") Sample.two_parts).
  rewrite parts_selected.
  change (Lines.plan_of by_sku_asc)
    with (Some (Lines.mkPlan Lines.ColSku "ASC" "DESC" 50 0)).
  exists (Lines.rollups Sample.two_parts). split; [split|].
  - apply Permutation_refl.
  - apply sortedb_sound. vm_compute. reflexivity.
  - vm_compute. reflexivity.
Qed.

End SampleResponses.

Lemma buildWhere_conjuncts_full :
  where_ (buildWhere full_query)
  = join " AND " (map render (compiled_conds full_query))
  /\ (In (Sample.part 1 "A-1")
         (filter (fun l => is_true (holds Sample.engine (BSkuIn ["A-1"; "B-2"]) l))
                 Sample.two_parts)
      <-> exists v, In v ["A-1"; "B-2"] /\ sku_of (Sample.part 1 "A-1") = Some v).
Proof.
  destruct (buildWhere_conjuncts full_query) as (A & _ & _ & _ & B & _).
  split; [exact A|].
  rewrite <- (B Sample.engine ["A-1"; "B-2"] (Sample.part 1 "A-1")).
  vm_compute. tauto.
Defined.

Lemma lines_sorted_by_sku :
  exists col,
    Lines.column_of_name "sku" = Some col
    /\ Lines.sorted_on Sample.engine col (Lines.sortDir by_sku_asc)
                       (Lines.tieDir by_sku_asc) (Lines.data Sample.parts_by_sku)
    /\ ((Lines.sortDir by_sku_asc = "ASC" /\ Lines.tieDir by_sku_asc = "DESC")
        \/ (Lines.sortDir by_sku_asc = "DESC" /\ Lines.tieDir by_sku_asc = "ASC")).
Proof.
  apply (lines_sorted_by_allowed_column Sample.engine Sample.two_parts
           by_sku_asc "sku" "sku" Sample.parts_by_sku).
  - reflexivity.
  - reflexivity.
  - exact parts_by_sku_ok.
Defined.

Lemma lines_sorted_by_month_default :
  Lines.sortCol (page_of_ten "1") = Lines.Str "month"
  /\ Lines.sorted_on Sample.engine Lines.ColMonth (Lines.sortDir (page_of_ten "1"))
                     (Lines.tieDir (page_of_ten "1")) (Lines.data Sample.parts_page1).
Proof.
  apply (lines_sorted_by_month_otherwise Sample.engine Sample.two_parts
           (page_of_ten "1") Sample.parts_page1).
  - intros k Hk. discriminate Hk.
  - exact parts_page1_ok.
Defined.

Lemma order_by_allowed_sku :
  In (Lines.order_by by_sku_asc) Lines.allowed_order_by.
Proof.
  apply (order_by_allowed by_sku_asc).
  intros k Hk. injection Hk as <-. reflexivity.
Defined.

Lemma lines_numeric_bounds_clamped :
  Lines.page page_out_of_range = Num 1
  /\ Lines.pageSize page_out_of_range = Num 200.
Proof.
  destruct (lines_numeric_bounds page_out_of_range) as (A & B & _).
  destruct (A 0%Z eq_refl) as [A' _]. destruct (B 1000%Z eq_refl) as [B' _].
  split; [exact A'|exact B'].
Defined.

(** *** Every request is answered *)

Section Insertion.
Variable leb : Lines.rollup -> Lines.rollup -> bool.
Hypothesis leb_total : forall a b, leb a b = true \/ leb b a = true.
Hypothesis leb_trans : forall a b c, leb a b = true -> leb b c = true -> leb a c = true.

Lemma insert_perm (x : Lines.rollup) (l : list Lines.rollup) :
  Permutation (x :: l) (Lines.insert_row leb x l).
Proof.
  induction l as [|y l IH]; simpl; [apply Permutation_refl|].
  destruct (leb x y); [apply Permutation_refl|].
  eapply Permutation_trans; [apply perm_swap|]. now apply perm_skip.
Qed.

Lemma insert_sorted (x : Lines.rollup) (l : list Lines.rollup) :
  StronglySorted (fun a b => leb a b = true) l ->
  StronglySorted (fun a b => leb a b = true) (Lines.insert_row leb x l).
Proof.
  induction l as [|y l IH]; intro H; simpl.
  - constructor; constructor.
  - apply StronglySorted_inv in H as [Hl Hy].
    destruct (leb x y) eqn:Exy.
    + constructor; [now constructor|].
      constructor; [assumption|].
      rewrite Forall_forall in *. intros z Hz. now apply (leb_trans x y z), Hy.
    + constructor; [now apply IH|].
      apply Forall_forall. intros z Hz.
      apply (Permutation_in _ (Permutation_sym (insert_perm x l))) in Hz.
      destruct Hz as [<-|Hz].
      * destruct (leb_total x y) as [H|H]; [congruence|assumption].
      * rewrite Forall_forall in Hy. now apply Hy.
Qed.

Lemma fold_insert_ok (l : list Lines.rollup) :
  Permutation l (fold_right (Lines.insert_row leb) [] l)
  /\ StronglySorted (fun a b => leb a b = true)
                    (fold_right (Lines.insert_row leb) [] l).
Proof.
  induction l as [|x l [IHp IHs]]; simpl.
  - split; constructor.
  - split.
    + eapply Permutation_trans; [|apply insert_perm]. now apply perm_skip.
    + now apply insert_sorted.
Qed.

End Insertion.

Section Preorders.
Variable E : engine.
Hypothesis HE : Lines.text_ordered E.

Lemma opt_leb_total {A} (leb : A -> A -> bool) (a b : option A) :
  (forall x y, leb x y = true \/ leb y x = true) ->
  Lines.opt_leb leb a b = true \/ Lines.opt_leb leb b a = true.
Proof. intro H. destruct a, b; simpl; auto. Qed.

Lemma opt_leb_trans {A} (leb : A -> A -> bool) (a b c : option A) :
  (forall x y z, leb x y = true -> leb y z = true -> leb x z = true) ->
  Lines.opt_leb leb a b = true -> Lines.opt_leb leb b c = true ->
  Lines.opt_leb leb a c = true.
Proof.
  intro H. destruct a, b, c; simpl; try discriminate; auto. apply H.
Qed.

Lemma Qle_bool_total (x y : Q) : Qle_bool x y = true \/ Qle_bool y x = true.
Proof.
  rewrite !Qle_bool_iff. destruct (Qlt_le_dec x y) as [H|H].
  - left. now apply Qlt_le_weak.
  - now right.
Qed.

Lemma Qle_bool_trans (x y z : Q) :
  Qle_bool x y = true -> Qle_bool y z = true -> Qle_bool x z = true.
Proof. rewrite !Qle_bool_iff. apply Qle_trans. Qed.

(** Values of one column are of one kind. *)
Definition same_kind (a b : Lines.value) : Prop :=
  match a, b with
  | Lines.Text _, Lines.Text _ | Lines.Numeric _, Lines.Numeric _ => True
  | _, _ => False
  end.

Lemma column_kind (col : Lines.column) (a b : Lines.rollup) :
  same_kind (Lines.column_value col a) (Lines.column_value col b).
Proof. destruct col; exact I. Qed.

Lemma value_leb_total (a b : Lines.value) :
  same_kind a b ->
  Lines.value_leb E a b = true \/ Lines.value_leb E b a = true.
Proof.
  destruct HE as [Ht _].
  destruct a, b; simpl; try contradiction; intros _.
  - now apply opt_leb_total.
  - apply opt_leb_total, Qle_bool_total.
Qed.

Lemma value_leb_trans (a b c : Lines.value) :
  Lines.value_leb E a b = true -> Lines.value_leb E b c = true ->
  Lines.value_leb E a c = true.
Proof.
  destruct HE as [_ Ht].
  destruct a, b, c; simpl; try discriminate.
  - now apply opt_leb_trans.
  - apply opt_leb_trans, Qle_bool_trans.
Qed.

Lemma dir_leb_total (dir : string) (a b : Lines.value) :
  same_kind a b ->
  Lines.dir_leb E dir a b = true \/ Lines.dir_leb E dir b a = true.
Proof.
  intro H. unfold Lines.dir_leb. destruct (dir =? "ASC").
  - now apply value_leb_total.
  - destruct (value_leb_total a b H); auto.
Qed.

Lemma dir_leb_trans (dir : string) (a b c : Lines.value) :
  Lines.dir_leb E dir a b = true -> Lines.dir_leb E dir b c = true ->
  Lines.dir_leb E dir a c = true.
Proof.
  unfold Lines.dir_leb. destruct (dir =? "ASC").
  - apply value_leb_trans.
  - intros H1 H2. now apply (value_leb_trans c b a).
Qed.

Lemma tied_dir (dir : string) (a b : Lines.value) :
  Lines.tied E a b = Lines.dir_leb E dir a b && Lines.dir_leb E dir b a.
Proof.
  unfold Lines.tied, Lines.dir_leb. destruct (dir =? "ASC"); [reflexivity|].
  apply andb_comm.
Qed.

Variable col : Lines.column.
Variables dir tie : string.

Lemma before_total (a b : Lines.rollup) :
  Lines.before E col dir tie a b = true \/ Lines.before E col dir tie b a = true.
Proof.
  unfold Lines.before. rewrite !(tied_dir dir).
  pose proof (dir_leb_total dir _ _ (column_kind col a b)) as H1.
  pose proof (dir_leb_total tie (Lines.Text (Lines.sku a)) (Lines.Text (Lines.sku b)) I)
    as H2.
  destruct (Lines.dir_leb E dir (Lines.column_value col a) (Lines.column_value col b)),
           (Lines.dir_leb E dir (Lines.column_value col b) (Lines.column_value col a));
    simpl; auto.
Qed.

Lemma before_trans (a b c : Lines.rollup) :
  Lines.before E col dir tie a b = true -> Lines.before E col dir tie b c = true ->
  Lines.before E col dir tie a c = true.
Proof.
  unfold Lines.before. rewrite !(tied_dir dir).
  pose proof (dir_leb_trans dir (Lines.column_value col a) (Lines.column_value col b)
                (Lines.column_value col c)) as Tabc.
  pose proof (dir_leb_trans dir (Lines.column_value col b) (Lines.column_value col c)
                (Lines.column_value col a)) as Tbca.
  pose proof (dir_leb_trans dir (Lines.column_value col c) (Lines.column_value col a)
                (Lines.column_value col b)) as Tcab.
  pose proof (dir_leb_trans dir (Lines.column_value col c) (Lines.column_value col b)
                (Lines.column_value col a)) as Tcba.
  pose proof (dir_leb_trans tie (Lines.Text (Lines.sku a)) (Lines.Text (Lines.sku b))
                (Lines.Text (Lines.sku c))) as Ts.
  destruct (Lines.dir_leb E dir (Lines.column_value col a) (Lines.column_value col b)),
           (Lines.dir_leb E dir (Lines.column_value col b) (Lines.column_value col a)),
           (Lines.dir_leb E dir (Lines.column_value col b) (Lines.column_value col c)),
           (Lines.dir_leb E dir (Lines.column_value col c) (Lines.column_value col b)),
           (Lines.dir_leb E dir (Lines.column_value col a) (Lines.column_value col c)),
           (Lines.dir_leb E dir (Lines.column_value col c) (Lines.column_value col a));
    simpl; intros H1 H2; try discriminate; auto;
    try (now apply Ts);
    try (discriminate (Tabc eq_refl eq_refl));
    try (discriminate (Tbca eq_refl eq_refl));
    try (discriminate (Tcab eq_refl eq_refl));
    try (discriminate (Tcba eq_refl eq_refl)).
Qed.

Lemma sort_rows_ordered (rows : list Lines.rollup) :
  Lines.ordered E col dir tie rows (Lines.sort_rows E col dir tie rows).
Proof.
  unfold Lines.ordered, Lines.sort_rows.
  apply fold_insert_ok; [apply before_total|apply before_trans].
Qed.

End Preorders.

(** Under a collation that is a total preorder, every request has a
    response, and [respond] computes one of them. *)
Theorem respond_admissible (E : engine) (db : list line) (query : query) :
  Lines.text_ordered E -> Lines.handler E db query (Lines.respond E db query).
Proof.
  intro HE. unfold Lines.handler, Lines.respond.
  destruct (selected E query db) as [rows|]; [|reflexivity].
  destruct (Lines.plan_of query) as [p|]; [|reflexivity].
  eexists. split; [now apply sort_rows_ordered|reflexivity].
Qed.

Section ByteOrder.

Lemma ascii_compare_spec (a b : ascii) :
  CompareSpec (a = b) (N_of_ascii a < N_of_ascii b)%N (N_of_ascii b < N_of_ascii a)%N
              (Ascii.compare a b).
Proof.
  unfold Ascii.compare. destruct (N.compare_spec (N_of_ascii a) (N_of_ascii b)) as [H|H|H];
    constructor; try assumption.
  rewrite <- (ascii_N_embedding a), <- (ascii_N_embedding b). now rewrite H.
Qed.

Lemma string_leb_trans (a b c : string) :
  String.leb a b = true -> String.leb b c = true -> String.leb a c = true.
Proof.
  unfold String.leb. revert b c.
  induction a as [|x a IH]; intros [|y b] [|z c]; simpl; try easy.
  specialize (IH b c).
  destruct (ascii_compare_spec x y), (ascii_compare_spec y z),
    (ascii_compare_spec x z); subst; try easy; try lia;
    try (exfalso; lia).
Qed.

Lemma sample_text_ordered : Lines.text_ordered Sample.engine.
Proof.
  split; [apply String.leb_total|apply string_leb_trans].
Qed.

End ByteOrder.

Lemma respond_admissible_two_parts :
  Lines.handler Sample.engine Sample.two_parts by_sku_asc
                (Lines.respond Sample.engine Sample.two_parts by_sku_asc).
Proof.
  apply (respond_admissible Sample.engine Sample.two_parts by_sku_asc).
  exact sample_text_ordered.
Defined.

(** ** The typeahead statements *)

Section TypeaheadStatements.

(** The predicate string in front of more text: its placeholders, then
    those of what follows. *)
Lemma scans_joined (cs : list cond) :
  scans (join " AND " (map render cs)) (List.concat (map cond_refs cs)).
Proof.
  induction cs as [|c cs IH]; [apply scans_nil|].
  destruct cs as [|c' cs].
  - simpl. rewrite app_nil_r. apply scans_render.
  - change (join " AND " (map render (c :: c' :: cs)))
      with (render c ++ " AND " ++ join " AND " (map render (c' :: cs)))%string.
    change (List.concat (map cond_refs (c :: c' :: cs)))
      with (cond_refs c ++ List.concat (map cond_refs (c' :: cs))).
    intros r Hr. rewrite !string_app_assoc.
    rewrite (scans_render c) by reflexivity.
    rewrite scan_no_dollar by reflexivity.
    rewrite (IH r Hr). now rewrite app_assoc.
Qed.

Lemma scans_where (query : query) :
  scans (where_ (buildWhere query)) (refs 0 (clauses query)).
Proof.
  unfold buildWhere. simpl where_.
  destruct (build_compiled query) as [Hc _]. rewrite Hc.
  apply scans_joined.
Qed.

Lemma uniq_adj_step (a b : nat) (l : list nat) :
  uniq_adj (a :: b :: l)
  = if Nat.eqb a b then uniq_adj (b :: l) else a :: uniq_adj (b :: l).
Proof. reflexivity. Qed.

Lemma uniq_adj_snoc (l : list nat) (x : nat) :
  (forall y, In y l -> y < x) -> uniq_adj (l ++ [x]) = uniq_adj l ++ [x].
Proof.
  induction l as [|a l IH]; intros H; [reflexivity|].
  destruct l as [|b r].
  - simpl. assert (a < x) by (apply H; now left).
    destruct (Nat.eqb_spec a x); [lia|reflexivity].
  - assert (IH' : uniq_adj ((b :: r) ++ [x]) = uniq_adj (b :: r) ++ [x])
      by (apply IH; intros y Hy; apply H; now right).
    change ((a :: b :: r) ++ [x]) with (a :: b :: (r ++ [x])).
    change ((b :: r) ++ [x]) with (b :: (r ++ [x])) in IH'.
    rewrite !uniq_adj_step. rewrite IH'.
    destruct (Nat.eqb a b); reflexivity.
Qed.

(** The filter's own references: none beyond its parameters, and all of
    [$1 .. $n] in order of first use. *)
Lemma where_refs_bounded (query : query) :
  let n := pcount 0 (clauses query) in
  (forall y, In y (refs 0 (clauses query)) -> y <= n)
  /\ uniq_adj (refs 0 (clauses query)) = seq 1 n.
Proof.
  intros n. rewrite refs_clauses. fold n.
  destruct (search_slot query) as [k|] eqn:Hk.
  - pose proof (search_slot_bounds query k Hk) as Hb. fold n in Hb. split.
    + intros y Hy. rewrite in_app_iff in Hy. destruct Hy as [Hy|[Hy|Hy]].
      * apply in_seq in Hy. lia.
      * lia.
      * apply in_seq in Hy. lia.
    + now apply seq_dup_collapse.
  - split.
    + intros y Hy. apply in_seq in Hy. lia.
    + apply uniq_adj_seq.
Qed.

(** A statement that references the filter's parameters, then [extra]
    further ones once each, then the next one twice, references
    [$1 .. $(n + extra + 1)] in order of first use. *)
Lemma refs_then_pattern (query : query) (extra : nat) :
  let n := pcount 0 (clauses query) in
  uniq_adj (refs 0 (clauses query) ++ seq (n + 1) extra
            ++ [n + extra + 1; n + extra + 1])
  = seq 1 (n + extra + 1).
Proof.
  intros n. destruct (where_refs_bounded query) as [Hle Hu]. fold n in Hle, Hu.
  rewrite app_assoc. rewrite uniq_adj_app_dup.
  rewrite uniq_adj_snoc.
  2:{ intros y Hy. rewrite in_app_iff in Hy. destruct Hy as [Hy|Hy].
      - apply Hle in Hy. lia.
      - apply in_seq in Hy. lia. }
  assert (Hx : uniq_adj (refs 0 (clauses query) ++ seq (n + 1) extra) = seq 1 (n + extra)).
  { clear - Hle Hu. induction extra as [|e IH].
    - simpl seq. rewrite app_nil_r, Nat.add_0_r. exact Hu.
    - rewrite seq_S, app_assoc. rewrite uniq_adj_snoc.
      + rewrite IH. replace (n + S e) with (S (n + e)) by lia.
        rewrite (seq_S (n + e) 1). f_equal. f_equal. lia.
      + intros y Hy. rewrite in_app_iff in Hy. destruct Hy as [Hy|Hy].
        * apply Hle in Hy. lia.
        * apply in_seq in Hy. lia. }
  rewrite Hx. replace (n + extra + 1) with (S (n + extra)) by lia.
  rewrite (seq_S (n + extra) 1). f_equal.
Qed.

Import Statements.

(** The placeholders of the products statement: the filter's, then the
    pattern's twice. *)
Lemma productsSql_placeholders (query : query) (k : nat) :
  placeholders (productsSql (where_ (buildWhere query)) k)
  = refs 0 (clauses query) ++ [k; k].
Proof.
  unfold placeholders, productsSql.
  rewrite ?string_app_assoc.
  rewrite scan_no_dollar by reflexivity.
  rewrite scan_no_dollar by reflexivity.
  rewrite scan_no_dollar by reflexivity.
  rewrite (scans_where query) by reflexivity.
  f_equal.
  rewrite scan_no_dollar by reflexivity.
  rewrite scan_placeholder by reflexivity.
  rewrite scan_no_dollar by reflexivity.
  rewrite <- (string_app_nil_r (placeholder k ++ _)).
  rewrite string_app_assoc.
  rewrite scan_placeholder by reflexivity.
  reflexivity.
Qed.

(** The placeholders of the SKU statement: the filter's, those of the
    template scope, then the pattern's twice. *)
Lemma skusSql_placeholders (query : query) (tmplCond : string) (l : list nat) (k : nat) :
  scans tmplCond l ->
  placeholders (skusSql (where_ (buildWhere query)) tmplCond k)
  = refs 0 (clauses query) ++ l ++ [k; k].
Proof.
  intros Hc.
  unfold placeholders, skusSql.
  rewrite ?string_app_assoc.
  rewrite scan_no_dollar by reflexivity.
  rewrite scan_no_dollar by reflexivity.
  rewrite scan_no_dollar by reflexivity.
  rewrite (scans_where query) by reflexivity.
  f_equal.
  rewrite scan_no_dollar by reflexivity.
  rewrite Hc by reflexivity.
  f_equal.
  rewrite scan_no_dollar by reflexivity.
  rewrite scan_placeholder by reflexivity.
  rewrite scan_no_dollar by reflexivity.
  rewrite <- (string_app_nil_r (placeholder k ++ _)).
  rewrite string_app_assoc.
  rewrite scan_placeholder by reflexivity.
  reflexivity.
Qed.

Lemma scans_tmplCond (k : nat) :
  scans ("AND pp.product_tmpl_id = " ++ placeholder k) [k].
Proof.
  intros r Hr. rewrite string_app_assoc.
  rewrite scan_no_dollar by reflexivity.
  now apply scan_placeholder.
Qed.

Lemma param_at_last (ps : list param) (p : param) :
  param_at (ps ++ [p]) (List.length ps + 1) = Some p.
Proof.
  rewrite Nat.add_1_r. simpl.
  rewrite nth_error_app2 by lia. now rewrite Nat.sub_diag.
Qed.

End TypeaheadStatements.

(** X7: with a typed text of at least one character after trimming, the
    products typeahead runs exactly one statement.  Its parameters are the
    filter's followed by the pattern [%text%]; its placeholders are the
    filter's followed by [$likeIdx] twice, so the statement references
    [$1 .. $n] for exactly its [n] parameters, and [$likeIdx] is bound to
    the pattern.  What is sent is the rows of that statement, or its
    error. *)
Theorem typeahead_products_statement (row : Type)
  (pool_query : string -> list param -> string + list row) (query : query) :
  let text := trim (or_default (q query) "") in
  let w := buildWhere query in
  let likeIdx := List.length (where_params w) + 1 in
  let params := where_params w ++ [PStr ("%" ++ text ++ "%")] in
  1 <= String.length text ->
  exists sql,
    Typeahead.executed row (Typeahead.products row pool_query query) = [(sql, params)]
    /\ Typeahead.sent row (Typeahead.products row pool_query query)
       = match pool_query sql params with
         | inr rows => Typeahead.Rows rows
         | inl message => Typeahead.Failed message
         end
    /\ placeholders sql = placeholders (where_ w) ++ [likeIdx; likeIdx]
    /\ uniq_adj (placeholders sql) = seq 1 (List.length params)
    /\ param_at params likeIdx = Some (PStr ("%" ++ text ++ "%")).
Proof.
  intros text w likeIdx params Hlen.
  exists (Statements.productsSql (where_ w) likeIdx).
  assert (Hrun : Typeahead.products row pool_query query
                 = Typeahead.query_and_reply row pool_query
                     (Statements.productsSql (where_ w) likeIdx) params).
  { unfold Typeahead.products. fold text.
    destruct (Nat.ltb_spec (String.length text) 1); [lia|reflexivity]. }
  rewrite Hrun. unfold Typeahead.query_and_reply.
  split; [destruct (pool_query _ _); reflexivity|].
  split; [destruct (pool_query _ _); reflexivity|].
  unfold w. rewrite productsSql_placeholders, where_refs.
  split; [reflexivity|]. split.
  - unfold params, likeIdx, w. rewrite length_app.
    change (List.length [PStr ("%" ++ text ++ "%")]) with 1.
    rewrite where_pcount.
    pose proof (refs_then_pattern query 0) as H. cbv zeta in H.
    simpl seq in H. simpl app in H. now rewrite !Nat.add_0_r in H.
  - apply param_at_last.
Qed.

Lemma typeahead_products_statement_bo :
  exists sql,
    Typeahead.executed unit (Typeahead.products unit (fun _ _ => inr [tt]) (typed " bo "))
    = [(sql, [PStr "2025-01-01"; PStr "%bo%"])]
    /\ Typeahead.sent unit (Typeahead.products unit (fun _ _ => inr [tt]) (typed " bo "))
       = Typeahead.Rows [tt]
    /\ placeholders sql = [1; 2; 2]
    /\ uniq_adj (placeholders sql) = [1; 2]
    /\ param_at [PStr "2025-01-01"; PStr "%bo%"] 2 = Some (PStr "%bo%").
Proof.
  apply (typeahead_products_statement unit (fun _ _ => inr [tt]) (typed " bo ")).
  vm_compute. lia.
Defined.

(** X8: with a typed text of at least one character after trimming, the
    SKU typeahead runs exactly one statement.  A [tmplId] that [parseInt]
    reads in base 10 as a positive finite integer adds that integer as one
    parameter, referenced once by the scope condition; any other [tmplId]
    (absent, empty, not a number, zero or negative) is ignored.  The
    parameters are the filter's, the scope's, then the pattern [%text%];
    the statement references [$1 .. $n] for exactly its [n] parameters, in
    order of first use, and the two ILIKE placeholders are bound to the
    pattern. *)
Theorem typeahead_skus_statement (row : Type)
  (pool_query : string -> list param -> string + list row) (query : query) :
  let text := trim (or_default (q query) "") in
  let w := buildWhere query in
  let n := List.length (where_params w) in
  1 <= String.length text ->
  exists sql scope,
    let params := where_params w ++ scope ++ [PStr ("%" ++ text ++ "%")] in
    let likeIdx := n + List.length scope + 1 in
    Typeahead.executed row (Typeahead.skus row pool_query query) = [(sql, params)]
    /\ Typeahead.sent row (Typeahead.skus row pool_query query)
       = match pool_query sql params with
         | inr rows => Typeahead.Rows rows
         | inl message => Typeahead.Failed message
         end
    /\ scope = match present (tmplId query) with
               | Some s =>
                   match parseInt s 10 with
                   | Num z => if ((0 <? z) && (z <? double_overflow))%Z
                              then [PNum (Num z)] else []
                   | NaN => []
                   end
               | None => []
               end
    /\ placeholders sql
       = placeholders (where_ w) ++ seq (n + 1) (List.length scope) ++ [likeIdx; likeIdx]
    /\ uniq_adj (placeholders sql) = seq 1 (List.length params)
    /\ param_at params likeIdx = Some (PStr ("%" ++ text ++ "%")).
Proof.
  intros text w n Hlen.
  assert (Hscope : exists scope tmplCond,
             Typeahead.tmpl_scope query (where_params w) = (where_params w ++ scope, tmplCond)
             /\ scans tmplCond (seq (n + 1) (List.length scope))
             /\ scope = match present (tmplId query) with
                        | Some s =>
                            match parseInt s 10 with
                            | Num z => if ((0 <? z) && (z <? double_overflow))%Z
                                       then [PNum (Num z)] else []
                            | NaN => []
                            end
                        | None => []
                        end).
  { unfold Typeahead.tmpl_scope.
    destruct (present (tmplId query)) as [s|].
    2:{ exists [], "". rewrite app_nil_r. repeat split; apply scans_nil. }
    destruct (parseInt s 10) as [|z].
    { exists [], "". rewrite app_nil_r. repeat split; apply scans_nil. }
    unfold Number_isFinite, gt0.
    destruct (Z.ltb_spec 0 z) as [Hz|Hz].
    - rewrite Z.abs_eq by lia. rewrite andb_true_r. rewrite andb_true_l.
      destruct (z <? double_overflow)%Z.
      + exists [PNum (Num z)], ("AND pp.product_tmpl_id = " ++ placeholder (n + 1))%string.
        split; [|split; [apply scans_tmplCond|reflexivity]].
        rewrite length_app. reflexivity.
      + exists [], "". rewrite app_nil_r. repeat split; apply scans_nil.
    - rewrite andb_false_r. rewrite andb_false_l.
      exists [], "". rewrite app_nil_r. repeat split; apply scans_nil. }
  destruct Hscope as (scope & tmplCond & Hts & Hsc & Hdef).
  exists (Statements.skusSql (where_ w) tmplCond (n + List.length scope + 1)), scope.
  cbv zeta.
  assert (Hrun : Typeahead.skus row pool_query query
                 = Typeahead.query_and_reply row pool_query
                     (Statements.skusSql (where_ w) tmplCond (n + List.length scope + 1))
                     (where_params w ++ scope ++ [PStr ("%" ++ text ++ "%")])).
  { unfold Typeahead.skus. fold text.
    destruct (Nat.ltb_spec (String.length text) 1); [lia|].
    fold w. rewrite Hts. rewrite length_app. fold n.
    now rewrite <- app_assoc. }
  rewrite Hrun. unfold Typeahead.query_and_reply.
  split; [destruct (pool_query _ _); reflexivity|].
  split; [destruct (pool_query _ _); reflexivity|].
  split; [exact Hdef|].
  unfold w. rewrite (skusSql_placeholders query tmplCond _ _ Hsc), where_refs.
  split; [reflexivity|]. split.
  - rewrite !length_app.
    change (List.length [PStr ("%" ++ text ++ "%")]) with 1.
    unfold n, w. rewrite where_pcount.
    rewrite Nat.add_assoc.
    exact (refs_then_pattern query (List.length scope)).
  - rewrite app_assoc. fold w.
    replace (n + List.length scope) with (List.length (where_params w ++ scope))
      by (rewrite length_app; reflexivity).
    apply param_at_last.
Qed.

Lemma typeahead_skus_statement_scoped :
  exists sql scope,
    Typeahead.executed unit
      (Typeahead.skus unit (fun _ _ => inr [tt]) Samples.scoped_to_seven)
    = [(sql, [PStr "2025-01-01"] ++ scope ++ [PStr "%bo%"])]
    /\ Typeahead.sent unit (Typeahead.skus unit (fun _ _ => inr [tt]) Samples.scoped_to_seven)
       = Typeahead.Rows [tt]
    /\ scope = [PNum (Num 7)]
    /\ placeholders sql = [1] ++ seq 2 (List.length scope)
                          ++ [1 + List.length scope + 1; 1 + List.length scope + 1]
    /\ uniq_adj (placeholders sql)
       = seq 1 (List.length ([PStr "2025-01-01"] ++ scope ++ [PStr "%bo%"]))
    /\ param_at ([PStr "2025-01-01"] ++ scope ++ [PStr "%bo%"]) (1 + List.length scope + 1)
       = Some (PStr "%bo%").
Proof.
  apply (typeahead_skus_statement unit (fun _ _ => inr [tt]) Samples.scoped_to_seven).
  vm_compute. lia.
Defined.

Import Grouping.

(** ** GROUP BY and the aggregates over its groups *)

Section GroupBy.
Context {K : Type} (dec : forall a b : K, {a = b} + {a <> b}) (key : line -> K).

Lemma add_to_groups_keys (k : K) (l : line) (gs : list (K * list line)) :
  (In k (map fst gs) -> map fst (Lines.add_to_groups dec k l gs) = map fst gs)
  /\ (~ In k (map fst gs) -> map fst (Lines.add_to_groups dec k l gs) = map fst gs ++ [k]).
Proof.
  induction gs as [|[k' ls] gs [IH1 IH2]]; simpl.
  - split; [tauto|reflexivity].
  - destruct (dec k k') as [->|Hne]; simpl.
    + split; [reflexivity|]. intros H. exfalso. apply H. now left.
    + split.
      * intros [H|H]; [congruence|]. now rewrite IH1.
      * intros H. rewrite IH2; [reflexivity|]. intros H'. apply H. now right.
Qed.

Lemma add_to_groups_perm (k : K) (l : line) (gs : list (K * list line)) :
  Permutation (List.concat (map snd (Lines.add_to_groups dec k l gs)))
              (List.concat (map snd gs) ++ [l]).
Proof.
  induction gs as [|[k' ls] gs IH]; simpl.
  - apply Permutation_refl.
  - destruct (dec k k') as [->|Hne]; simpl.
    + rewrite <- !app_assoc. apply Permutation_app_head.
      apply Permutation_app_comm.
    + rewrite <- app_assoc. apply Permutation_app_head. exact IH.
Qed.

Lemma add_to_groups_well (l : line) (gs : list (K * list line)) :
  well_grouped key gs -> well_grouped key (Lines.add_to_groups dec (key l) l gs).
Proof.
  intros [Hnd Hall]. split.
  - destruct (in_dec dec (key l) (map fst gs)) as [Hin|Hin].
    + now rewrite (proj1 (add_to_groups_keys (key l) l gs) Hin).
    + rewrite (proj2 (add_to_groups_keys (key l) l gs) Hin).
      apply NoDup_app; [exact Hnd|repeat constructor; intros []|].
      intros x Hx [<-|[]]. now apply Hin.
  - clear Hnd. induction gs as [|[k' ls] gs IH]; simpl.
    + repeat constructor. discriminate.
    + inversion Hall as [|g gs' [Hne Hk] Hrest]; subst.
      destruct (dec (key l) k') as [e|ne].
      * constructor; [|exact Hrest]. simpl in *. split.
        -- destruct ls; discriminate.
        -- apply Forall_app. split; [exact Hk|]. now repeat constructor.
      * constructor; [now split|]. now apply IH.
Qed.

Lemma fold_groups (rows : list line) (gs : list (K * list line)) :
  well_grouped key gs ->
  let out := fold_left (fun gs l => Lines.add_to_groups dec (key l) l gs) rows gs in
  well_grouped key out
  /\ Permutation (List.concat (map snd out)) (List.concat (map snd gs) ++ rows).
Proof.
  revert gs. induction rows as [|l rows IH]; intros gs Hw; simpl.
  - split; [exact Hw|]. now rewrite app_nil_r.
  - destruct (IH _ (add_to_groups_well l gs Hw)) as [H1 H2].
    split; [exact H1|].
    eapply Permutation_trans; [exact H2|].
    change (l :: rows) with ([l] ++ rows). rewrite app_assoc.
    apply Permutation_app_tail. apply add_to_groups_perm.
Qed.

(** GROUP BY partitions the rows: distinct keys, non-empty groups of
    rows of the key, and every row in one group. *)
Lemma group_by_well (rows : list line) :
  well_grouped key (Lines.group_by dec key rows).
Proof.
  apply (fold_groups rows []). split; constructor.
Qed.

Lemma group_by_perm (rows : list line) :
  Permutation (List.concat (map snd (Lines.group_by dec key rows))) rows.
Proof.
  apply (fold_groups rows []). split; constructor.
Qed.

Lemma group_by_keys (rows : list line) (k : K) :
  In k (map fst (Lines.group_by dec key rows)) <-> In k (map key rows).
Proof.
  destruct (group_by_well rows) as [_ Hall].
  pose proof (group_by_perm rows) as Hp.
  rewrite Forall_forall in Hall. split.
  - intros Hk. apply in_map_iff in Hk. destruct Hk as ([k' ls] & <- & Hg).
    destruct (Hall _ Hg) as [Hne Hk]. simpl in *.
    destruct ls as [|l ls]; [congruence|].
    inversion Hk; subst. apply in_map_iff. exists l. split; [reflexivity || assumption|].
    apply (Permutation_in _ Hp). apply in_concat.
    exists (l :: ls). split; [|now left].
    apply in_map_iff. now exists (key l, l :: ls).
  - intros Hk. apply in_map_iff in Hk. destruct Hk as (l & <- & Hl).
    apply (Permutation_in _ (Permutation_sym Hp)) in Hl.
    apply in_concat in Hl. destruct Hl as (ls & Hls & Hin).
    apply in_map_iff in Hls. destruct Hls as ([k' ls'] & <- & Hg).
    destruct (Hall _ Hg) as [_ Hk]. simpl in *.
    rewrite Forall_forall in Hk. rewrite (Hk _ Hin).
    apply in_map_iff. now exists (k', ls').
Qed.

(** The number of groups is the number of distinct keys. *)
Lemma group_by_length (rows : list line) :
  List.length (Lines.group_by dec key rows)
  = List.length (nodup dec (map key rows)).
Proof.
  rewrite <- (length_map fst).
  apply Permutation_length. apply NoDup_Permutation.
  - apply group_by_well.
  - apply NoDup_nodup.
  - intros k. rewrite group_by_keys. now rewrite nodup_In.
Qed.

End GroupBy.

(** Two keys that agree on which rows go together make the same number
    of groups. *)
Lemma nodup_keys_length {A B : Type}
  (decA : forall a b : A, {a = b} + {a <> b})
  (decB : forall a b : B, {a = b} + {a <> b})
  (f : line -> A) (g : line -> B) (rows : list line) :
  (forall a b, In a rows -> In b rows -> (f a = f b <-> g a = g b)) ->
  List.length (nodup decA (map f rows)) = List.length (nodup decB (map g rows)).
Proof.
  induction rows as [|x rows IH]; intros H; [reflexivity|].
  simpl map. simpl nodup.
  assert (IH' : List.length (nodup decA (map f rows)) = List.length (nodup decB (map g rows))).
  { apply IH. intros a b Ha Hb. apply H; now right. }
  destruct (in_dec decA (f x) (map f rows)) as [Hf|Hf];
    destruct (in_dec decB (g x) (map g rows)) as [Hg|Hg].
  - exact IH'.
  - exfalso. apply Hg. apply in_map_iff in Hf. destruct Hf as (y & Hy & Hin).
    apply in_map_iff. exists y. split; [|exact Hin].
    apply H; [now right|now left|exact Hy].
  - exfalso. apply Hf. apply in_map_iff in Hg. destruct Hg as (y & Hy & Hin).
    apply in_map_iff. exists y. split; [|exact Hin].
    apply H; [now right|now left|exact Hy].
  - simpl. now rewrite IH'.
Qed.

(** Lists with the same elements have as many distinct ones. *)
Lemma nodup_length_same {A : Type} (decA : forall a b : A, {a = b} + {a <> b})
  (l1 l2 : list A) :
  (forall x, In x l1 <-> In x l2) ->
  List.length (nodup decA l1) = List.length (nodup decA l2).
Proof.
  intros H. apply Permutation_length. apply NoDup_Permutation.
  - apply NoDup_nodup.
  - apply NoDup_nodup.
  - intros x. rewrite !nodup_In. apply H.
Qed.

Section Sums.
Local Open Scope Q_scope.

Lemma SUM_sumq (l : list (option Q)) : coalesce0 (SUM l) 0 == sumq l.
Proof.
  induction l as [|[x|] l IH]; simpl.
  - reflexivity.
  - unfold sumq in *. simpl. destruct (SUM l) as [s|]; simpl in *.
    + now rewrite IH.
    + rewrite <- IH. ring.
  - unfold sumq in *. simpl. rewrite <- IH. ring.
Qed.

Lemma sumq_app (l1 l2 : list (option Q)) : sumq (l1 ++ l2) == sumq l1 + sumq l2.
Proof.
  unfold sumq. induction l1 as [|x l1 IH]; simpl.
  - ring.
  - rewrite IH. ring.
Qed.

Lemma sumq_perm (l1 l2 : list (option Q)) :
  Permutation l1 l2 -> sumq l1 == sumq l2.
Proof.
  unfold sumq. induction 1; simpl.
  - reflexivity.
  - now rewrite IHPermutation.
  - ring.
  - now rewrite IHPermutation1.
Qed.

Lemma qsum_perm (l1 l2 : list Q) :
  Permutation l1 l2 -> fold_right Qplus 0 l1 == fold_right Qplus 0 l2.
Proof.
  induction 1; simpl.
  - reflexivity.
  - now rewrite IHPermutation.
  - ring.
  - now rewrite IHPermutation1.
Qed.

Lemma zsum_perm (l1 l2 : list Z) :
  Permutation l1 l2 -> fold_right Z.add 0%Z l1 = fold_right Z.add 0%Z l2.
Proof.
  induction 1; simpl; lia.
Qed.

(** Over the groups of a GROUP BY, the counts add up to the number of
    rows and the sums to the sum over all rows. *)
Lemma groups_count {K : Type} (gs : list (K * list line)) :
  fold_right Z.add 0%Z (map (fun g => Z.of_nat (List.length (snd g))) gs)
  = Z.of_nat (List.length (List.concat (map snd gs))).
Proof.
  induction gs as [|g gs IH]; simpl; [reflexivity|].
  rewrite length_app, IH. lia.
Qed.

Lemma groups_sum {K : Type} (f : line -> option Q) (gs : list (K * list line)) :
  fold_right Qplus 0 (map (fun g => coalesce0 (SUM (map f (snd g))) 0) gs)
  == sumq (map f (List.concat (map snd gs))).
Proof.
  induction gs as [|g gs IH]; simpl; [reflexivity|].
  rewrite map_app, sumq_app, IH, SUM_sumq. reflexivity.
Qed.

End Sums.

Import Grouping.

(** ** The chart endpoints against the KPI endpoint *)

Section ChartTotals.
Variable E : engine.

Lemma category_of_named (level : nat) (l : line) :
  exists s, ByCategory.category_of level l = Some s /\ s <> "".
Proof.
  unfold ByCategory.category_of, category_level, nullif, coalesce.
  destruct (option_map _ (pc_complete_name l)) as [x|].
  - destruct (String.eqb_spec x "") as [->|Hne].
    + exists "Uncategorized". split; [reflexivity|discriminate].
    + exists x. now split.
  - exists "Uncategorized". split; [reflexivity|discriminate].
Qed.

Lemma kpis_of_selected (db : list line) (query : query) (rows : list line) :
  selected E query db = Some rows ->
  Kpis.handler E db query = Json (Kpis.select rows).
Proof. intros H. unfold Kpis.handler. now rewrite H. Qed.

Lemma by_category_lines (level : nat) (rows : list line) :
  ByCategory.lines_of (ByCategory.groups level rows) = Z.of_nat (List.length rows).
Proof.
  unfold ByCategory.lines_of, ByCategory.groups. rewrite map_map.
  change (fun x => ByCategory.line_count (ByCategory.row_of x))
    with (fun g : option string * list line => Z.of_nat (List.length (snd g))).
  rewrite groups_count. f_equal. apply Permutation_length. apply group_by_perm.
Qed.

Lemma by_category_value (level : nat) (rows : list line) :
  (ByCategory.value_of (ByCategory.groups level rows)
   == coalesce0 (SUM (map Kpis.ordered_value rows)) 0)%Q.
Proof.
  unfold ByCategory.value_of, ByCategory.groups. rewrite !map_map.
  change (fun x => coalesce0 (ByCategory.total_value (ByCategory.row_of x)) 0%Q)
    with (fun g : option string * list line =>
            coalesce0 (SUM (map Kpis.ordered_value (snd g))) 0%Q).
  rewrite groups_sum, SUM_sumq.
  apply sumq_perm. apply Permutation_map. apply group_by_perm.
Qed.

Lemma monthly_lines (rows : list line) :
  Monthly.lines_of (Monthly.groups rows) = Z.of_nat (List.length rows).
Proof.
  unfold Monthly.lines_of, Monthly.groups. rewrite map_map.
  change (fun x => Monthly.line_count (Monthly.row_of x))
    with (fun g : Monthly.key * list line => Z.of_nat (List.length (snd g))).
  rewrite groups_count. f_equal. apply Permutation_length. apply group_by_perm.
Qed.

Lemma monthly_value (rows : list line) :
  (Monthly.value_of (Monthly.groups rows)
   == coalesce0 (SUM (map Kpis.ordered_value rows)) 0)%Q.
Proof.
  unfold Monthly.value_of, Monthly.groups. rewrite !map_map.
  change (fun x => coalesce0 (Monthly.ordered_value_thb (Monthly.row_of x)) 0%Q)
    with (fun g : Monthly.key * list line =>
            coalesce0 (SUM (map Kpis.ordered_value (snd g))) 0%Q).
  rewrite groups_sum, SUM_sumq.
  apply sumq_perm. apply Permutation_map. apply group_by_perm.
Qed.

Lemma monthly_months (rows : list line) (m : string) :
  In m (map Monthly.month (Monthly.groups rows)) <-> In m (map Kpis.month_label rows).
Proof.
  unfold Monthly.groups. rewrite map_map.
  change (fun x => Monthly.month (Monthly.row_of x))
    with (fun g : Monthly.key * list line => fst (fst g)).
  split.
  - intros H. apply in_map_iff in H. destruct H as (g & <- & Hg).
    assert (Hk : In (fst g) (map fst (Lines.group_by Monthly.key_dec Monthly.key_of rows)))
      by (apply in_map_iff; now exists g).
    apply group_by_keys in Hk. apply in_map_iff in Hk. destruct Hk as (l & Hl & Hin).
    apply in_map_iff. exists l. split; [|exact Hin]. now rewrite <- Hl.
  - intros H. apply in_map_iff in H. destruct H as (l & <- & Hin).
    assert (Hk : In (Monthly.key_of l) (map Monthly.key_of rows))
      by (apply in_map_iff; now exists l).
    apply (group_by_keys Monthly.key_dec) in Hk.
    apply in_map_iff in Hk. destruct Hk as (g & Hg & Hing).
    apply in_map_iff. exists g. split; [|exact Hing]. now rewrite Hg.
Qed.

End ChartTotals.

(** X9: whenever the by-category endpoint answers with rows, the KPI
    endpoint answers for the same request and database, the line counts
    of the category rows add up to the KPI [total_lines], and their values
    (a NULL value counting as zero) add up to the KPI
    [total_ordered_value]: at every drill level the chart accounts for
    each selected line exactly once. *)
Theorem by_category_totals (E : engine) (db : list line) (query : query)
  (out : list ByCategory.category_row) :
  ByCategory.handler E db query (Json out) ->
  exists k,
    Kpis.handler E db query = Json k
    /\ ByCategory.lines_of out = Kpis.total_lines k
    /\ (ByCategory.value_of out == Kpis.total_ordered_value k)%Q.
Proof.
  unfold ByCategory.handler.
  destruct (selected E query db) as [rows|] eqn:Hs; [|discriminate].
  intros (out' & Hp & _ & Heq). injection Heq as ->.
  exists (Kpis.select rows). split; [now apply kpis_of_selected|]. split.
  - change (Kpis.total_lines (Kpis.select rows)) with (Z.of_nat (List.length rows)).
    rewrite <- (by_category_lines (ByCategory.level query) rows).
    symmetry. apply zsum_perm. now apply Permutation_map.
  - change (Kpis.total_ordered_value (Kpis.select rows))
      with (coalesce0 (SUM (map Kpis.ordered_value rows)) 0%Q).
    rewrite <- (by_category_value (ByCategory.level query) rows).
    symmetry. apply qsum_perm. now apply Permutation_map.
Qed.

(** X10: the rows the by-category endpoint answers with name pairwise
    distinct categories, no category is NULL or the empty string (a line
    without a segment at the drill level is filed under [Uncategorized]),
    and every row counts at least one line. *)
Theorem by_category_rows (E : engine) (db : list line) (query : query)
  (out : list ByCategory.category_row) :
  ByCategory.handler E db query (Json out) ->
  NoDup (map ByCategory.category out)
  /\ forall r, In r out ->
       (exists s, ByCategory.category r = Some s /\ s <> "")
       /\ (0 < ByCategory.line_count r)%Z.
Proof.
  unfold ByCategory.handler.
  destruct (selected E query db) as [rows|] eqn:Hs; [|discriminate].
  intros (out' & Hp & _ & Heq). injection Heq as ->.
  pose proof (group_by_well (Lines.option_eq_dec string_dec)
                (ByCategory.category_of (ByCategory.level query)) rows) as [Hnd Hall].
  split.
  - apply (Permutation_NoDup (Permutation_map ByCategory.category Hp)).
    unfold ByCategory.groups. rewrite map_map. exact Hnd.
  - intros r Hr. apply (Permutation_in _ (Permutation_sym Hp)) in Hr.
    unfold ByCategory.groups in Hr. apply in_map_iff in Hr.
    destruct Hr as ([k ls] & <- & Hg).
    rewrite Forall_forall in Hall. destruct (Hall _ Hg) as [Hne Hk]. simpl in *.
    destruct ls as [|l ls]; [congruence|]. split.
    + inversion Hk as [|? ? Hl _]; subst. apply category_of_named.
    + simpl. lia.
Qed.

(** X11: whenever the monthly endpoint answers with rows, the KPI
    endpoint answers for the same request and database, the line counts
    of the monthly rows add up to the KPI [total_lines], their values to
    the KPI [total_ordered_value], and the number of distinct months among
    them is the KPI [distinct_months]; no two rows share month and
    category. *)
Theorem monthly_totals (E : engine) (db : list line) (query : query)
  (out : list Monthly.monthly_row) :
  Monthly.handler E db query (Json out) ->
  exists k,
    Kpis.handler E db query = Json k
    /\ Monthly.lines_of out = Kpis.total_lines k
    /\ (Monthly.value_of out == Kpis.total_ordered_value k)%Q
    /\ Z.of_nat (List.length (Monthly.months_of out)) = Kpis.distinct_months k
    /\ NoDup (map (fun r => (Monthly.month r, Monthly.category_l1 r)) out).
Proof.
  unfold Monthly.handler.
  destruct (selected E query db) as [rows|] eqn:Hs; [|discriminate].
  intros (out' & Hp & _ & Heq). injection Heq as ->.
  exists (Kpis.select rows). split; [now apply kpis_of_selected|]. split; [|split; [|split]].
  - change (Kpis.total_lines (Kpis.select rows)) with (Z.of_nat (List.length rows)).
    rewrite <- (monthly_lines rows).
    symmetry. apply zsum_perm. now apply Permutation_map.
  - change (Kpis.total_ordered_value (Kpis.select rows))
      with (coalesce0 (SUM (map Kpis.ordered_value rows)) 0%Q).
    rewrite <- (monthly_value rows).
    symmetry. apply qsum_perm. now apply Permutation_map.
  - change (Kpis.distinct_months (Kpis.select rows))
      with (Z.of_nat (List.length (nodup string_dec (map Kpis.month_label rows)))).
    f_equal. unfold Monthly.months_of. apply nodup_length_same.
    intros m. rewrite <- monthly_months. split; intros H.
    + apply (Permutation_in _ (Permutation_sym (Permutation_map Monthly.month Hp))), H.
    + apply (Permutation_in _ (Permutation_map Monthly.month Hp)), H.
  - apply (Permutation_NoDup (Permutation_map _ Hp)).
    unfold Monthly.groups. rewrite map_map.
    pose proof (group_by_well Monthly.key_dec Monthly.key_of rows) as [Hnd _].
    erewrite map_ext; [exact Hnd|]. intros [[m c] ls]. reflexivity.
Qed.

Lemma three_lines_selected :
  selected Sample.engine Samples.raw_only Samples.three_lines = Some Samples.three_lines.
Proof. vm_compute. reflexivity. Qed.

Lemma three_lines_by_category :
  ByCategory.handler Sample.engine Samples.three_lines Samples.raw_only
    (Json (ByCategory.groups 2 Samples.three_lines)).
Proof.
  unfold ByCategory.handler. rewrite three_lines_selected.
  exists (ByCategory.groups 2 Samples.three_lines).
  split; [apply Permutation_refl|]. split; [|reflexivity].
  apply sortedb_sound. vm_compute. reflexivity.
Qed.

Lemma three_lines_monthly :
  Monthly.handler Sample.engine Samples.three_lines Samples.raw_only
    (Json (rev (Monthly.groups Samples.three_lines))).
Proof.
  unfold Monthly.handler. rewrite three_lines_selected.
  exists (rev (Monthly.groups Samples.three_lines)).
  split; [apply Permutation_rev|]. split; [|reflexivity].
  apply sortedb_sound. vm_compute. reflexivity.
Qed.

Lemma by_category_totals_three_lines :
  exists k,
    Kpis.handler Sample.engine Samples.three_lines Samples.raw_only = Json k
    /\ ByCategory.lines_of (ByCategory.groups 2 Samples.three_lines) = Kpis.total_lines k
    /\ (ByCategory.value_of (ByCategory.groups 2 Samples.three_lines)
        == Kpis.total_ordered_value k)%Q.
Proof.
  apply (by_category_totals Sample.engine Samples.three_lines Samples.raw_only).
  exact three_lines_by_category.
Defined.

Lemma by_category_rows_three_lines :
  NoDup (map ByCategory.category (ByCategory.groups 2 Samples.three_lines))
  /\ forall r, In r (ByCategory.groups 2 Samples.three_lines) ->
       (exists s, ByCategory.category r = Some s /\ s <> "")
       /\ (0 < ByCategory.line_count r)%Z.
Proof.
  apply (by_category_rows Sample.engine Samples.three_lines Samples.raw_only).
  exact three_lines_by_category.
Defined.

Lemma monthly_totals_three_lines :
  exists k,
    Kpis.handler Sample.engine Samples.three_lines Samples.raw_only = Json k
    /\ Monthly.lines_of (rev (Monthly.groups Samples.three_lines)) = Kpis.total_lines k
    /\ (Monthly.value_of (rev (Monthly.groups Samples.three_lines))
        == Kpis.total_ordered_value k)%Q
    /\ Z.of_nat (List.length (Monthly.months_of (rev (Monthly.groups Samples.three_lines))))
       = Kpis.distinct_months k
    /\ NoDup (map (fun r => (Monthly.month r, Monthly.category_l1 r))
                  (rev (Monthly.groups Samples.three_lines))).
Proof.
  apply (monthly_totals Sample.engine Samples.three_lines Samples.raw_only).
  exact three_lines_monthly.
Defined.

Import FilterOptions.

(** ** The filter options *)

Section OwnProperties.
Context {A : Type}.

Lemma assoc_set_same (k : string) (v : A) (o : object A) :
  Lines.assoc k (set_prop k v o) = Some v.
Proof.
  induction o as [|[k' v'] o IH]; simpl.
  - now rewrite String.eqb_refl.
  - destruct (String.eqb_spec k k') as [->|Hne]; simpl.
    + now rewrite String.eqb_refl.
    + destruct (String.eqb_spec k k'); [congruence|exact IH].
Qed.

Lemma assoc_set_other (k k0 : string) (v : A) (o : object A) :
  k <> k0 -> Lines.assoc k (set_prop k0 v o) = Lines.assoc k o.
Proof.
  intros Hne. induction o as [|[k' v'] o IH]; simpl.
  - destruct (String.eqb_spec k k0); [congruence|reflexivity].
  - destruct (String.eqb_spec k0 k') as [->|Hne']; simpl.
    + destruct (String.eqb_spec k k'); [congruence|reflexivity].
    + destruct (String.eqb_spec k k'); [reflexivity|exact IH].
Qed.

End OwnProperties.

Section Sorting.

Lemma insert_string_perm (x : string) (l : list string) :
  Permutation (insert x l) (x :: l).
Proof.
  induction l as [|y l IH]; simpl; [apply Permutation_refl|].
  destruct (String.leb x y); [apply Permutation_refl|].
  eapply Permutation_trans; [apply perm_skip, IH|apply perm_swap].
Qed.

Lemma sort_perm (l : list string) : Permutation (sort l) l.
Proof.
  induction l as [|x l IH]; simpl; [constructor|].
  eapply Permutation_trans; [apply insert_string_perm|now apply perm_skip].
Qed.

Lemma insert_string_sorted (x : string) (l : list string) :
  StronglySorted (fun a b => String.leb a b = true) l ->
  StronglySorted (fun a b => String.leb a b = true) (insert x l).
Proof.
  induction 1 as [|y l Hs IH Hy]; simpl.
  - repeat constructor.
  - destruct (String.leb x y) eqn:Hxy.
    + constructor; [now constructor|].
      constructor; [exact Hxy|].
      rewrite Forall_forall in *. intros z Hz.
      eapply string_leb_trans; [exact Hxy|now apply Hy].
    + constructor; [exact IH|].
      rewrite Forall_forall in *. intros z Hz.
      apply (Permutation_in _ (insert_string_perm x l)) in Hz.
      destruct Hz as [<-|Hz]; [|now apply Hy].
      destruct (String.leb_total x y) as [H|H]; [congruence|exact H].
Qed.

Lemma sort_sorted (l : list string) :
  StronglySorted (fun a b => String.leb a b = true) (sort l).
Proof.
  induction l as [|x l IH]; simpl; [constructor|].
  now apply insert_string_sorted.
Qed.

Lemma leb_distinct_ltb (a b : string) :
  String.leb a b = true -> a <> b -> String.ltb a b = true.
Proof.
  unfold String.leb, String.ltb. intros H Hne.
  destruct (String.compare a b) eqn:Hc; try easy.
  apply String.compare_eq_iff in Hc. congruence.
Qed.

Lemma sorted_nodup_strict (l : list string) :
  StronglySorted (fun a b => String.leb a b = true) l -> NoDup l ->
  StronglySorted (fun a b => String.ltb a b = true) l.
Proof.
  induction 1 as [|x l Hs IH Hx]; intros Hnd; [constructor|].
  inversion Hnd as [|? ? Hnin Hnd']; subst.
  constructor; [now apply IH|].
  rewrite Forall_forall in *. intros y Hy.
  apply leb_distinct_ltb; [now apply Hx|]. intros ->. now apply Hnin.
Qed.

Lemma set_of_in (l : list string) (x : string) : In x (set_of l) <-> In x l.
Proof.
  induction l as [|y l IH]; simpl; [tauto|].
  split.
  - intros [H|H]; [now left|]. right. apply IH.
    apply in_remove in H. tauto.
  - intros [H|H]; [now left|].
    destruct (string_dec y x) as [e|ne]; [now left|].
    right. apply in_in_remove; [congruence|]. now apply IH.
Qed.

Lemma remove_nodup (x : string) (l : list string) :
  NoDup l -> NoDup (remove string_dec x l).
Proof.
  induction 1 as [|y l Hnin Hnd IH]; simpl; [constructor|].
  destruct (string_dec x y); [exact IH|].
  constructor; [|exact IH]. intros H. apply in_remove in H. tauto.
Qed.

Lemma set_of_nodup (l : list string) : NoDup (set_of l).
Proof.
  induction l as [|y l IH]; simpl; constructor.
  - apply remove_In.
  - now apply remove_nodup.
Qed.

Lemma truthy_values_in (xs : list (option string)) (s : string) :
  In s (truthy_values xs) <-> exists v, In v xs /\ present v = Some s.
Proof.
  unfold truthy_values. rewrite in_flat_map. split.
  - intros (v & Hv & Hs). exists v. split; [exact Hv|].
    destruct (present v); [destruct Hs as [<-|[]]; reflexivity|destruct Hs].
  - intros (v & Hv & Hs). exists v. split; [exact Hv|]. rewrite Hs. now left.
Qed.

End Sorting.

(** X12: the [l1s] list of the filter options is strictly ascending by
    code units, so it has no duplicates, and it holds exactly the
    top-level categories of the rows that are neither NULL nor empty. *)
Theorem filters_l1s (rows : list cat_row) :
  StronglySorted (fun a b => String.ltb a b = true) (l1s rows)
  /\ forall s, In s (l1s rows) <-> exists row, In row rows /\ present (l1 row) = Some s.
Proof.
  unfold l1s. split.
  - apply sorted_nodup_strict; [apply sort_sorted|].
    apply (Permutation_NoDup (Permutation_sym (sort_perm _))). apply set_of_nodup.
  - intros s. split.
    + intros H. apply (Permutation_in _ (sort_perm _)) in H.
      rewrite set_of_in in H. rewrite truthy_values_in in H.
      destruct H as (v & Hv & Hs). apply in_map_iff in Hv.
      destruct Hv as (row & <- & Hrow). now exists row.
    + intros (row & Hrow & Hs).
      apply (Permutation_in _ (Permutation_sym (sort_perm _))).
      rewrite set_of_in. rewrite truthy_values_in. exists (l1 row).
      split; [now apply in_map|exact Hs].
Qed.

Section Hierarchy.

Lemma run_snoc (rows : list cat_row) (row : cat_row) :
  run (rows ++ [row]) = step (run rows) row.
Proof. unfold run. now rewrite fold_left_app. Qed.

Lemma truthy_values_app (xs ys : list (option string)) :
  truthy_values (xs ++ ys) = truthy_values xs ++ truthy_values ys.
Proof. unfold truthy_values. apply flat_map_app. Qed.

Lemma l3s_snoc (rows : list cat_row) (row : cat_row) (a b : string) :
  l3s_of (rows ++ [row]) a b
  = l3s_of rows a b ++ (if under2 a b row then truthy_values [l3 row] else []).
Proof.
  unfold l3s_of. rewrite filter_app, map_app, truthy_values_app. f_equal.
  simpl. destruct (under2 a b row); reflexivity.
Qed.

Lemma existsb_snoc {A} (f : A -> bool) (l : list A) (x : A) :
  existsb f (l ++ [x]) = existsb f l || f x.
Proof. rewrite existsb_app. simpl. now rewrite orb_false_r. Qed.

Lemma under2_under1 (a b : string) (row : cat_row) :
  under2 a b row = true -> under1 a row = true.
Proof. unfold under2. now intros H%andb_true_iff. Qed.

Lemma no_under1_no_under2 (rows : list cat_row) (a b : string) :
  existsb (under1 a) rows = false -> existsb (under2 a b) rows = false.
Proof.
  induction rows as [|r rows IH]; simpl; [reflexivity|].
  intros H. apply orb_false_iff in H as [H1 H2].
  rewrite (IH H2), orb_false_r. unfold under2. now rewrite H1.
Qed.

Lemma no_under2_no_l3s (rows : list cat_row) (a b : string) :
  existsb (under2 a b) rows = false -> l3s_of rows a b = [].
Proof.
  unfold l3s_of. induction rows as [|r rows IH]; simpl; [reflexivity|].
  intros H. apply orb_false_iff in H as [H1 H2]. rewrite H1. now apply IH.
Qed.

Lemma under1_of (a x : string) (row : cat_row) :
  present (l1 row) = Some x -> under1 a row = (x =? a).
Proof. unfold under1. now intros ->. Qed.

Lemma under2_of (a b x y : string) (row : cat_row) :
  present (l1 row) = Some x -> present (l2 row) = Some y ->
  under2 a b row = (x =? a) && (y =? b).
Proof. unfold under2, under1. now intros -> ->. Qed.

Lemma under2_no_l2 (a b : string) (row : cat_row) :
  present (l2 row) = None -> under2 a b row = false.
Proof. unfold under2. intros ->. apply andb_false_r. Qed.

Lemma under1_no_l1 (a : string) (row : cat_row) :
  present (l1 row) = None -> under1 a row = false.
Proof. unfold under1. now intros ->. Qed.

Lemma truthy_one (row : cat_row) :
  truthy_values [l3 row]
  = match present (l3 row) with Some c => [c] | None => [] end.
Proof. unfold truthy_values. simpl. now rewrite app_nil_r. Qed.

(** A row of another top-level category leaves [hierarchy[a]] as it is. *)
Lemma inner_faithful_other (rows : list cat_row) (row : cat_row) (a : string) (o : inner) :
  under1 a row = false ->
  inner_faithful rows a o -> inner_faithful (rows ++ [row]) a o.
Proof.
  intros Hu Ho b. specialize (Ho b).
  assert (Hu2 : under2 a b row = false) by (unfold under2; now rewrite Hu).
  rewrite l3s_snoc, existsb_snoc, Hu2, app_nil_r, orb_false_r. exact Ho.
Qed.

(** The body of [if (row.l2)] keeps [hierarchy[a]] faithful. *)
Lemma inner_step_faithful (rows : list cat_row) (row : cat_row) (a : string)
  (o o' : inner) :
  present (l1 row) = Some a ->
  inner_faithful rows a o -> inner_step o row = Some o' ->
  inner_faithful (rows ++ [row]) a o'.
Proof.
  intros Ha Ho Hstep b. rewrite l3s_snoc, existsb_snoc, truthy_one.
  unfold inner_step in Hstep.
  destruct (present (l2 row)) as [b0|] eqn:Hb.
  2:{ injection Hstep as <-. rewrite (under2_no_l2 a b row Hb), app_nil_r, orb_false_r.
      apply Ho. }
  rewrite (under2_of a b a b0 row Ha Hb), String.eqb_refl. simpl andb.
  destruct (String.eqb_spec b0 b) as [->|Hne].
  - (* the row's own sub-category *)
    pose proof (Ho b) as Hob.
    destruct (Lines.assoc b o) as [arr|] eqn:Harr.
    + destruct Hob as (Hi & He & ->).
      destruct (present (l3 row)) as [c|]; injection Hstep as <-.
      * rewrite assoc_set_same. rewrite orb_true_r. now repeat split.
      * rewrite Harr, app_nil_r, orb_true_r. now repeat split.
    + destruct Hob as (Hor & Hnil). rewrite Hnil.
      destruct (inherited b) eqn:Hi.
      * destruct (present (l3 row)) as [c|]; [discriminate|].
        injection Hstep as <-. rewrite Harr. split; [now left|reflexivity].
      * destruct (present (l3 row)) as [c|]; injection Hstep as <-;
          rewrite assoc_set_same, orb_true_r; now repeat split.
  - (* another sub-category *)
    rewrite app_nil_r, orb_false_r.
    assert (Hsame : Lines.assoc b o' = Lines.assoc b o).
    { destruct (Lines.assoc b0 o) as [arr|].
      - destruct (present (l3 row)); injection Hstep as <-;
          [apply assoc_set_other; congruence|reflexivity].
      - destruct (inherited b0).
        + destruct (present (l3 row)); [discriminate|]. now injection Hstep as <-.
        + destruct (present (l3 row)); injection Hstep as <-;
            apply assoc_set_other; congruence. }
    rewrite Hsame. apply Ho.
Qed.

Lemma inner_faithful_nil (rows : list cat_row) (a : string) :
  existsb (under1 a) rows = false -> inner_faithful rows a [].
Proof.
  intros H b. simpl.
  pose proof (no_under1_no_under2 rows a b H) as H2.
  split; [now right|now apply no_under2_no_l3s].
Qed.

(** One iteration keeps [hierarchy] faithful to the rows read. *)
Lemma step_faithful (rows : list cat_row) (row : cat_row) (h h' : hierarchy) :
  faithful rows h -> step (Built h) row = Built h' ->
  faithful (rows ++ [row]) h'.
Proof.
  intros Hh Hstep. unfold step in Hstep.
  destruct (present (l1 row)) as [a0|] eqn:Ha.
  2:{ injection Hstep as <-. intros a. specialize (Hh a).
      pose proof (under1_no_l1 a row Ha) as Hu.
      destruct (Lines.assoc a h) as [o|].
      - destruct Hh as (Hi & He & Ho). rewrite existsb_snoc, Hu, orb_false_r.
        repeat split; try assumption. now apply inner_faithful_other.
      - destruct Hh as (Hor & Hnil). rewrite existsb_snoc, Hu, orb_false_r.
        split; [exact Hor|]. intros b. rewrite l3s_snoc.
        unfold under2. rewrite Hu. simpl. rewrite app_nil_r. apply Hnil. }
  (* what holds of every other key *)
  assert (Hother : forall a, a <> a0 ->
            match Lines.assoc a h with
            | Some o =>
                inherited a = false /\ existsb (under1 a) (rows ++ [row]) = true
                /\ inner_faithful (rows ++ [row]) a o
            | None =>
                (inherited a = true \/ existsb (under1 a) (rows ++ [row]) = false)
                /\ forall b, l3s_of (rows ++ [row]) a b = []
            end).
  { intros a Hne. specialize (Hh a).
    assert (Hu : under1 a row = false).
    { rewrite (under1_of a a0 row Ha). apply String.eqb_neq. congruence. }
    destruct (Lines.assoc a h) as [o|].
    - destruct Hh as (Hi & He & Ho). rewrite existsb_snoc, Hu, orb_false_r.
      repeat split; try assumption. now apply inner_faithful_other.
    - destruct Hh as (Hor & Hnil). rewrite existsb_snoc, Hu, orb_false_r.
      split; [exact Hor|]. intros b. rewrite l3s_snoc.
      unfold under2. rewrite Hu. simpl. rewrite app_nil_r. apply Hnil. }
  assert (Hu0 : under1 a0 row = true).
  { rewrite (under1_of a0 a0 row Ha). apply String.eqb_refl. }
  pose proof (Hh a0) as Hh0.
  destruct (Lines.assoc a0 h) as [o|] eqn:Hassoc.
  - destruct Hh0 as (Hi & He & Ho).
    destruct (inner_step o row) as [o'|] eqn:Hin; [|discriminate].
    injection Hstep as <-. intros a.
    destruct (String.eqb_spec a a0) as [->|Hne].
    + rewrite assoc_set_same. rewrite existsb_snoc, Hu0, orb_true_r.
      repeat split; try assumption. now apply (inner_step_faithful rows row a0 o).
    + rewrite assoc_set_other by assumption. now apply Hother.
  - destruct Hh0 as (Hor & Hnil).
    destruct (inherited a0) eqn:Hi.
    + destruct (present (l2 row)) as [b0|] eqn:Hb; [discriminate|].
      injection Hstep as <-. intros a.
      destruct (String.eqb_spec a a0) as [->|Hne]; [|now apply Hother].
      rewrite Hassoc. split; [now left|].
      intros b. rewrite l3s_snoc, (under2_no_l2 a0 b row Hb), app_nil_r. apply Hnil.
    + destruct Hor as [Hor|Hor]; [discriminate|].
      destruct (inner_step [] row) as [o'|] eqn:Hin; [|discriminate].
      injection Hstep as <-. intros a.
      destruct (String.eqb_spec a a0) as [->|Hne].
      * rewrite assoc_set_same. rewrite existsb_snoc, Hu0, orb_true_r.
        repeat split; try assumption.
        apply (inner_step_faithful rows row a0 []); try assumption.
        now apply inner_faithful_nil.
      * rewrite assoc_set_other by assumption. now apply Hother.
Qed.

Lemma faithful_nil : faithful [] [].
Proof. intros a. simpl. split; [now right|reflexivity]. Qed.

Lemma step_stuck (rows : list cat_row) (p : progress) :
  p = Threw \/ p = Foreign -> fold_left step rows p = p.
Proof.
  induction rows as [|r rows IH]; [reflexivity|].
  intros [-> | ->]; simpl; apply IH; tauto.
Qed.

(** Whenever the loop ends with an object, it is faithful to the rows. *)
Lemma run_faithful (rows : list cat_row) (h : hierarchy) :
  run rows = Built h -> faithful rows h.
Proof.
  revert h. induction rows as [|row rows IH] using rev_ind; intros h H.
  - injection H as <-. apply faithful_nil.
  - rewrite run_snoc in H.
    destruct (run rows) as [h0| |] eqn:Hr; try discriminate.
    apply (step_faithful rows row h0); [now apply IH|exact H].
Qed.

Lemma existsb_under1 (rows : list cat_row) (a : string) :
  existsb (under1 a) rows = true
  <-> exists row, In row rows /\ present (l1 row) = Some a.
Proof.
  rewrite existsb_exists. split; intros (row & Hin & H); exists row; split; try assumption.
  - unfold under1 in H. destruct (present (l1 row)); [|discriminate].
    apply String.eqb_eq in H. now subst.
  - unfold under1. rewrite H. apply String.eqb_refl.
Qed.

Lemma existsb_under2 (rows : list cat_row) (a b : string) :
  existsb (under2 a b) rows = true
  <-> exists row, In row rows /\ present (l1 row) = Some a /\ present (l2 row) = Some b.
Proof.
  rewrite existsb_exists. split; intros (row & Hin & H); exists row; split; try assumption.
  - unfold under2, under1 in H.
    destruct (present (l1 row)); [|discriminate].
    destruct (present (l2 row)); [|now rewrite andb_false_r in H].
    apply andb_true_iff in H as [H1 H2].
    apply String.eqb_eq in H1, H2. now subst.
  - destruct H as [H1 H2]. unfold under2, under1. rewrite H1, H2.
    now rewrite !String.eqb_refl.
Qed.

End Hierarchy.

Section HierarchyAnswers.

Lemma inner_step_plain (o : inner) (row : cat_row) :
  (forall s, present (l2 row) = Some s -> inherited s = false) ->
  exists o', inner_step o row = Some o'.
Proof.
  intros H. unfold inner_step.
  destruct (present (l2 row)) as [b|]; [|now eexists].
  destruct (Lines.assoc b o).
  - destruct (present (l3 row)); now eexists.
  - rewrite (H b eq_refl). destruct (present (l3 row)); now eexists.
Qed.

Lemma step_plain (h : hierarchy) (row : cat_row) :
  (forall s, present (l1 row) = Some s \/ present (l2 row) = Some s ->
             inherited s = false) ->
  exists h', step (Built h) row = Built h'.
Proof.
  intros H. unfold step.
  destruct (present (l1 row)) as [a|] eqn:Ha; [|now eexists].
  assert (Hin : forall o, exists o', inner_step o row = Some o').
  { intros o. apply inner_step_plain. intros s Hs. apply H. now right. }
  destruct (Lines.assoc a h) as [o|].
  - destruct (Hin o) as [o' ->]. now eexists.
  - rewrite (H a (or_introl eq_refl)).
    destruct (Hin []) as [o' ->]. now eexists.
Qed.

Lemma run_plain (rows : list cat_row) :
  (forall row s, In row rows ->
                 present (l1 row) = Some s \/ present (l2 row) = Some s ->
                 inherited s = false) ->
  exists h, run rows = Built h.
Proof.
  induction rows as [|row rows IH] using rev_ind; intros H.
  - now exists [].
  - rewrite run_snoc. destruct IH as [h ->].
    + intros r s Hr. apply H. apply in_or_app. now left.
    + apply step_plain. intros s. apply H. apply in_or_app. right. now left.
Qed.

(** The iteration on a row [a / b / c] whose [b] is an inherited name. *)
Lemma step_throws (rows : list cat_row) (h : hierarchy) (row : cat_row) (a b c : string) :
  faithful rows h ->
  present (l1 row) = Some a -> inherited a = false ->
  present (l2 row) = Some b -> inherited b = true ->
  present (l3 row) = Some c ->
  step (Built h) row = Threw.
Proof.
  intros Hh Ha Hia Hb Hib Hc. unfold step. rewrite Ha.
  assert (Hin : forall o, Lines.assoc b o = None -> inner_step o row = None).
  { intros o Ho. unfold inner_step. now rewrite Hb, Ho, Hib, Hc. }
  pose proof (Hh a) as H.
  destruct (Lines.assoc a h) as [o|].
  - destruct H as (_ & _ & Ho). specialize (Ho b).
    destruct (Lines.assoc b o) as [l|] eqn:Hl.
    + destruct Ho as (Hi & _). congruence.
    + now rewrite (Hin o Hl).
  - rewrite Hia. now rewrite (Hin [] eq_refl).
Qed.

End HierarchyAnswers.

(** X13: when the filters endpoint answers with options, [months] are
    the month rows, [l1s] is as computed from the category rows, and
    [hierarchy] is faithful to them: its own keys are the top-level
    categories of the rows that are not names inherited from
    [Object.prototype], the keys under [a] are the second-level names of
    the rows under [a] that are not such names either, and [hierarchy[a][b]]
    lists the non-empty third-level names of the rows [a / b] in row
    order. *)
Theorem filters_hierarchy (month_rows : list string) (rows : list cat_row) (o : options) :
  handler month_rows rows = Sent o ->
  months o = month_rows /\ opt_l1s o = l1s rows
  /\ forall a b,
       (own a (opt_hierarchy o) = true
        <-> inherited a = false
            /\ exists row, In row rows /\ present (l1 row) = Some a)
       /\ (own2 (opt_hierarchy o) a b = true
           <-> inherited a = false /\ inherited b = false
               /\ exists row, In row rows /\ present (l1 row) = Some a
                              /\ present (l2 row) = Some b)
       /\ children (opt_hierarchy o) a b = l3s_of rows a b.
Proof.
  unfold handler. destruct (run rows) as [h| |] eqn:Hr; try discriminate.
  intros H. injection H as <-. simpl. split; [reflexivity|]. split; [reflexivity|].
  pose proof (run_faithful rows h Hr) as Hf.
  intros a b. specialize (Hf a). unfold own, own2, children.
  destruct (Lines.assoc a h) as [oa|].
  - destruct Hf as (Hi & He & Ho). specialize (Ho b). split; [|split].
    + split; [intros _|reflexivity]. split; [exact Hi|]. now apply existsb_under1.
    + unfold own. destruct (Lines.assoc b oa) as [l|].
      * destruct Ho as (Hib & Heb & _). split; [intros _|reflexivity].
        repeat split; try assumption. now apply existsb_under2.
      * destruct Ho as (Hor & _). split; [discriminate|].
        intros (_ & Hib & Hex). apply existsb_under2 in Hex.
        destruct Hor; congruence.
    + destruct (Lines.assoc b oa) as [l|].
      * now destruct Ho as (_ & _ & ->).
      * now destruct Ho as (_ & ->).
  - destruct Hf as (Hor & Hnil). split; [|split].
    + split; [discriminate|]. intros (Hi & Hex). apply existsb_under1 in Hex.
      destruct Hor; congruence.
    + split; [discriminate|]. intros (Hi & _ & row & Hin & H1 & _).
      assert (Hex : existsb (under1 a) rows = true)
        by (apply existsb_under1; now exists row).
      destruct Hor; congruence.
    + now rewrite Hnil.
Qed.

Lemma filters_hierarchy_steel :
  months (mkOptions ["2025-01"] ["Office"; "Raw"]
                    [("Raw", [("Steel", ["Rod"; "Bar"])]); ("Office", [])])
  = ["2025-01"]
  /\ opt_l1s (mkOptions ["2025-01"] ["Office"; "Raw"]
                        [("Raw", [("Steel", ["Rod"; "Bar"])]); ("Office", [])])
     = l1s Samples.steel_rows
  /\ forall a b,
       (own a [("Raw", [("Steel", ["Rod"; "Bar"])]); ("Office", [])] = true
        <-> inherited a = false
            /\ exists row, In row Samples.steel_rows /\ present (l1 row) = Some a)
       /\ (own2 [("Raw", [("Steel", ["Rod"; "Bar"])]); ("Office", [])] a b = true
           <-> inherited a = false /\ inherited b = false
               /\ exists row, In row Samples.steel_rows /\ present (l1 row) = Some a
                              /\ present (l2 row) = Some b)
       /\ children [("Raw", [("Steel", ["Rod"; "Bar"])]); ("Office", [])] a b
          = l3s_of Samples.steel_rows a b.
Proof.
  apply (filters_hierarchy ["2025-01"] Samples.steel_rows
           (mkOptions ["2025-01"] ["Office"; "Raw"]
                      [("Raw", [("Steel", ["Rod"; "Bar"])]); ("Office", [])])).
  vm_compute. reflexivity.
Defined.

(** X14: when no first- or second-level category of any row is a name
    inherited from [Object.prototype], the filters endpoint answers with
    options. *)
Theorem filters_answers (month_rows : list string) (rows : list cat_row) :
  (forall row s, In row rows ->
                 present (l1 row) = Some s \/ present (l2 row) = Some s ->
                 inherited s = false) ->
  exists h, handler month_rows rows = Sent (mkOptions month_rows (l1s rows) h).
Proof.
  intros H. destruct (run_plain rows H) as [h Hr].
  exists h. unfold handler. now rewrite Hr.
Qed.

Lemma filters_answers_steel :
  exists h,
    handler ["2025-01"] Samples.steel_rows
    = Sent (mkOptions ["2025-01"] (l1s Samples.steel_rows) h).
Proof.
  apply (filters_answers ["2025-01"] Samples.steel_rows).
  intros row s Hin Hs.
  repeat (destruct Hin as [<-|Hin]; [vm_compute in Hs;
    destruct Hs as [Hs|Hs]; try discriminate Hs; injection Hs as <-; reflexivity|]).
  destruct Hin.
Defined.

(** X15: a category row [a / b / c] whose second-level name [b] is a name
    inherited from [Object.prototype] (such as [constructor]), under a
    top-level name that is not, makes the filters endpoint answer 500
    whenever the rows before it were read without reaching it: [push] is
    called on the inherited member. *)
Theorem filters_inherited_name_fails (month_rows : list string)
  (before after : list cat_row) (row : cat_row) (h : hierarchy) (a b c : string) :
  run before = Built h ->
  present (l1 row) = Some a -> inherited a = false ->
  present (l2 row) = Some b -> inherited b = true ->
  present (l3 row) = Some c ->
  handler month_rows (before ++ row :: after) = ServerError500.
Proof.
  intros Hr Ha Hia Hb Hib Hc. unfold handler, run.
  rewrite fold_left_app. fold (run before). rewrite Hr.
  change (fold_left step (row :: after) (Built h))
    with (fold_left step after (step (Built h) row)).
  rewrite (step_throws before h row a b c (run_faithful before h Hr) Ha Hia Hb Hib Hc).
  rewrite step_stuck by now left. reflexivity.
Qed.

Lemma filters_inherited_name_fails_constructor :
  handler ["2025-01"] (Samples.steel_rows ++ Samples.constructor_row :: [])
  = ServerError500.
Proof.
  apply (filters_inherited_name_fails ["2025-01"] Samples.steel_rows []
           Samples.constructor_row
           [("Raw", [("Steel", ["Rod"; "Bar"])]); ("Office", [])]
           "Tools" "constructor" "Kit"); reflexivity.
Defined.

(** ** The lines endpoint: what [total] counts *)

Section LinesTotal.

Lemma rollups_length (rows : list line) :
  List.length (Lines.rollups rows)
  = List.length (nodup Lines.data_key_dec (map Lines.data_key_of rows)).
Proof.
  unfold Lines.rollups. rewrite length_map. apply group_by_length.
Qed.

Lemma count_groups_length (rows : list line) :
  Lines.count_groups rows
  = Z.of_nat (List.length (nodup Lines.count_key_dec (map Lines.count_key_of rows))).
Proof.
  unfold Lines.count_groups. f_equal. apply group_by_length.
Qed.

Lemma window_length {A} (lim off : nat) (l : list A) :
  List.length (Lines.window lim off l) = Nat.min lim (List.length l - off).
Proof.
  unfold Lines.window. now rewrite length_firstn, length_skipn.
Qed.

Lemma row_count_num (n : number) (k : nat) :
  Lines.row_count n = Some k -> exists z, n = Num z /\ (0 <= z)%Z /\ k = Z.to_nat z.
Proof.
  destruct n as [|z]; [discriminate|]. unfold Lines.row_count.
  destruct ((0 <=? z) && (z <? 2 ^ 63))%Z eqn:Hc; [|discriminate].
  intros H. injection H as <-. apply andb_true_iff in Hc as [H0 _].
  apply Z.leb_le in H0. now exists z.
Qed.

End LinesTotal.

(** X16: when the count statement and the data statement group the
    selected lines alike (two lines share variant, unit and month exactly
    when they share the eleven grouped columns), a successful lines
    response has [total] equal to the number of rollup rows, and its page
    holds [min(pageSize, total - (page - 1) * pageSize)] rows, none when
    the page lies past the end. *)
Theorem lines_page_length (E : engine) (db : list line) (query : query)
  (b : Lines.body) (rows : list line) :
  selected E query db = Some rows ->
  (forall x y, In x rows -> In y rows ->
     (Lines.count_key_of x = Lines.count_key_of y
      <-> Lines.data_key_of x = Lines.data_key_of y)) ->
  Lines.handler E db query (Json b) ->
  exists T P S : Z,
    Lines.total b = Num T /\ Lines.res_page b = Num P /\ Lines.res_pageSize b = Num S
    /\ T = Z.of_nat (List.length (Lines.rollups rows))
    /\ Z.of_nat (List.length (Lines.data b))
       = Z.max 0 (Z.min S (T - (P - 1) * S)).
Proof.
  intros Hsel Hkeys. unfold Lines.handler. rewrite Hsel.
  destruct (Lines.plan_of query) as [p|] eqn:Hp; [|discriminate].
  intros (out & [Hperm _] & Heq). injection Heq as ->.
  unfold Lines.plan_of in Hp.
  destruct (Lines.column_of_name _) as [c|]; [|discriminate].
  destruct (Lines.row_count (Lines.pageSize query)) as [lim|] eqn:Hlim; [|discriminate].
  destruct (Lines.row_count (Lines.offset query)) as [off|] eqn:Hoff; [|discriminate].
  injection Hp as <-. simpl.
  destruct (row_count_num _ _ Hlim) as (S & HS & HS0 & ->).
  destruct (row_count_num _ _ Hoff) as (O & HO & HO0 & ->).
  unfold Lines.offset in HO. rewrite HS in HO.
  destruct (Lines.page query) as [|P] eqn:HP; [discriminate|].
  simpl in HO. injection HO as <-.
  assert (HT : Lines.count_groups rows = Z.of_nat (List.length (Lines.rollups rows))).
  { rewrite count_groups_length, rollups_length. f_equal.
    now apply nodup_keys_length. }
  exists (Lines.count_groups rows), P, S.
  split; [reflexivity|]. split; [reflexivity|]. split; [exact HS|]. split; [exact HT|].
  rewrite window_length. rewrite <- (Permutation_length Hperm). rewrite HT.
  lia.
Qed.

Lemma two_parts_keys (x y : line) :
  In x Sample.two_parts -> In y Sample.two_parts ->
  (Lines.count_key_of x = Lines.count_key_of y
   <-> Lines.data_key_of x = Lines.data_key_of y).
Proof.
  intros [<-|[<-|[]]] [<-|[<-|[]]]; split; intros H;
    try reflexivity; vm_compute in H; discriminate H.
Qed.

Lemma lines_page_length_two_parts :
  exists T P S : Z,
    Lines.total Sample.parts_page1 = Num T
    /\ Lines.res_page Sample.parts_page1 = Num P
    /\ Lines.res_pageSize Sample.parts_page1 = Num S
    /\ T = Z.of_nat (List.length (Lines.rollups Sample.two_parts))
    /\ Z.of_nat (List.length (Lines.data Sample.parts_page1))
       = Z.max 0 (Z.min S (T - (P - 1) * S)).
Proof.
  apply (lines_page_length Sample.engine Sample.two_parts (page_of_ten "1")
           Sample.parts_page1 Sample.two_parts).
  - exact parts_selected.
  - exact two_parts_keys.
  - exact parts_page1_ok.
Defined.

Import Auth.

(** ** The session guard *)

Section Sessions.
Variable e : env.

Lemma session_snoc (trace : list request) (r : request) :
  session_after e (trace ++ [r]) = fst (handle e (session_after e trace) r).
Proof. unfold session_after. now rewrite fold_left_app. Qed.

Lemma logged_in_snoc (trace : list request) (x : request) :
  logged_in e (trace ++ [x])
  <-> opens_session e x = true \/ (ends_session x = false /\ logged_in e trace).
Proof.
  split.
  - intros (before & r & after & Heq & Hr & Ha).
    induction after as [|y after' _] using rev_ind.
    + apply app_inj_tail in Heq as [_ <-]. now left.
    + replace (before ++ r :: after' ++ [y]) with ((before ++ r :: after') ++ [y]) in Heq
        by (now rewrite <- app_assoc).
      apply app_inj_tail in Heq as [-> <-].
      rewrite forallb_app in Ha. apply andb_true_iff in Ha as [Ha Hy].
      simpl in Hy. rewrite andb_true_r in Hy. apply negb_true_iff in Hy.
      right. split; [exact Hy|]. now exists before, r, after'.
  - intros [Hx|[Hx (before & r & after & -> & Hr & Ha)]].
    + now exists trace, x, [].
    + exists before, r, (after ++ [x]). rewrite <- app_assoc. split; [reflexivity|].
      split; [exact Hr|]. rewrite forallb_app, Ha. simpl. now rewrite Hx.
Qed.

Lemma session_logged_in (trace : list request) :
  session_after e trace = true <-> logged_in e trace.
Proof.
  induction trace as [|x trace IH] using rev_ind.
  - split; [discriminate|]. intros (before & r & after & Heq & _).
    destruct before; discriminate.
  - rewrite session_snoc, logged_in_snoc, <- IH.
    destruct x as [u p| | |url]; simpl.
    + destruct (credentials_match e u p); simpl; [tauto|].
      split; [now right|]. intros [H|[_ H]]; [discriminate|exact H].
    + split; [discriminate|]. intros [H|[H _]]; discriminate.
    + split; [discriminate|]. intros [H|[H _]]; discriminate.
    + split; [now right|]. intros [H|[_ H]]; [discriminate|exact H].
Qed.

End Sessions.

(** X17: in production, a request to a guarded route is let through
    exactly when the session holds a login whose username and password
    both equalled the configured ones (unset values included) with no
    logout or expiry since; otherwise it is answered 401 when its URL
    starts with [/api/] and redirected to [/login] when not, and the
    route never runs. *)
Theorem guard_lets_through_after_login (e : env) (trace : list request)
  (originalUrl : string) :
  production e = true ->
  let answer := snd (handle e (session_after e trace) (Guarded originalUrl)) in
  (answer = Next <-> logged_in e trace)
  /\ (~ logged_in e trace ->
      answer = if String.prefix "/api/" originalUrl
               then Unauthorised else Redirect "/login").
Proof.
  intros Hprod answer. unfold answer. simpl. unfold requireAuth. rewrite Hprod. simpl.
  rewrite <- session_logged_in.
  destruct (session_after e trace).
  - split; [tauto|]. intros H. now exfalso.
  - split.
    + split; [|discriminate].
      destruct (String.prefix "/api/" originalUrl); discriminate.
    + reflexivity.
Qed.

Lemma guard_lets_through_after_login_sample :
  let answer :=
    snd (handle Samples.production_env
           (session_after Samples.production_env Samples.login_trace)
           (Guarded "/api/po/lines")) in
  (answer = Next <-> logged_in Samples.production_env Samples.login_trace)
  /\ (~ logged_in Samples.production_env Samples.login_trace ->
      answer = if String.prefix "/api/" "/api/po/lines"
               then Unauthorised else Redirect "/login").
Proof.
  apply (guard_lets_through_after_login Samples.production_env Samples.login_trace
           "/api/po/lines").
  reflexivity.
Defined.

(** ** From the browser's state to [req.query] *)

Section QueryString.

Lemma assoc_filter_other {A} (k name : string) (p : list (string * A)) :
  k <> name ->
  Lines.assoc k (filter (fun e => negb (name =? fst e)) p) = Lines.assoc k p.
Proof.
  intros Hne. induction p as [|[n v] p IH]; [reflexivity|]. simpl.
  destruct (String.eqb_spec name n) as [->|Hn]; simpl.
  - destruct (String.eqb_spec k n); [congruence|exact IH].
  - destruct (String.eqb_spec k n); [reflexivity|exact IH].
Qed.

Lemma params_set_same (k v : string) (p : Client.URLSearchParams) :
  Lines.assoc k (Client.set k v p) = Some v.
Proof.
  induction p as [|[n w] p IH]; simpl.
  - now rewrite String.eqb_refl.
  - destruct (String.eqb_spec k n) as [->|Hne]; simpl.
    + now rewrite String.eqb_refl.
    + destruct (String.eqb_spec k n); [congruence|exact IH].
Qed.

Lemma params_set_other (k name v : string) (p : Client.URLSearchParams) :
  k <> name -> Lines.assoc k (Client.set name v p) = Lines.assoc k p.
Proof.
  intros Hne. induction p as [|[n w] p IH]; simpl.
  - destruct (String.eqb_spec k name); [congruence|reflexivity].
  - destruct (String.eqb_spec name n) as [->|Hn]; simpl.
    + destruct (String.eqb_spec k n); [congruence|].
      now apply assoc_filter_other.
    + destruct (String.eqb_spec k n); [reflexivity|exact IH].
Qed.

(** Reading a name back after the loop over the scalar fields. *)
Lemma scalar_fold_lookup (kvs : list (string * string)) (p : Client.URLSearchParams)
  (k : string) :
  NoDup (map fst kvs) ->
  Lines.assoc k
    (fold_left (fun p kv => if snd kv =? "" then p else Client.set (fst kv) (snd kv) p)
               kvs p)
  = match Lines.assoc k kvs with
    | Some v => if v =? "" then Lines.assoc k p else Some v
    | None => Lines.assoc k p
    end.
Proof.
  revert p. induction kvs as [|[n v] kvs IH]; intros p Hnd; [reflexivity|].
  inversion Hnd as [|? ? Hnin Hnd']; subst. simpl fold_left. rewrite IH by assumption.
  simpl Lines.assoc. destruct (String.eqb_spec k n) as [->|Hne].
  - assert (Hnone : Lines.assoc n kvs = None).
    { destruct (Lines.assoc n kvs) as [w|] eqn:Hw; [|reflexivity].
      exfalso. apply Hnin. apply assoc_in in Hw.
      apply in_map_iff. now exists (n, w). }
    rewrite Hnone. simpl. destruct (v =? ""); [reflexivity|apply params_set_same].
  - simpl. destruct (v =? "").
    + reflexivity.
    + rewrite params_set_other by assumption. reflexivity.
Qed.

(** Reading a name back after the loop over the extra parameters. *)
Lemma extra_fold_lookup (kvs : list (string * Client.extra_value))
  (p : Client.URLSearchParams) (k : string) :
  NoDup (map fst kvs) ->
  Lines.assoc k
    (fold_left (fun p kv =>
                  match snd kv with
                  | Client.EStr "" => p
                  | v => Client.set (fst kv) (Client.String_ v) p
                  end) kvs p)
  = match Lines.assoc k kvs with
    | Some (Client.EStr "") => Lines.assoc k p
    | Some v => Some (Client.String_ v)
    | None => Lines.assoc k p
    end.
Proof.
  revert p. induction kvs as [|[n v] kvs IH]; intros p Hnd; [reflexivity|].
  inversion Hnd as [|? ? Hnin Hnd']; subst. simpl fold_left. rewrite IH by assumption.
  simpl Lines.assoc. destruct (String.eqb_spec k n) as [->|Hne].
  - assert (Hnone : Lines.assoc n kvs = None).
    { destruct (Lines.assoc n kvs) as [w|] eqn:Hw; [|reflexivity].
      exfalso. apply Hnin. apply assoc_in in Hw.
      apply in_map_iff. now exists (n, w). }
    rewrite Hnone. simpl.
    destruct v as [[|c s]|z]; try reflexivity; apply params_set_same.
  - simpl. destruct v as [[|c s]|z]; try reflexivity;
      rewrite params_set_other by assumption; reflexivity.
Qed.

Lemma toQS_lookup (f : Client.Filters) (extra : list (string * Client.extra_value))
  (k : string) :
  NoDup (map fst extra) ->
  Lines.assoc k (Client.toQS f extra)
  = match Lines.assoc k extra with
    | Some (Client.EStr "") => Lines.assoc k (Client.toQS f [])
    | Some v => Some (Client.String_ v)
    | None => Lines.assoc k (Client.toQS f [])
    end.
Proof.
  intros Hnd. unfold Client.toQS at 1. now rewrite extra_fold_lookup.
Qed.

Lemma scalar_names (f : Client.Filters) : NoDup (map fst (Client.scalar f)).
Proof.
  simpl. repeat constructor; simpl; intuition discriminate.
Qed.

(** Reading a name back from the entries of the filters alone. *)
Lemma filters_lookup (f : Client.Filters) (k : string) :
  Lines.assoc k (Client.toQS f [])
  = if k =? "skus"
    then (if (0 <? List.length (Client.skus f))%nat
          then Some (join "," (Client.skus f)) else None)
    else match Lines.assoc k (Client.scalar f) with
         | Some v => present (Some v)
         | None => None
         end.
Proof.
  unfold Client.toQS. cbn [fold_left].
  pose proof (scalar_fold_lookup (Client.scalar f) [] k (scalar_names f)) as H.
  destruct (String.eqb_spec k "skus") as [->|Hne].
  - destruct (0 <? List.length (Client.skus f))%nat.
    + apply params_set_same.
    + rewrite H. reflexivity.
  - assert (Hp :
      Lines.assoc k
        (fold_left (fun p kv => if snd kv =? "" then p else Client.set (fst kv) (snd kv) p)
                   (Client.scalar f) [])
      = match Lines.assoc k (Client.scalar f) with
        | Some v => present (Some v)
        | None => None
        end).
    { rewrite H. destruct (Lines.assoc k (Client.scalar f)) as [v|]; [|reflexivity].
      simpl. destruct (v =? ""); reflexivity. }
    destruct (0 <? List.length (Client.skus f))%nat.
    + rewrite params_set_other by assumption. exact Hp.
    + exact Hp.
Qed.

End QueryString.

Section SkuList.

Lemma no_comma_cons (c : ascii) (s : string) :
  Client.no_comma (String c s) = true ->
  Ascii.eqb "," c = false /\ Client.no_comma s = true.
Proof.
  intro H. change (Client.no_comma (String c s))
    with (negb (Ascii.eqb "," c) && Client.no_comma s) in H.
  apply andb_true_iff in H as [Hc Hs].
  apply negb_true_iff in Hc. now split.
Qed.

Lemma split_comma_last (s cur : string) :
  Client.no_comma s = true -> split_go "," 0 cur s = [(cur ++ s)%string].
Proof.
  revert cur. induction s as [|c s IH]; intros cur H.
  - simpl. now rewrite string_app_nil_r.
  - apply no_comma_cons in H as [Hc Hs].
    rewrite split_go_step, prefix_char, Hc.
    rewrite IH by assumption. now rewrite string_app_assoc.
Qed.

Lemma split_comma_field (s cur rest : string) :
  Client.no_comma s = true ->
  split_go "," 0 cur (s ++ String "," rest) = (cur ++ s)%string :: split_go "," 0 "" rest.
Proof.
  revert cur. induction s as [|c s IH]; intros cur H.
  - simpl append. rewrite split_go_step, prefix_char, Ascii.eqb_refl.
    now rewrite string_app_nil_r.
  - apply no_comma_cons in H as [Hc Hs].
    change (String c s ++ String "," rest)%string
      with (String c (s ++ String "," rest)).
    rewrite split_go_step, prefix_char, Hc.
    rewrite IH by assumption. now rewrite string_app_assoc.
Qed.

(** Splitting at commas undoes joining with commas, for fields without
    one. *)
Lemma split_join_comma (l : list string) :
  l <> [] -> forallb Client.no_comma l = true ->
  split "," (join "," l) = l.
Proof.
  unfold split. induction l as [|x l IH]; intros Hne H; [congruence|].
  simpl in H. apply andb_true_iff in H as [Hx Hl].
  destruct l as [|y l].
  - simpl. now rewrite split_comma_last.
  - change (join "," (x :: y :: l)) with (x ++ String "," (join "," (y :: l)))%string.
    rewrite split_comma_field by assumption.
    rewrite IH; [reflexivity|discriminate|assumption].
Qed.

Lemma clean_sku_facts (s : string) :
  Client.clean_sku s = true -> s <> "" /\ Client.no_comma s = true /\ trim s = s.
Proof.
  unfold Client.clean_sku. intros H.
  apply andb_true_iff in H as [H Ht]. apply andb_true_iff in H as [Hn Hc].
  apply negb_true_iff in Hn. apply String.eqb_neq in Hn. apply String.eqb_eq in Ht.
  now repeat split.
Qed.

(** The server's list for the joined field is the browser's list. *)
Lemma skuList_join (l : list string) :
  l <> [] -> forallb Client.clean_sku l = true ->
  skuList (join "," l) = l.
Proof.
  intros Hne H. unfold skuList. rewrite split_join_comma.
  - clear Hne. induction l as [|x l IH]; [reflexivity|].
    simpl in H. apply andb_true_iff in H as [Hx Hl].
    destruct (clean_sku_facts x Hx) as (Hn & _ & Ht).
    simpl. rewrite Ht. apply String.eqb_neq in Hn. rewrite Hn. simpl.
    now rewrite IH.
  - exact Hne.
  - rewrite forallb_forall in *. intros x Hx.
    now destruct (clean_sku_facts x (H x Hx)) as (_ & Hc & _).
Qed.

Lemma join_nonempty (x : string) (l : list string) :
  x <> "" -> join "," (x :: l) <> "".
Proof.
  intros Hx. destruct l as [|y l]; simpl; [exact Hx|].
  destruct x; [congruence|discriminate].
Qed.

End SkuList.

Section DecimalNumerals.

Lemma digits_prefix_all (s : string) (acc : option Z) :
  all_digits s = true -> digits_prefix 10 acc s = digits_all 10 acc s.
Proof.
  revert acc. induction s as [|c s IH]; intros acc H; [reflexivity|].
  simpl in H. apply andb_true_iff in H as [Hc Hs]. simpl.
  destruct (digit_val c) as [d|] eqn:Hd.
  - destruct (d <? 10)%Z eqn:Hlt.
    + now apply IH.
    + exfalso. clear - Hc Hd Hlt.
      destruct c as [[] [] [] [] [] [] [] []]; try discriminate Hc;
        vm_compute in Hd; injection Hd as <-; discriminate Hlt.
  - exfalso. clear - Hc Hd.
    destruct c as [[] [] [] [] [] [] [] []]; try discriminate Hc; discriminate Hd.
Qed.

Lemma strip_hex_digits (s : string) :
  all_digits s = true -> strip_hex_prefix s = None.
Proof.
  intros H. unfold strip_hex_prefix, strip_radix_prefix.
  destruct s as [|c1 [|c2 r]]; try reflexivity.
  simpl in H. apply andb_true_iff in H as [_ H]. apply andb_true_iff in H as [H2 _].
  destruct (digit_plain c2 H2) as (_ & _ & _ & Hr). rewrite Hr.
  destruct (Ascii.eqb c1 "0"); reflexivity.
Qed.

(** [parseInt] reads back what [String] prints for an array index or a
    page number. *)
Lemma parseInt_nat_toString (n : nat) :
  parseInt (nat_toString n) 0 = Num (Z.of_nat n).
Proof.
  pose proof (uint_digits (Nat.to_uint n)) as Hd. fold (nat_toString n) in Hd.
  pose proof (to_uint_nonempty n) as Hne.
  unfold parseInt.
  assert (Hts : trimStart (nat_toString n) = nat_toString n).
  { destruct (nat_toString n) as [|c s]; [reflexivity|]. simpl in *.
    apply andb_true_iff in Hd as [Hc _].
    destruct (digit_plain c Hc) as [Hw _]. now rewrite Hw. }
  rewrite Hts.
  assert (Hsign : strip_sign (nat_toString n) = (1%Z, nat_toString n)).
  { destruct (nat_toString n) as [|c s]; [reflexivity|]. simpl in Hd.
    apply andb_true_iff in Hd as [Hc _].
    destruct (digit_plain c Hc) as (_ & Hm & Hp & _).
    unfold strip_sign. now rewrite Hm, Hp. }
  rewrite Hsign. simpl negb. cbn [andb orb Z.eqb].
  rewrite strip_hex_digits by assumption.
  rewrite digits_prefix_all by assumption.
  rewrite digits_all_start by assumption.
  rewrite digits_all_nat. f_equal. lia.
Qed.

Lemma parseInt_toString (z : Z) :
  (0 <= z)%Z -> parseInt (toString (Num z)) 0 = Num z.
Proof.
  intros Hz. rewrite toString_nonneg by assumption.
  rewrite parseInt_nat_toString. f_equal. lia.
Qed.

End DecimalNumerals.

(** ** What the server receives from the browser *)

Section Received.

Lemma assoc_absent {A} (k : string) (l : list (string * A)) :
  ~ In k (map fst l) -> Lines.assoc k l = None.
Proof.
  intros H. destruct (Lines.assoc k l) as [v|] eqn:Hv; [|reflexivity].
  exfalso. apply H. apply assoc_in in Hv. apply in_map_iff. now exists (k, v).
Qed.

(** A name the extra parameters do not use reads as the filters set it. *)
Lemma toQS_filter_field (f : Client.Filters) (extra : list (string * Client.extra_value))
  (k : string) :
  NoDup (map fst extra) -> ~ In k (map fst extra) ->
  Lines.assoc k (Client.toQS f extra) = Lines.assoc k (Client.toQS f []).
Proof.
  intros Hnd Hk. rewrite toQS_lookup by assumption.
  now rewrite (assoc_absent k extra Hk).
Qed.

Lemma table_names (s : Client.App) :
  NoDup (map fst
    [ ("page", Client.ENum (Client.page s)); ("pageSize", Client.ENum Client.pageSize);
      ("sortBy", Client.EStr (Client.SortKey_text (Client.sortBy s)));
      ("sortDir", Client.EStr (Client.SortDir_text (Client.sortDir s))) ]).
Proof. simpl. repeat constructor; simpl; intuition discriminate. Qed.

End Received.

(** X18: the filters of the browser reach [buildWhere] unchanged.  For
    extra parameters with distinct names, none of them a filter name, the
    request [toQS] builds makes the server see each scalar filter as set
    exactly when it is not empty in the browser, with the same value, and
    no [productTmplIds]; and when every selected SKU is non-empty, has no
    comma and no white space at its ends, the list the server derives from
    the [skus] field is the browser's list, in order. *)
Theorem toQS_filters_received (f : Client.Filters)
  (extra : list (string * Client.extra_value)) :
  NoDup (map fst extra) ->
  (forall k, In k ("productTmplIds" :: Client.filter_names) -> ~ In k (map fst extra)) ->
  forallb Client.clean_sku (Client.skus f) = true ->
  let q := Client.received (Client.toQS f extra) in
  present (Request.dateFrom q) = present (Some (Client.dateFrom f))
  /\ present (Request.dateTo q) = present (Some (Client.dateTo f))
  /\ present (Request.catL1 q) = present (Some (Client.catL1 f))
  /\ present (Request.catL2 q) = present (Some (Client.catL2 f))
  /\ present (Request.catL3 q) = present (Some (Client.catL3 f))
  /\ present (Request.search q) = present (Some (Client.search f))
  /\ match present (Request.skus q) with
     | Some s => skuList s
     | None => []
     end = Client.skus f
  /\ Request.productTmplIds q = None.
Proof.
  intros Hnd Hnames Hclean q. unfold q, Client.received. cbn [Request.dateFrom
    Request.dateTo Request.catL1 Request.catL2 Request.catL3 Request.search
    Request.skus Request.productTmplIds].
  assert (Hf : forall k, In k ("productTmplIds" :: Client.filter_names) ->
                 Lines.assoc k (Client.toQS f extra) = Lines.assoc k (Client.toQS f [])).
  { intros k Hk. apply toQS_filter_field; [exact Hnd|now apply Hnames]. }
  assert (Hpp : forall v : string, present (present (Some v)) = present (Some v)).
  { intros v. simpl. destruct (v =? "") eqn:E; [reflexivity|]. simpl. now rewrite E. }
  repeat split.
  1-6: rewrite Hf by (simpl; tauto); rewrite filters_lookup; cbn; apply Hpp.
  - rewrite Hf by (simpl; tauto). rewrite filters_lookup. cbn [String.eqb Ascii.eqb Bool.eqb].
    destruct (Client.skus f) as [|x l] eqn:Hs; [reflexivity|].
    change (0 <? List.length (x :: l))%nat with true. cbv iota.
    assert (Hx : x <> "").
    { simpl in Hclean. apply andb_true_iff in Hclean as [Hx _].
      now destruct (clean_sku_facts x Hx). }
    rewrite (present_some (Some (join "," (x :: l))) (join "," (x :: l)) eq_refl
               (join_nonempty x l Hx)).
    apply skuList_join; [discriminate|exact Hclean].
  - rewrite Hf by (simpl; tauto). rewrite filters_lookup. reflexivity.
Qed.

Lemma toQS_filters_received_browsing :
  let q := Client.received (Client.tableQs Samples.browsing) in
  present (Request.dateFrom q) = present (Some "2025-01")
  /\ present (Request.dateTo q) = present (Some "")
  /\ present (Request.catL1 q) = present (Some "Raw")
  /\ present (Request.catL2 q) = present (Some "")
  /\ present (Request.catL3 q) = present (Some "")
  /\ present (Request.search q) = present (Some "")
  /\ match present (Request.skus q) with
     | Some s => skuList s
     | None => []
     end = ["A-1"; "B-2"]
  /\ Request.productTmplIds q = None.
Proof.
  apply (toQS_filters_received (Client.filters Samples.browsing)
           [ ("page", Client.ENum (Client.page Samples.browsing));
             ("pageSize", Client.ENum Client.pageSize);
             ("sortBy", Client.EStr (Client.SortKey_text (Client.sortBy Samples.browsing)));
             ("sortDir", Client.EStr (Client.SortDir_text (Client.sortDir Samples.browsing))) ]).
  - exact (table_names Samples.browsing).
  - intros k Hk Hin. simpl in Hk, Hin.
    repeat (destruct Hk as [<-|Hk];
            [repeat (destruct Hin as [Hin|Hin]; [discriminate Hin|]); exact Hin|]).
    exact Hk.
  - reflexivity.
Defined.

Section TableRequest.
Variable s : Client.App.

Lemma table_sortBy :
  Request.sortBy (Client.received (Client.tableQs s))
  = Some (Client.SortKey_text (Client.sortBy s)).
Proof.
  unfold Client.received, Client.tableQs. cbn [Request.sortBy].
  rewrite toQS_lookup by apply table_names.
  destruct (Client.sortBy s); reflexivity.
Qed.

Lemma table_sortDir :
  Request.sortDir (Client.received (Client.tableQs s))
  = Some (Client.SortDir_text (Client.sortDir s)).
Proof.
  unfold Client.received, Client.tableQs. cbn [Request.sortDir].
  rewrite toQS_lookup by apply table_names.
  destruct (Client.sortDir s); reflexivity.
Qed.

Lemma table_page_field :
  Request.page (Client.received (Client.tableQs s))
  = Some (toString (Client.page s)).
Proof.
  unfold Client.received, Client.tableQs. cbn [Request.page].
  rewrite toQS_lookup by apply table_names. reflexivity.
Qed.

Lemma table_pageSize_field :
  Request.pageSize (Client.received (Client.tableQs s)) = Some "50".
Proof.
  unfold Client.received, Client.tableQs. cbn [Request.pageSize].
  rewrite toQS_lookup by apply table_names. reflexivity.
Qed.

(** The ORDER BY line of the table request. *)
Lemma table_order_by_line :
  Lines.order_by (Client.received (Client.tableQs s))
  = ("ORDER BY "
     ++ match Lines.assoc (Client.SortKey_text (Client.sortBy s)) Lines.SORTABLE with
        | Some col => col
        | None => "month"
        end
     ++ match Client.sortDir s with
        | Client.Asc => " ASC, sku DESC"
        | Client.Desc => " DESC, sku ASC"
        end)%string.
Proof.
  unfold Lines.order_by, Lines.tieDir, Lines.sortDir, Lines.sortCol, Lines.SORTABLE_get.
  rewrite table_sortBy, table_sortDir.
  destruct (Client.sortBy s), (Client.sortDir s); reflexivity.
Qed.

(** The page of the table request, for a page number that is at least 1. *)
Lemma table_page_read (p : Z) :
  Client.page s = Num p -> (1 <= p)%Z ->
  Lines.page (Client.received (Client.tableQs s)) = Num p.
Proof.
  intros Hp Hle. unfold Lines.page. rewrite table_page_field, Hp.
  assert (Hne : toString (Num p) <> "").
  { rewrite toString_nonneg by lia. apply to_uint_nonempty. }
  unfold or_default. apply String.eqb_neq in Hne. rewrite Hne.
  rewrite parseInt_toString by lia. simpl. f_equal. lia.
Qed.

Lemma table_pageSize_read :
  Lines.pageSize (Client.received (Client.tableQs s)) = Num 50.
Proof. unfold Lines.pageSize. rewrite table_pageSize_field. reflexivity. Qed.

End TableRequest.

(** X19: whatever the state of the browser, the table request sorts by
    the column its sort key stands for in [SORTABLE], in the direction of
    its sort direction with the SKU in the other one; the ORDER BY line is
    one of the allowed ones. *)
Theorem table_request_order_by (s : Client.App) :
  let q := Client.received (Client.tableQs s) in
  exists col,
    Lines.assoc (Client.SortKey_text (Client.sortBy s)) Lines.SORTABLE = Some col
    /\ Lines.order_by q
       = ("ORDER BY " ++ col
          ++ match Client.sortDir s with
             | Client.Asc => " ASC, sku DESC"
             | Client.Desc => " DESC, sku ASC"
             end)%string
    /\ In (Lines.order_by q) Lines.allowed_order_by.
Proof.
  intros q. unfold q. rewrite table_order_by_line.
  destruct (Client.sortBy s), (Client.sortDir s);
    (eexists; split; [reflexivity|]; split; [reflexivity|]);
    vm_compute; tauto.
Qed.



(** ** The category chart's drill level *)

Section DrillLevel.

Lemma present_present (v : string) : present (present (Some v)) = present (Some v).
Proof.
  simpl. destruct (v =? "") eqn:E; [reflexivity|]. simpl. now rewrite E.
Qed.

Lemma server_level (f : Client.Filters) :
  ByCategory.level (Client.received (Client.toQS f []))
  = Client.level (Client.catL1 f) (Client.catL2 f).
Proof.
  unfold ByCategory.level, Client.received, Client.level.
  cbn [Request.catL1 Request.catL2].
  rewrite !filters_lookup. cbn [String.eqb Ascii.eqb Bool.eqb Lines.assoc Client.scalar].
  rewrite !present_present. simpl present.
  destruct (Client.catL2 f =? ""), (Client.catL1 f =? ""); reflexivity.
Qed.

End DrillLevel.

(** X21: for every state of the browser, the drill level the category
    chart labels its bars with is the level the by-category endpoint
    groups by for the request made in that state. *)
Theorem chart_level_agrees (s : Client.App) :
  ByCategory.level (Client.received (Client.qs s)) = Client.shown_level s.
Proof. apply server_level. Qed.

(** X22: a click on the bar of a non-empty category while the chart shows
    level 1 or 2 makes that category the filter of the level shown, clears
    the filters below it, resets the table to page 1, and takes both the
    chart and the by-category endpoint one level down. *)
Theorem bar_click_descends (s : Client.App) (fullName : string) :
  fullName <> "" -> Client.shown_level s < 3 ->
  let s' := Client.bar_click fullName s in
  Client.shown_level s' = Client.shown_level s + 1
  /\ ByCategory.level (Client.received (Client.qs s')) = Client.shown_level s + 1
  /\ Client.page s' = Num 1
  /\ Client.catL3 (Client.filters s') = ""
  /\ (Client.shown_level s = 1 ->
      Client.catL1 (Client.filters s') = fullName
      /\ Client.catL2 (Client.filters s') = "")
  /\ (Client.shown_level s = 2 ->
      Client.catL1 (Client.filters s') = Client.catL1 (Client.filters s)
      /\ Client.catL2 (Client.filters s') = fullName).
Proof.
  intros Hne Hlt s'.
  assert (H : Client.shown_level s' = Client.shown_level s + 1
              /\ Client.page s' = Num 1
              /\ Client.catL3 (Client.filters s') = ""
              /\ (Client.shown_level s = 1 ->
                  Client.catL1 (Client.filters s') = fullName
                  /\ Client.catL2 (Client.filters s') = "")
              /\ (Client.shown_level s = 2 ->
                  Client.catL1 (Client.filters s') = Client.catL1 (Client.filters s)
                  /\ Client.catL2 (Client.filters s') = fullName)).
  { unfold s', Client.bar_click.
    destruct (Nat.ltb_spec (Client.shown_level s) 3) as [_|]; [|lia].
    apply String.eqb_neq in Hne.
    unfold Client.shown_level, Client.level in *.
    destruct (Client.catL2 (Client.filters s) =? "") eqn:E2; simpl in Hlt; [|lia].
    destruct (Client.catL1 (Client.filters s) =? "") eqn:E1; simpl;
      rewrite ?Hne, ?E1; simpl; repeat split; try reflexivity; try discriminate. }
  destruct H as (H1 & H2 & H3 & H4 & H5).
  repeat split; try assumption; try (now apply H4); try (now apply H5).
  unfold Client.qs. rewrite server_level. exact H1.
Qed.

Lemma bar_click_descends_browsing :
  let s' := Client.bar_click "Steel" Samples.browsing in
  Client.shown_level s' = Client.shown_level Samples.browsing + 1
  /\ ByCategory.level (Client.received (Client.qs s'))
     = Client.shown_level Samples.browsing + 1
  /\ Client.page s' = Num 1
  /\ Client.catL3 (Client.filters s') = ""
  /\ (Client.shown_level Samples.browsing = 1 ->
      Client.catL1 (Client.filters s') = "Steel"
      /\ Client.catL2 (Client.filters s') = "")
  /\ (Client.shown_level Samples.browsing = 2 ->
      Client.catL1 (Client.filters s') = Client.catL1 (Client.filters Samples.browsing)
      /\ Client.catL2 (Client.filters s') = "Steel").
Proof.
  apply (bar_click_descends Samples.browsing "Steel"); [discriminate|vm_compute; lia].
Defined.

(** ** The pager of the table *)

Section Pager.
Local Open Scope Z_scope.



End Pager.



(** ** The ticks of the price chart *)

Section Ticks.

Lemma ceil_div_step (i step : nat) :
  0 < step ->
  Client.ceil_div (S i) step
  = Client.ceil_div i step + (if (i mod step =? 0)%nat then 1 else 0).
Proof.
  intros Hs. unfold Client.ceil_div.
  pose proof (Nat.div_mod_eq i step) as Hi.
  pose proof (Nat.mod_upper_bound i step ltac:(lia)) as Hr.
  set (q := i / step) in *. set (r := i mod step) in *.
  destruct (Nat.eqb_spec r 0) as [H0|H0].
  - rewrite <- (Nat.div_unique (S i + step - 1) step (q + 1) 0) by nia.
    rewrite <- (Nat.div_unique (i + step - 1) step q (step - 1)) by nia.
    lia.
  - rewrite <- (Nat.div_unique (S i + step - 1) step (q + 1) r) by nia.
    rewrite <- (Nat.div_unique (i + step - 1) step (q + 1) (r - 1)) by nia.
    lia.
Qed.

(** Between index [i] and the end, one row in [step] is kept. *)
Lemma every_nth_length {A} (step i : nat) (xs : list A) :
  0 < step ->
  List.length (Client.every_nth step i xs) + Client.ceil_div i step
  = Client.ceil_div (i + List.length xs) step.
Proof.
  intros Hs. revert i. induction xs as [|x xs IH]; intros i.
  - simpl. now rewrite Nat.add_0_r.
  - simpl. replace (i + S (List.length xs)) with (S i + List.length xs) by lia.
    rewrite <- IH. rewrite (ceil_div_step i step Hs).
    destruct (i mod step =? 0)%nat; simpl; lia.
Qed.

Lemma ceil_div_le (n m s : nat) : 0 < s -> n <= m * s -> Client.ceil_div n s <= m.
Proof.
  intros Hs H. unfold Client.ceil_div.
  apply Nat.lt_succ_r. apply Nat.Div0.div_lt_upper_bound. nia.
Qed.

Lemma ceil_div_ge (n max : nat) : 0 < max -> n <= Client.ceil_div n max * max.
Proof.
  intros Hm. unfold Client.ceil_div.
  pose proof (Nat.div_mod_eq (n + max - 1) max) as H.
  pose proof (Nat.mod_upper_bound (n + max - 1) max ltac:(lia)) as Hr.
  nia.
Qed.

Lemma every_nth_incl {A} (step i : nat) (xs : list A) :
  incl (Client.every_nth step i xs) xs.
Proof.
  revert i. induction xs as [|x xs IH]; intros i y Hy; [exact Hy|].
  simpl in Hy. destruct (i mod step =? 0)%nat.
  - destruct Hy as [<-|Hy]; [now left|right; now apply (IH (S i))].
  - right. now apply (IH (S i)).
Qed.

End Ticks.

(** X24: for a positive [max], [xTicks] keeps at most [max] of the dates,
    each of them a date of the data, the first date among them whenever
    there is one; and it keeps all of them when there are no more than
    [max]. *)
Theorem xTicks_at_most_max {A : Type} (data : list A) (max : nat) :
  0 < max ->
  List.length (Client.xTicks data max) <= max
  /\ incl (Client.xTicks data max) data
  /\ hd_error (Client.xTicks data max) = hd_error data
  /\ (List.length data <= max -> Client.xTicks data max = data).
Proof.
  intros Hm. unfold Client.xTicks.
  destruct (Nat.leb_spec (List.length data) max) as [Hle|Hgt].
  - repeat split; try assumption; try reflexivity. apply incl_refl.
  - set (step := Client.ceil_div (List.length data) max).
    assert (Hstep : 0 < step).
    { pose proof (ceil_div_ge (List.length data) max Hm). fold step in H. nia. }
    split; [|split; [|split]].
    + pose proof (every_nth_length step 0 data Hstep) as H.
      assert (H0 : Client.ceil_div 0 step = 0).
      { unfold Client.ceil_div. apply Nat.div_small. lia. }
      rewrite H0 in H. simpl in H. rewrite Nat.add_0_r in H. rewrite H.
      apply ceil_div_le; [exact Hstep|].
      pose proof (ceil_div_ge (List.length data) max Hm). fold step in H1. lia.
    + apply every_nth_incl.
    + destruct data as [|x data]; [reflexivity|].
      simpl. now rewrite Nat.Div0.mod_0_l.
    + lia.
Qed.

Lemma xTicks_at_most_max_sample :
  List.length (Client.xTicks [1; 2; 3; 4; 5; 6; 7] 3) <= 3
  /\ incl (Client.xTicks [1; 2; 3; 4; 5; 6; 7] 3) [1; 2; 3; 4; 5; 6; 7]
  /\ hd_error (Client.xTicks [1; 2; 3; 4; 5; 6; 7] 3) = hd_error [1; 2; 3; 4; 5; 6; 7]
  /\ (List.length [1; 2; 3; 4; 5; 6; 7] <= 3
      -> Client.xTicks [1; 2; 3; 4; 5; 6; 7] 3 = [1; 2; 3; 4; 5; 6; 7]).
Proof.
  apply (xTicks_at_most_max [1; 2; 3; 4; 5; 6; 7] 3). lia.
Defined.

(** ** The statements around the filter *)

Section StatementPlaceholders.
Import Statements.

Lemma no_dollar_append (a b : string) :
  no_dollar a = true -> no_dollar b = true -> no_dollar (a ++ b) = true.
Proof.
  induction a as [|c a IH]; intros Ha Hb; [exact Hb|].
  simpl in *. apply andb_true_iff in Ha as [Hc Ha].
  rewrite Hc. simpl. now apply IH.
Qed.

Lemma scan_plain_end (s : string) : no_dollar s = true -> scan None s = [].
Proof.
  intros H. rewrite <- (string_app_nil_r s). now rewrite scan_no_dollar.
Qed.

Lemma toString_no_dollar (n : number) : no_dollar (toString n) = true.
Proof.
  destruct n as [|z]; [reflexivity|]. unfold toString.
  destruct (z <? 0)%Z.
  - apply no_dollar_append; [reflexivity|apply nat_toString_no_dollar].
  - apply nat_toString_no_dollar.
Qed.

Lemma sortCol_no_dollar (query : query) :
  no_dollar (Lines.interpolate (Lines.sortCol query)) = true.
Proof.
  unfold Lines.sortCol, Lines.SORTABLE_get.
  set (name := match sortBy query with Some s => s | None => "undefined" end).
  destruct (Lines.assoc name Lines.SORTABLE) as [c|] eqn:Hc.
  - apply assoc_in in Hc.
    assert (Hall : Forall (fun kv : string * string => no_dollar (snd kv) = true)
                          Lines.SORTABLE) by (repeat constructor).
    rewrite Forall_forall in Hall. specialize (Hall _ Hc). simpl in Hall.
    simpl. destruct (negb (c =? "")); [exact Hall|reflexivity].
  - destruct (Lines.assoc name Lines.Object_prototype) as [v|] eqn:Hv; [|reflexivity].
    apply assoc_in in Hv.
    assert (Hall : Forall (fun kv : string * Lines.jsval =>
                             no_dollar (Lines.interpolate
                               (if Lines.js_truthy (snd kv) then snd kv else Lines.Str "month"))
                             = true)
                          Lines.Object_prototype) by (repeat constructor).
    rewrite Forall_forall in Hall. exact (Hall _ Hv).
Qed.

Lemma order_by_no_dollar (query : query) : no_dollar (Lines.order_by query) = true.
Proof.
  unfold Lines.order_by.
  apply no_dollar_append; [reflexivity|].
  apply no_dollar_append; [apply sortCol_no_dollar|].
  apply no_dollar_append; [reflexivity|].
  apply no_dollar_append.
  - unfold Lines.sortDir. destruct (Request.sortDir query) as [s|]; [|reflexivity].
    destruct (s =? "asc"); reflexivity.
  - apply no_dollar_append; [reflexivity|].
    unfold Lines.tieDir. destruct (Lines.sortDir query =? "DESC"); reflexivity.
Qed.

Lemma limit_offset_no_dollar (query : query) :
  no_dollar (Lines.limit_offset query) = true.
Proof.
  unfold Lines.limit_offset.
  apply no_dollar_append; [reflexivity|].
  apply no_dollar_append; [apply toString_no_dollar|].
  apply no_dollar_append; [reflexivity|apply toString_no_dollar].
Qed.

End StatementPlaceholders.

(** X25: the count and data statements of the lines endpoint and the
    statements of the by-category and monthly endpoints reference exactly
    the placeholders of the filter, whatever the request: [sortBy],
    [sortDir], [page] and [pageSize] never add one, and collapsed to first
    uses the references are [$1 .. $n] for the [n] parameters handed to
    [pool.query]. *)
Theorem statements_reference_filter_parameters (query : query) :
  let w := buildWhere query in
  placeholders (Statements.countSql (where_ w)) = placeholders (where_ w)
  /\ placeholders (Statements.dataSql query) = placeholders (where_ w)
  /\ placeholders (ByCategory.sql query) = placeholders (where_ w)
  /\ placeholders (Monthly.sql query) = placeholders (where_ w)
  /\ uniq_adj (placeholders (where_ w)) = seq 1 (List.length (where_params w)).
Proof.
  intros w. unfold w. repeat split.
  - unfold placeholders, Statements.countSql. rewrite ?string_app_assoc.
    do 3 rewrite scan_no_dollar by reflexivity.
    rewrite (scans_where query) by reflexivity.
    rewrite scan_plain_end by reflexivity. rewrite app_nil_r.
    symmetry. apply where_refs.
  - unfold placeholders, Statements.dataSql, Statements.dataSql_select.
    rewrite ?string_app_assoc.
    do 3 rewrite scan_no_dollar by reflexivity.
    rewrite (scans_where query) by reflexivity.
    rewrite scan_plain_end.
    + rewrite app_nil_r. symmetry. apply where_refs.
    + apply no_dollar_append; [reflexivity|].
      apply no_dollar_append; [apply order_by_no_dollar|].
      apply no_dollar_append; [reflexivity|].
      apply no_dollar_append; [apply limit_offset_no_dollar|reflexivity].
  - unfold placeholders, ByCategory.sql, ByCategory.catExpr.
    rewrite ?string_app_assoc.
    do 2 rewrite scan_no_dollar by reflexivity.
    rewrite scan_no_dollar by apply nat_toString_no_dollar.
    do 4 rewrite scan_no_dollar by reflexivity.
    rewrite (scans_where query) by reflexivity.
    rewrite scan_plain_end by reflexivity. rewrite app_nil_r.
    symmetry. apply where_refs.
  - unfold placeholders, Monthly.sql. rewrite ?string_app_assoc.
    do 3 rewrite scan_no_dollar by reflexivity.
    rewrite (scans_where query) by reflexivity.
    rewrite scan_plain_end by reflexivity. rewrite app_nil_r.
    symmetry. apply where_refs.
  - rewrite where_refs, where_pcount. apply where_refs_bounded.
Qed.

(** ** What the filter means for the rows it keeps *)

Section RowMeaning.
Variable E : engine.

(** Every row kept is the line of a confirmed order. *)
Lemma selected_state (query : query) (db rows : list line) (l : line) :
  selected E query db = Some rows -> In l rows ->
  po_state l = Some "purchase" \/ po_state l = Some "done".
Proof.
  intros Hs Hl.
  destruct (compiled_conds_head query) as [rest Hc].
  destruct (selected_holds E query db rows l StateIn Hs Hl) as (b & Hb & Hh).
  { rewrite Hc. now left. }
  simpl in Hb. injection Hb as <-. unfold holds, text_in in Hh.
  destruct (po_state l) as [s|]; [|discriminate].
  injection Hh as Hh. simpl in Hh.
  destruct (String.eqb_spec s "purchase") as [Hp|_]; [left; now rewrite Hp|].
  destruct (String.eqb_spec s "done") as [Hp|_]; [right; now rewrite Hp|discriminate].
Qed.

(** The lower bound: the row is dated on or after the date the first
    parameter casts to. *)
Lemma selected_from (query : query) (db rows : list line) (l : line) (d : date) :
  selected E query db = Some rows -> In l rows ->
  cast_date E (or_default (dateFrom query) "2025-01" ++ "-01") = Some d ->
  date_leb d (po_date_order l) = true.
Proof.
  intros Hs Hl Hd.
  destruct (compiled_conds_head query) as [rest Hc].
  destruct (compiled_params_head query) as [prest Hp].
  destruct (selected_holds E query db rows l (DateGe 1) Hs Hl) as (b & Hb & Hh).
  { rewrite Hc. right. now left. }
  simpl in Hb. rewrite Hp in Hb. unfold text_param, param_at in Hb. simpl in Hb.
  rewrite Hd in Hb. simpl in Hb. injection Hb as <-.
  simpl in Hh. now injection Hh.
Qed.

(** The upper bound with [dateTo] set: the row is dated before the date
    the second parameter casts to. *)
Lemma selected_to (query : query) (db rows : list line) (l : line) (s : string)
  (d : date) :
  selected E query db = Some rows -> In l rows ->
  present (dateTo query) = Some s ->
  cast_date E (nextMonth s) = Some d ->
  date_ltb (po_date_order l) d = true.
Proof.
  intros Hs Hl Hto Hd.
  destruct (compiled_conds_head query) as [rest Hc].
  destruct (compiled_params_head query) as [prest Hp].
  unfold cl_dateTo in Hc, Hp. rewrite Hto in Hc, Hp. simpl in Hc, Hp.
  destruct (selected_holds E query db rows l (DateLt 2) Hs Hl) as (b & Hb & Hh).
  { rewrite Hc. right. right. now left. }
  simpl in Hb. rewrite Hp in Hb. unfold text_param, param_at in Hb. simpl in Hb.
  rewrite Hd in Hb. simpl in Hb. injection Hb as <-.
  simpl in Hh. now injection Hh.
Qed.

(** The upper bound without [dateTo]: the row is dated before 2099. *)
Lemma selected_sentinel (query : query) (db rows : list line) (l : line) :
  selected E query db = Some rows -> In l rows ->
  present (dateTo query) = None ->
  date_ltb (po_date_order l) (mkDate 2099 1 1) = true.
Proof.
  intros Hs Hl Hto.
  destruct (compiled_conds_head query) as [rest Hc].
  unfold cl_dateTo in Hc. rewrite Hto in Hc. simpl in Hc.
  destruct (selected_holds E query db rows l DateLtSentinel Hs Hl) as (b & Hb & Hh).
  { rewrite Hc. right. right. now left. }
  simpl in Hb. injection Hb as <-. simpl in Hh. now injection Hh.
Qed.

End RowMeaning.

Section MonthArithmetic.
Local Open Scope Z_scope.

Lemma month_first_day (y m : Z) :
  (iso_month y m ++ "-01")%string = iso_date y m 1.
Proof.
  unfold iso_month, iso_date. rewrite !string_app_assoc. reflexivity.
Qed.

Lemma on_or_after_month (y m : Z) (d : date) :
  1 <= m <= 12 -> 1 <= month_of d <= 12 ->
  date_leb (mkDate y m 1) d = true ->
  y * 12 + m <= year d * 12 + month_of d.
Proof.
  unfold date_leb, date_ltb. simpl. intros Hm Hmd H.
  apply negb_true_iff in H.
  destruct (Z.ltb_spec (year d) y), (Z.eqb_spec (year d) y),
    (Z.ltb_spec (month_of d) m), (Z.eqb_spec (month_of d) m),
    (Z.ltb_spec (day d) 1); simpl in H; try discriminate; try lia.
Qed.

Lemma before_following_month (y m : Z) (d : date) :
  1 <= m <= 12 -> 1 <= month_of d <= 12 -> 1 <= day d ->
  date_ltb d (mkDate (fst (following_month y m)) (snd (following_month y m)) 1) = true ->
  year d * 12 + month_of d <= y * 12 + m.
Proof.
  unfold following_month, date_ltb. intros Hm Hmd Hd H.
  destruct (Z.eqb_spec m 12); simpl in H;
    repeat match type of H with
           | context [Z.ltb ?a ?b] => destruct (Z.ltb_spec a b)
           | context [Z.eqb ?a ?b] => destruct (Z.eqb_spec a b)
           end; simpl in H; try discriminate; try lia.
Qed.

End MonthArithmetic.

Section Defaults.

Lemma or_default_absent (v : option string) (d : string) :
  present v = None -> or_default v d = d.
Proof.
  unfold present, or_default. destruct v as [s|]; [|reflexivity].
  destruct (s =? ""); [reflexivity|discriminate].
Qed.

Lemma or_default_present (v : option string) (s d : string) :
  present v = Some s -> or_default v d = s.
Proof.
  unfold present, or_default. destruct v as [t|]; [|discriminate].
  destruct (t =? ""); [discriminate|]. now intros [= ->].
Qed.

End Defaults.

(** X26: with [dateFrom] and [dateTo] set to months and a server that
    reads the two ISO dates sent as those dates, every line the filter
    keeps whose order date is a calendar date lies in a month from
    [dateFrom] to [dateTo], both included. *)
Theorem selected_within_months (E : engine) (db rows : list line) (query : query)
  (y1 m1 y2 m2 : Z) :
  (1 <= m1 <= 12)%Z -> (1000 <= y2 <= 9999)%Z -> (1 <= m2 <= 12)%Z ->
  dateFrom query = Some (iso_month y1 m1) ->
  dateTo query = Some (iso_month y2 m2) ->
  cast_date E (iso_date y1 m1 1) = Some (mkDate y1 m1 1) ->
  (let next := following_month y2 m2 in
   cast_date E (iso_date (fst next) (snd next) 1) = Some (mkDate (fst next) (snd next) 1)) ->
  selected E query db = Some rows ->
  forall l, In l rows ->
    (1 <= month_of (po_date_order l) <= 12)%Z -> (1 <= day (po_date_order l))%Z ->
    (y1 * 12 + m1 <= year (po_date_order l) * 12 + month_of (po_date_order l)
     <= y2 * 12 + m2)%Z.
Proof.
  intros Hm1 Hy2 Hm2 Hfrom Hto Hc1 Hc2 Hs l Hl Hml Hdl. cbv zeta in Hc2.
  assert (Hpf : present (dateFrom query) = Some (iso_month y1 m1))
    by (apply present_some; [exact Hfrom|apply iso_month_nonempty]).
  assert (Hpt : present (dateTo query) = Some (iso_month y2 m2))
    by (apply present_some; [exact Hto|apply iso_month_nonempty]).
  split.
  - apply on_or_after_month; try assumption.
    apply (selected_from E query db rows l); try assumption.
    rewrite (or_default_present _ _ _ Hpf), month_first_day. exact Hc1.
  - apply before_following_month; try assumption.
    apply (selected_to E query db rows l (iso_month y2 m2)); try assumption.
    rewrite nextMonth_following by lia.
    rewrite first_day_iso; [exact Hc2|].
    unfold following_month. destruct (m2 =? 12)%Z; simpl; lia.
Qed.

Lemma first_quarter_selected :
  selected Sample.engine first_quarter Samples.five_months
  = Some Samples.first_quarter_lines.
Proof. vm_compute. reflexivity. Qed.

Lemma selected_within_months_first_quarter :
  selected Sample.engine first_quarter Samples.five_months
  = Some Samples.first_quarter_lines
  /\ forall l, In l Samples.first_quarter_lines ->
       (1 <= month_of (po_date_order l) <= 12)%Z -> (1 <= day (po_date_order l))%Z ->
       (2025 * 12 + 1 <= year (po_date_order l) * 12 + month_of (po_date_order l)
        <= 2025 * 12 + 3)%Z.
Proof.
  split; [exact first_quarter_selected|].
  apply (selected_within_months Sample.engine Samples.five_months
           Samples.first_quarter_lines first_quarter 2025 1 2025 3);
    [lia|lia|lia|reflexivity|reflexivity|reflexivity|reflexivity
    |exact first_quarter_selected].
Defined.

(** X27: every line the filter keeps is the line of an order in state
    [purchase] or [done]; without a [dateFrom] it is dated on or after the
    first of January 2025, for a server that reads ['2025-01-01'] as that
    date; and without a [dateTo] it is dated before the first of January
    2099. *)
Theorem selected_confirmed_orders (E : engine) (db rows : list line) (query : query) :
  selected E query db = Some rows ->
  forall l, In l rows ->
    (po_state l = Some "purchase" \/ po_state l = Some "done")
    /\ (present (dateFrom query) = None ->
        cast_date E "2025-01-01" = Some (mkDate 2025 1 1) ->
        date_leb (mkDate 2025 1 1) (po_date_order l) = true)
    /\ (present (dateTo query) = None ->
        date_ltb (po_date_order l) (mkDate 2099 1 1) = true).
Proof.
  intros Hs l Hl. split; [|split].
  - now apply (selected_state E query db rows).
  - intros Hf Hc. apply (selected_from E query db rows l); try assumption.
    now rewrite (or_default_absent _ _ Hf).
  - intros Ht. now apply (selected_sentinel E query db rows).
Qed.

Lemma selected_confirmed_orders_three_lines :
  selected Sample.engine Samples.raw_only Samples.three_lines = Some Samples.three_lines
  /\ forall l, In l Samples.three_lines ->
       (po_state l = Some "purchase" \/ po_state l = Some "done")
       /\ (present (dateFrom Samples.raw_only) = None ->
           cast_date Sample.engine "2025-01-01" = Some (mkDate 2025 1 1) ->
           date_leb (mkDate 2025 1 1) (po_date_order l) = true)
       /\ (present (dateTo Samples.raw_only) = None ->
           date_ltb (po_date_order l) (mkDate 2099 1 1) = true).
Proof.
  split; [exact three_lines_selected|].
  apply (selected_confirmed_orders Sample.engine Samples.three_lines
           Samples.three_lines Samples.raw_only).
  exact three_lines_selected.
Defined.

(** ** The text of the predicate *)

Section PredicateText.
Import Shape.

Lemma assemble_alike (cls1 cls2 : list clause) :
  Forall2 alike cls1 cls2 ->
  forall base,
    fst (assemble base cls1) = fst (assemble base cls2)
    /\ List.length (snd (assemble base cls1)) = List.length (snd (assemble base cls2)).
Proof.
  induction 1 as [|a b l1 l2 [Hlen Hcond] Hrest IH]; intros base; [now split|].
  simpl. destruct (IH (base + List.length (cl_params a))) as [IH1 IH2].
  rewrite <- Hlen.
  destruct (assemble (base + List.length (cl_params a)) l1) as [cs1 ps1].
  destruct (assemble (base + List.length (cl_params a)) l2) as [cs2 ps2].
  simpl in *. split.
  - now rewrite Hcond, IH1.
  - rewrite !length_app. lia.
Qed.

Lemma alike_refl (c : clause) : alike c c.
Proof. now split. Qed.

Lemma alike_cat (level : nat) (v1 v2 : option string) :
  is_present v1 = is_present v2 -> Forall2 alike (cl_cat level v1) (cl_cat level v2).
Proof.
  unfold is_present, cl_cat, opt_clause.
  destruct (present v1), (present v2); intros H; try discriminate;
    repeat constructor.
Qed.

Lemma alike_dateTo (q1 q2 : query) :
  is_present (dateTo q1) = is_present (dateTo q2) ->
  alike (cl_dateTo q1) (cl_dateTo q2).
Proof.
  unfold is_present, cl_dateTo.
  destruct (present (dateTo q1)), (present (dateTo q2)); intros H;
    try discriminate; now split.
Qed.

Lemma alike_search (q1 q2 : query) :
  is_present (search q1) = is_present (search q2) ->
  Forall2 alike (cl_search q1) (cl_search q2).
Proof.
  unfold is_present, cl_search, opt_clause.
  destruct (present (search q1)), (present (search q2)); intros H;
    try discriminate; repeat constructor.
Qed.

Lemma alike_skus (q1 q2 : query) :
  match present (skus q1) with Some s => List.length (skuList s) | None => 0 end
  = match present (skus q2) with Some s => List.length (skuList s) | None => 0 end ->
  Forall2 alike (cl_skus q1) (cl_skus q2).
Proof.
  unfold cl_skus, opt_clause.
  destruct (present (skus q1)) as [s1|], (present (skus q2)) as [s2|];
    try destruct (skuList s1) as [|x1 l1]; try destruct (skuList s2) as [|x2 l2];
    simpl; intros H; try discriminate; try solve [constructor].
  constructor; [|constructor]. split; simpl.
  - rewrite !length_map. congruence.
  - intros base. do 2 f_equal. congruence.
Qed.

Lemma alike_tmpl (q1 q2 : query) :
  match present (productTmplIds q1) with Some s => List.length (tmplIds s) | None => 0 end
  = match present (productTmplIds q2) with Some s => List.length (tmplIds s) | None => 0 end ->
  Forall2 alike (cl_tmpl q1) (cl_tmpl q2).
Proof.
  unfold cl_tmpl, opt_clause.
  destruct (present (productTmplIds q1)) as [s1|], (present (productTmplIds q2)) as [s2|];
    try destruct (tmplIds s1) as [|x1 l1]; try destruct (tmplIds s2) as [|x2 l2];
    simpl; intros H; try discriminate; try solve [constructor].
  constructor; [|constructor]. split; simpl.
  - rewrite !length_map. congruence.
  - intros base. do 2 f_equal. congruence.
Qed.

Lemma clauses_alike (q1 q2 : query) :
  shape_of q1 = shape_of q2 -> Forall2 alike (clauses q1) (clauses q2).
Proof.
  unfold shape_of. intros H. injection H as H1 H2 H3 H4 H5 H6 H7.
  unfold clauses, optional_clauses.
  constructor; [apply alike_refl|].
  constructor; [now split|].
  constructor; [now apply alike_dateTo|].
  repeat apply Forall2_app;
    auto using alike_cat, alike_search, alike_skus, alike_tmpl.
Qed.

Lemma level_of_shape (q1 q2 : query) :
  shape_of q1 = shape_of q2 -> ByCategory.level q1 = ByCategory.level q2.
Proof.
  unfold shape_of. intros H. injection H as _ H2 H3 _ _ _ _.
  unfold ByCategory.level, is_present in *.
  destruct (present (catL2 q1)), (present (catL2 q2)); try discriminate; try reflexivity.
  destruct (present (catL1 q1)), (present (catL1 q2)); try discriminate; reflexivity.
Qed.

End PredicateText.

(** X28: the text of the predicate depends only on which filter fields
    are set and on how many values the two list fields keep.  Two requests
    that agree on that get the same WHERE text and as many parameters,
    and so the same count, by-category and monthly statements: no
    character of a filter value ever reaches the SQL text, values travel
    as parameters only. *)
Theorem where_text_fixed_by_shape (q1 q2 : query) :
  Shape.shape_of q1 = Shape.shape_of q2 ->
  where_ (buildWhere q1) = where_ (buildWhere q2)
  /\ List.length (where_params (buildWhere q1)) = List.length (where_params (buildWhere q2))
  /\ Statements.countSql (where_ (buildWhere q1)) = Statements.countSql (where_ (buildWhere q2))
  /\ ByCategory.sql q1 = ByCategory.sql q2
  /\ Monthly.sql q1 = Monthly.sql q2.
Proof.
  intros H.
  destruct (assemble_alike _ _ (clauses_alike q1 q2 H) 0) as [Hc Hp].
  assert (Hw : where_ (buildWhere q1) = where_ (buildWhere q2)).
  { unfold buildWhere. simpl where_.
    destruct (build_compiled q1) as [-> _]. destruct (build_compiled q2) as [-> _].
    unfold compiled_conds. now rewrite Hc. }
  split; [exact Hw|]. split.
  - unfold buildWhere. simpl where_params.
    destruct (build_compiled q1) as [_ ->]. destruct (build_compiled q2) as [_ ->].
    exact Hp.
  - split; [now rewrite Hw|]. split.
    + unfold ByCategory.sql. now rewrite Hw, (level_of_shape q1 q2 H).
    + unfold Monthly.sql. now rewrite Hw.
Qed.

Lemma where_text_fixed_by_shape_hostile :
  where_ (buildWhere Samples.honest) = where_ (buildWhere Samples.hostile)
  /\ List.length (where_params (buildWhere Samples.honest))
     = List.length (where_params (buildWhere Samples.hostile))
  /\ Statements.countSql (where_ (buildWhere Samples.honest))
     = Statements.countSql (where_ (buildWhere Samples.hostile))
  /\ ByCategory.sql Samples.honest = ByCategory.sql Samples.hostile
  /\ Monthly.sql Samples.honest = Monthly.sql Samples.hostile.
Proof.
  apply (where_text_fixed_by_shape Samples.honest Samples.hostile).
  reflexivity.
Defined.

(** ** A click on a column header *)

Section HeaderClick.

Lemma SortKey_eqb_eq (a b : Client.SortKey) :
  Client.SortKey_eqb a b = true -> a = b.
Proof. destruct a, b; intros H; try reflexivity; discriminate H. Qed.

Lemma first_page_offset (s : Client.App) :
  Client.page s = Num 1 ->
  Lines.page (Client.received (Client.tableQs s)) = Num 1
  /\ Lines.offset (Client.received (Client.tableQs s)) = Num 0.
Proof.
  intros H. pose proof (table_page_read s 1 H ltac:(lia)) as Hp.
  split; [exact Hp|].
  unfold Lines.offset. now rewrite Hp, table_pageSize_read.
Qed.

End HeaderClick.

(** X29: after a click on the header of a column, the table request asks
    for the first page sorted on that column: descending when the column
    was not the sort column, the other way round than before when it was;
    the filters are left as they are. *)
Theorem header_click_sorts (s : Client.App) (col : Client.SortKey) :
  let s' := Client.handleSort col s in
  let q := Client.received (Client.tableQs s') in
  exists c,
    Lines.assoc (Client.SortKey_text col) Lines.SORTABLE = Some c
    /\ Lines.order_by q
       = ("ORDER BY " ++ c
          ++ if Client.SortKey_eqb col (Client.sortBy s)
             then match Client.sortDir s with
                  | Client.Asc => " DESC, sku ASC"
                  | Client.Desc => " ASC, sku DESC"
                  end
             else " DESC, sku ASC")%string
    /\ Lines.page q = Num 1
    /\ Lines.offset q = Num 0
    /\ Client.filters s' = Client.filters s.
Proof.
  intros s' q. unfold q, s', Client.handleSort.
  destruct (Client.SortKey_eqb col (Client.sortBy s)) eqn:He.
  - apply SortKey_eqb_eq in He. subst col.
    match goal with
    | |- context [Client.tableQs ?t] =>
        destruct (first_page_offset t eq_refl) as [Hp Ho]; rewrite Hp, Ho
    end.
    rewrite table_order_by_line. cbn [Client.sortBy Client.sortDir Client.filters].
    destruct (Client.sortBy s), (Client.sortDir s);
      (eexists; split; [reflexivity|]; repeat split; reflexivity).
  - match goal with
    | |- context [Client.tableQs ?t] =>
        destruct (first_page_offset t eq_refl) as [Hp Ho]; rewrite Hp, Ho
    end.
    rewrite table_order_by_line. cbn [Client.sortBy Client.sortDir Client.filters].
    destruct col; (eexists; split; [reflexivity|]; repeat split; reflexivity).
Qed.

Import Grouping.

(** ** The price per quarter *)

Section Rounding.
Local Open Scope Q_scope.

Lemma round_half_away_mono (x y : Q) :
  x <= y -> (round_half_away x <= round_half_away y)%Z.
Proof.
  intros Hxy. unfold round_half_away.
  destruct (Qle_bool 0 x) eqn:Hx, (Qle_bool 0 y) eqn:Hy.
  - apply Qfloor_resp_le. now apply Qplus_le_l.
  - apply Qle_bool_iff in Hx.
    assert (Hy' : ~ 0 <= y) by (intros H; apply Qle_bool_iff in H; congruence).
    exfalso. apply Hy'. now apply (Qle_trans _ x).
  - apply Qle_bool_iff in Hy.
    assert (Hx' : ~ 0 <= x) by (intros H; apply Qle_bool_iff in H; congruence).
    apply Qnot_le_lt in Hx'.
    assert (H1 : (0 <= Qfloor (- x + (1 # 2)))%Z).
    { change 0%Z with (Qfloor 0). apply Qfloor_resp_le.
      apply Qlt_le_weak in Hx'. apply (Qopp_le_compat x 0) in Hx'.
      apply (Qle_trans _ (- x)); [exact Hx'|].
      rewrite <- (Qplus_0_r (- x)) at 1. apply Qplus_le_r. discriminate. }
    assert (H2 : (0 <= Qfloor (y + (1 # 2)))%Z).
    { change 0%Z with (Qfloor 0). apply Qfloor_resp_le.
      apply (Qle_trans _ y); [exact Hy|].
      rewrite <- (Qplus_0_r y) at 1. apply Qplus_le_r. discriminate. }
    lia.
  - apply Z.opp_le_mono. rewrite !Z.opp_involutive.
    apply Qfloor_resp_le. apply Qplus_le_l. now apply Qopp_le_compat.
Qed.

Lemma round4_mono (x y : Q) :
  x <= y -> PriceByQuarter.round4 x <= PriceByQuarter.round4 y.
Proof.
  intros Hxy. unfold PriceByQuarter.round4.
  apply Qmult_le_compat_r; [|discriminate].
  rewrite <- Zle_Qle. apply round_half_away_mono.
  apply Qmult_le_compat_r; [exact Hxy|discriminate].
Qed.

End Rounding.

Section WeightedAverage.
Local Open Scope Q_scope.

Lemma weighted_sums (ls : list line) (lo hi : Q) :
  ls <> [] -> (forall l, In l ls -> PriceByQuarter.priced lo hi l) ->
  exists N D,
    SUM (map Kpis.ordered_value ls) = Some N
    /\ SUM (map product_qty ls) = Some D
    /\ 0 < D /\ lo * D <= N <= hi * D.
Proof.
  induction ls as [|l ls IH]; intros Hne Hall; [congruence|].
  destruct (Hall l (or_introl eq_refl)) as (q & x & Hq & Hq0 & Hx & Hlo & Hhi).
  assert (Hone : lo * q <= q * x <= hi * q).
  { split.
    - rewrite (Qmult_comm lo q). apply Qmult_le_l; assumption.
    - rewrite (Qmult_comm hi q). apply Qmult_le_l; assumption. }
  destruct ls as [|l' ls].
  - exists (q * x), q. simpl. unfold Kpis.ordered_value. rewrite Hq, Hx. simpl.
    repeat split; try assumption; apply Hone.
  - destruct IH as (N & D & HN & HD & HD0 & HloD & HhiD); [discriminate| |].
    { intros l0 Hl0. apply Hall. now right. }
    exists (q * x + N), (q + D).
    change (map Kpis.ordered_value (l :: l' :: ls))
      with (Kpis.ordered_value l :: map Kpis.ordered_value (l' :: ls)).
    change (map product_qty (l :: l' :: ls))
      with (product_qty l :: map product_qty (l' :: ls)).
    unfold Kpis.ordered_value at 1. rewrite Hq, Hx.
    cbn [SUM mulq]. rewrite HN, HD.
    split; [reflexivity|]. split; [reflexivity|]. split.
    + apply (Qlt_le_trans _ (q + 0)).
      * now rewrite Qplus_0_r.
      * apply Qplus_le_r. now apply Qlt_le_weak.
    + split.
      * rewrite Qmult_plus_distr_r. apply Qplus_le_compat; [apply Hone|exact HloD].
      * rewrite Qmult_plus_distr_r. apply Qplus_le_compat; [apply Hone|exact HhiD].
Qed.

Lemma price_of_bounds (ls : list line) (lo hi : Q) :
  ls <> [] -> (forall l, In l ls -> PriceByQuarter.priced lo hi l) ->
  exists p, PriceByQuarter.price_of ls = Some p
            /\ PriceByQuarter.round4 lo <= p <= PriceByQuarter.round4 hi.
Proof.
  intros Hne Hall.
  destruct (weighted_sums ls lo hi Hne Hall) as (N & D & HN & HD & HD0 & Hlo & Hhi).
  unfold PriceByQuarter.price_of. rewrite HN, HD. unfold nullif0.
  assert (Hz : Qeq_bool D 0 = false).
  { destruct (Qeq_bool D 0) eqn:E; [|reflexivity].
    apply Qeq_bool_iff in E. rewrite E in HD0. now apply Qlt_irrefl in HD0. }
  rewrite Hz. simpl. eexists. split; [reflexivity|]. split; apply round4_mono.
  - now apply Qle_shift_div_l.
  - now apply Qle_shift_div_r.
Qed.

Lemma kept_positive (rows : list line) (l : line) :
  In l (PriceByQuarter.kept rows) ->
  In l rows /\ exists q, product_qty l = Some q /\ 0 < q.
Proof.
  unfold PriceByQuarter.kept, PriceByQuarter.positive_qty. intros H.
  apply filter_In in H as [Hin Ht]. split; [exact Hin|].
  destruct (product_qty l) as [q|]; [|discriminate].
  exists q. split; [reflexivity|]. simpl in Ht.
  destruct (Qle_bool q 0) eqn:E; [discriminate|].
  apply Qnot_le_lt. intros Hle. apply Qle_bool_iff in Hle. congruence.
Qed.

End WeightedAverage.

Section QuarterRows.

Lemma selected_incl (E : engine) (query : query) (db rows : list line) :
  selected E query db = Some rows -> incl rows db.
Proof.
  intros H l Hl. now apply (selected_iff E query db rows l H) in Hl as [? _].
Qed.

Lemma quarter_range (d : date) :
  (1 <= month_of d <= 12)%Z -> (1 <= PriceByQuarter.quarter_of d <= 4)%Z.
Proof.
  intros H. unfold PriceByQuarter.quarter_of.
  assert (0 <= (month_of d - 1) / 3 < 4)%Z.
  { split; [apply Z.div_pos; lia|apply Z.div_lt_upper_bound; lia]. }
  lia.
Qed.

Lemma sorted_distinct_strict {A B} (f : A -> B) (R S : A -> A -> Prop) (l : list A) :
  (forall a b, R a b -> f a <> f b -> S a b) ->
  StronglySorted R l -> NoDup (map f l) -> StronglySorted S l.
Proof.
  intros HRS. induction 1 as [|x l Hs IH Hx]; intros Hnd; [constructor|].
  simpl in Hnd. inversion Hnd as [|? ? Hnin Hnd']; subst.
  constructor; [now apply IH|].
  rewrite Forall_forall in *. intros y Hy. apply HRS; [now apply Hx|].
  intros Heq. apply Hnin. rewrite Heq. now apply in_map.
Qed.

Lemma key_leb_ltb (a b : PriceByQuarter.quarter_row) :
  PriceByQuarter.key_leb a b = true ->
  (PriceByQuarter.year_no a, PriceByQuarter.quarter a)
  <> (PriceByQuarter.year_no b, PriceByQuarter.quarter b) ->
  PriceByQuarter.key_ltb a b = true.
Proof.
  unfold PriceByQuarter.key_leb, PriceByQuarter.key_ltb. intros H Hne.
  destruct (Z.ltb_spec (PriceByQuarter.year_no a) (PriceByQuarter.year_no b));
    [reflexivity|].
  destruct (Z.eqb_spec (PriceByQuarter.year_no a) (PriceByQuarter.year_no b));
    [|discriminate].
  simpl in *. apply Z.leb_le in H. apply Z.ltb_lt.
  destruct (Z.eq_dec (PriceByQuarter.quarter a) (PriceByQuarter.quarter b)); [|lia].
  exfalso. apply Hne. congruence.
Qed.

End QuarterRows.

(** X30: the rows of the price-by-quarter endpoint come in strictly
    ascending order of (year, quarter), one row per quarter; for a
    database of calendar dates every quarter is 1 to 4; and when every
    line has a unit price between [lo] and [hi], every row has a price,
    the quantity-weighted average of its lines, between [lo] and [hi]
    rounded to four decimals.  (Exact rational division; the scale the
    server divides at is not modelled.) *)
Theorem price_by_quarter_rows (E : engine) (db : list line) (query : query)
  (out : list PriceByQuarter.quarter_row) (lo hi : Q) :
  PriceByQuarter.handler E db query (Json out) ->
  (forall l, In l db -> (1 <= month_of (po_date_order l) <= 12)%Z) ->
  (forall l, In l db -> exists x, price_unit l = Some x /\ (lo <= x <= hi)%Q) ->
  StronglySorted (fun a b => PriceByQuarter.key_ltb a b = true) out
  /\ forall r, In r out ->
       (1 <= PriceByQuarter.quarter r <= 4)%Z
       /\ exists p, PriceByQuarter.price r = Some p
                    /\ (PriceByQuarter.round4 lo <= p <= PriceByQuarter.round4 hi)%Q.
Proof.
  unfold PriceByQuarter.handler.
  destruct (selected E query db) as [rows|] eqn:Hs; [|discriminate].
  intros (out' & Hp & Hsorted & Heq) Hdates Hprices. injection Heq as ->.
  pose proof (group_by_well PriceByQuarter.key_dec PriceByQuarter.key_of
                (PriceByQuarter.kept rows)) as [Hnd Hall].
  pose proof (group_by_perm PriceByQuarter.key_dec PriceByQuarter.key_of
                (PriceByQuarter.kept rows)) as Hperm.
  split.
  - apply (sorted_distinct_strict
             (fun r => (PriceByQuarter.year_no r, PriceByQuarter.quarter r))
             (fun a b => PriceByQuarter.key_leb a b = true)).
    + intros a b. apply key_leb_ltb.
    + exact Hsorted.
    + apply (Permutation_NoDup (Permutation_map _ Hp)).
      unfold PriceByQuarter.groups. rewrite map_map.
      erewrite map_ext; [exact Hnd|]. intros [[y q] ls]. reflexivity.
  - intros r Hr. apply (Permutation_in _ (Permutation_sym Hp)) in Hr.
    unfold PriceByQuarter.groups in Hr. apply in_map_iff in Hr.
    destruct Hr as ([[y q] ls] & <- & Hg).
    rewrite Forall_forall in Hall. destruct (Hall _ Hg) as [Hne Hk]. simpl in Hne, Hk.
    assert (Hdb : forall l, In l ls ->
              In l db /\ exists q0, product_qty l = Some q0 /\ (0 < q0)%Q).
    { intros l Hl.
      assert (Hin : In l (PriceByQuarter.kept rows)).
      { apply (Permutation_in _ Hperm). apply in_concat. exists ls.
        split; [|exact Hl]. apply in_map_iff. now exists (y, q, ls). }
      apply kept_positive in Hin as [Hin Hq].
      split; [|exact Hq]. now apply (selected_incl E query db rows Hs). }
    split.
    + destruct ls as [|l ls]; [congruence|].
      rewrite Forall_forall in Hk. specialize (Hk l (or_introl eq_refl)).
      unfold PriceByQuarter.key_of in Hk. injection Hk as _ <-.
      simpl. apply quarter_range. apply Hdates. apply Hdb. now left.
    + apply price_of_bounds; [exact Hne|].
      intros l Hl. destruct (Hdb l Hl) as [Hin (q0 & Hq & Hq0)].
      destruct (Hprices l Hin) as (x & Hx & Hb).
      now exists q0, x.
Qed.

Lemma five_months_selected :
  selected Sample.engine empty_query Samples.five_months
  = Some (skipn 1 Samples.five_months).
Proof. vm_compute. reflexivity. Qed.

Lemma five_months_handled :
  PriceByQuarter.handler Sample.engine Samples.five_months empty_query
    (Json Samples.five_months_prices).
Proof.
  unfold PriceByQuarter.handler. rewrite five_months_selected.
  exists Samples.five_months_prices.
  split; [apply Permutation_refl|]. split; [|reflexivity].
  apply sortedb_sound. vm_compute. reflexivity.
Qed.

Lemma five_months_priced (l : line) :
  In l Samples.five_months ->
  exists x, price_unit l = Some x /\ (1 <= x <= 5)%Q.
Proof.
  intros H. simpl in H.
  repeat (destruct H as [<-|H];
          [eexists; split; [reflexivity|split; discriminate]|]).
  destruct H.
Qed.

Lemma five_months_dated (l : line) :
  In l Samples.five_months -> (1 <= month_of (po_date_order l) <= 12)%Z.
Proof.
  intros H. simpl in H.
  repeat (destruct H as [<-|H]; [simpl; lia|]).
  destruct H.
Qed.

Lemma price_by_quarter_rows_five_months :
  StronglySorted (fun a b => PriceByQuarter.key_ltb a b = true) Samples.five_months_prices
  /\ forall r, In r Samples.five_months_prices ->
       (1 <= PriceByQuarter.quarter r <= 4)%Z
       /\ exists p, PriceByQuarter.price r = Some p
                    /\ (PriceByQuarter.round4 1 <= p <= PriceByQuarter.round4 5)%Q.
Proof.
  apply (price_by_quarter_rows Sample.engine Samples.five_months empty_query
           Samples.five_months_prices 1 5).
  - exact five_months_handled.
  - exact five_months_dated.
  - exact five_months_priced.
Defined.
